(** * lyrae-client: fixed-point arithmetic, instruction codec, health engine
      and PnL-settlement matching, embedded from the TypeScript sources.

    Layout of the development:
    - [Result]: the error monad (a JavaScript [throw] is an [Err]).
    - [BN]: the operations of the big-integer library that [I80F48] calls,
      on sign-and-magnitude integers ([Z]).
    - [I80F48]: src/utils/fixednum.ts.
    - [Layout]: the instruction union and the [_I80F48Layout] blob of
      src/layout.ts.
    - [Entities]: the group and cache records, generic in their numbers.
    - [Health]: the health engine of LyraeAccount.ts, on values.
    - [Heap]: [getHealthsFromComponents] on a store of mutable [I80F48]
      objects, where aliasing is visible.
    - [Settle]: the matching loop of [LyraeClient.settlePnl].
    - [Examples]: sample snapshots, stores and buffers.
    - [Codec]: the scalar layouts of src/layout.ts, encoding and decoding.
    - [Group]: the index lookups and [getPrice] of LyraeGroup.ts.
    - [Account]: balances and liquidation test of LyraeAccount.ts.
    - [Bank]: totals and interest rates of RootBank.ts.
    - [Client]: [LyraeClient.settlePnl] around the matching loop.
    - [Samples]: more sample data.
    The properties follow the definitions. *)

From Stdlib Require Import ZArith List Lia Bool String.
From stdpp Require Import base list.
Import ListNotations.

#[local] Open Scope Z_scope.

(* ===================================================================== *)
(** ** Errors *)

Inductive Error : Type :=
| OutOfRange        (* new Error('Number out of range') in the I80F48 constructor *)
| DivisionByZero    (* the big-integer library asserts a non-zero divisor *)
| BadLength         (* a byte array of the wrong length *)
| OutOfBounds       (* a read or a write past the end of a Buffer *)
| Undefined         (* a property read on [undefined] (TypeError) *)
| Invalid.          (* an enum value or a union discriminant that is not registered *)

Inductive Result (A : Type) : Type :=
| Ok (a : A)
| Err (e : Error).
Arguments Ok {A} a.
Arguments Err {A} e.

Definition bind {A B} (r : Result A) (k : A -> Result B) : Result B :=
  match r with
  | Ok a => k a
  | Err e => Err e
  end.

Declare Scope result_scope.
Delimit Scope result_scope with result.
Notation "'let*' x ':=' r 'in' k" := (bind r (fun x => k))
  (at level 10, x pattern, r at level 100, k at level 200) : result_scope.
#[local] Open Scope result_scope.

(** [a[i]] followed by a property read: [undefined] when [i] is past the end. *)
Definition at_index {A} (l : list A) (i : nat) : Result A :=
  match l !! i with
  | Some a => Ok a
  | None => Err Undefined
  end.

(* ===================================================================== *)
(** ** The big-integer operations used by the sources

    A [BN] is a sign and a magnitude of arbitrary size: here a [Z].  The
    shifts, [notn] and [testn] of the library work on the magnitude and leave
    the sign alone; [-0] is normalised to [0]. *)

Module BN.

Abbreviation BN := Z (only parsing).

(** [a.ushln(n)] / [a.iushln(n)]: the magnitude shifted left, sign kept. *)
Definition ushln (a : BN) (n : Z) : BN := Z.sgn a * Z.shiftl (Z.abs a) n.

(** [a.ushrn(n)] / [a.iushrn(n)]: the magnitude shifted right, sign kept. *)
Definition ushrn (a : BN) (n : Z) : BN := Z.sgn a * Z.shiftr (Z.abs a) n.

(** [a.div(b)]: asserts [!b.isZero()], then divides the magnitudes and
    gives the quotient the sign of the exact quotient. *)
Definition div (a b : BN) : Result BN :=
  if b =? 0 then Err DivisionByZero
  else Ok (Z.sgn a * Z.sgn b * (Z.abs a / Z.abs b)).

(** Width of [ceil(w / 26)] 26-bit words. *)
Definition word_width (w : Z) : Z := 26 * ((w + 25) / 26).

(** [a.notn(w)] on a magnitude: the low [w] bits are flipped, the rest of
    the word that holds bit [w - 1] is cleared, higher words are kept. *)
Definition notn (w : Z) (a : BN) : BN :=
  Z.lxor (Z.land a (Z.ones w)) (Z.ones w)
  + Z.shiftl (Z.shiftr a (word_width w)) (word_width w).

(** [a.toTwos(w)] *)
Definition toTwos (w : Z) (a : BN) : BN :=
  if a <? 0 then notn w (Z.abs a) + 1 else a.

(** [a.fromTwos(w)] *)
Definition fromTwos (w : Z) (a : BN) : BN :=
  if Z.testbit a (w - 1) then - (notn w a + 1) else a.

Definition bitLength (a : BN) : Z :=
  if Z.abs a =? 0 then 0 else Z.log2 (Z.abs a) + 1.

Definition byteLength (a : BN) : Z := (bitLength a + 7) / 8.

(** [len] little-endian bytes of a magnitude. *)
Fixpoint le_bytes (len : nat) (a : Z) : list Z :=
  match len with
  | O => []
  | S len' => a mod 256 :: le_bytes len' (a / 256)
  end.

(** [a.toArray('le', len)] / [a.toArrayLike(Buffer, 'le', len)]: asserts
    that the magnitude fits, then writes it (the sign is not written). *)
Definition toArray_le (len : nat) (a : BN) : Result (list Z) :=
  if byteLength a <=? Z.of_nat len then Ok (le_bytes len (Z.abs a))
  else Err BadLength.

(** [new BN(bytes, 'le')]: the unsigned little-endian value. *)
Fixpoint of_le_bytes (bytes : list Z) : BN :=
  match bytes with
  | [] => 0
  | b :: rest => b + 256 * of_le_bytes rest
  end.

End BN.

(* ===================================================================== *)
(** ** src/utils/fixednum.ts *)

Module I80F48.

Definition MAX_SIZE : Z := 128.
Definition FRACTIONS : Z := 48.
Definition MAX_BN : Z := Z.quot (2 ^ MAX_SIZE) 2 - 1.
Definition MIN_BN : Z := - Z.quot (2 ^ MAX_SIZE) 2.

(** An [I80F48] object is its [data] field.  The constructor checks the
    range; the in-place operations ([iadd], [isub], [imul]) write [data]
    without going through the constructor. *)
Abbreviation I80F48 := Z (only parsing).

(** [new I80F48(data)] *)
Definition new (data : Z) : Result I80F48 :=
  if (data <? MIN_BN) || (data >? MAX_BN) then Err OutOfRange else Ok data.

Definition InRange (d : Z) : Prop := MIN_BN <= d <= MAX_BN.

Definition fromI64 (x : Z) : Result I80F48 := new (BN.ushln x 48).
Definition fromU64 (x : Z) : Result I80F48 := new (BN.ushln x 48).

(** [I80F48.fromNumber(x)] for a whole number [x]: [new BN(int_part)]
    asserts a magnitude below [2^53], and the fractional part added is
    [new BN(0)]. *)
Definition fromNumber (x : Z) : Result I80F48 :=
  if 2 ^ 53 <=? Z.abs x then Err Invalid else new (BN.ushln x 48 + 0).

(** The module constants [fromString('1')], [fromString('0')] and
    [fromString('-1')]: the decimal times [2^48], rounded. *)
Definition ONE_I80F48 : I80F48 := 2 ^ 48.
Definition ZERO_I80F48 : I80F48 := 0.
Definition NEG_ONE_I80F48 : I80F48 := - 2 ^ 48.

Definition toTwos (x : I80F48) : Z := BN.toTwos MAX_SIZE x.

Definition fromArray (src : list Z) : Result I80F48 :=
  if negb (length src =? 16)%nat then Err BadLength
  else new (BN.fromTwos MAX_SIZE (BN.of_le_bytes src)).

Definition toArray (x : I80F48) : Result (list Z) :=
  BN.toArray_le 16 (BN.toTwos MAX_SIZE x).

Definition add (x y : I80F48) : Result I80F48 := new (x + y).
Definition sub (x y : I80F48) : Result I80F48 := new (x - y).
Definition iadd (x y : I80F48) : I80F48 := x + y.
Definition isub (x y : I80F48) : I80F48 := x - y.

Definition mul (x y : I80F48) : Result I80F48 :=
  new (BN.ushrn (x * y) FRACTIONS).
Definition imul (x y : I80F48) : I80F48 := BN.ushrn (x * y) FRACTIONS.

Definition div (x y : I80F48) : Result I80F48 :=
  let* q := BN.div (BN.ushln x FRACTIONS) y in new q.

Definition gt (x y : I80F48) : bool := x >? y.
Definition lt (x y : I80F48) : bool := x <? y.
Definition gte (x y : I80F48) : bool := x >=? y.
Definition lte (x y : I80F48) : bool := x <=? y.
Definition eq (x y : I80F48) : bool := x =? y.

Definition neg (x : I80F48) : Result I80F48 := mul x NEG_ONE_I80F48.
Definition isPos (x : I80F48) : bool := gt x ZERO_I80F48.
Definition isNeg (x : I80F48) : bool := x <? 0.
Definition isZero (x : I80F48) : bool := eq x ZERO_I80F48.
Definition min (x y : I80F48) : I80F48 := if lte x y then x else y.
Definition max (x y : I80F48) : I80F48 := if gte x y then x else y.
Definition abs (x : I80F48) : Result I80F48 :=
  if isNeg x then neg x else Ok x.

End I80F48.

(* ===================================================================== *)
(** ** src/layout.ts: the layouts of instruction fields

    A [Buffer] is a list of bytes (8-bit [Z]).  The layouts are those of the
    buffer-layout package as layout.ts instantiates and extends them:
    [UInt] reads with [readUIntLE], which throws past the end of the buffer;
    [Blob] reads with [slice], which silently stops at the end. *)

Module Layout.

Definition Buffer : Type := list Z.

Inductive Field : Type :=
| UInt (span : nat)                           (* u8, u16, u32 *)
| BNLayout (span : nat) (signed : bool)       (* u64, i64, u128, i128 *)
| I80F48Layout                                (* _I80F48Layout: Blob of 16 *)
| Bool_                                       (* bool: WrappedLayout(u8()) *)
| EnumLayout (values : list (string * Z)) (span : nat)
| SeqUInt (span count : nat).                 (* seq(u8(), n) *)

Inductive Value : Type :=
| VNum (n : Z)
| VFixed (x : I80F48.I80F48)
| VBool (b : bool)
| VName (name : string)
| VArray (l : list Z).

Definition u8 := UInt 1.
Definition u16 := UInt 2.
Definition u32 := UInt 4.
Definition u64 := BNLayout 8 false.
Definition i64 := BNLayout 8 true.
Definition u128 := BNLayout 16 false.
Definition i128 := BNLayout 16 true.
Definition sideLayout (span : nat) :=
  EnumLayout [("buy", 0); ("sell", 1)]%string span.
Definition orderTypeLayout (span : nat) :=
  EnumLayout [("limit", 0); ("ioc", 1); ("postOnly", 2); ("market", 3);
              ("postOnlySlide", 4)]%string span.
Definition selfTradeBehaviorLayout (span : nat) :=
  EnumLayout [("decrementTake", 0); ("cancelProvide", 1);
              ("abortTransaction", 2)]%string span.
Definition triggerConditionLayout (span : nat) :=
  EnumLayout [("above", 0); ("below", 1)]%string span.
Definition INFO_LEN : nat := 32.

Definition span_of (f : Field) : nat :=
  match f with
  | UInt n => n
  | BNLayout n _ => n
  | I80F48Layout => 16
  | Bool_ => 1
  | EnumLayout _ n => n
  | SeqUInt n c => n * c
  end.

(** [b.slice(offset, offset + span)] *)
Definition slice (b : Buffer) (offset span : nat) : Buffer :=
  take span (drop offset b).

(** [b.readUIntLE(offset, span)] *)
Definition readUIntLE (b : Buffer) (offset span : nat) : Result Z :=
  if (offset + span <=? length b)%nat
  then Ok (BN.of_le_bytes (slice b offset span))
  else Err OutOfBounds.

Fixpoint decodeSeq (b : Buffer) (offset span count : nat) : Result (list Z) :=
  match count with
  | O => Ok []
  | S count' =>
      let* x := readUIntLE b offset span in
      let* rest := decodeSeq b (offset + span) span count' in
      Ok (x :: rest)
  end.

Definition findEntry (values : list (string * Z)) (v : Z) : Result string :=
  match List.find (fun e => snd e =? v) values with
  | Some e => Ok (fst e)
  | None => Err Invalid
  end.

(** [layout.decode(b, offset)] for each kind of field. *)
Definition decodeField (f : Field) (b : Buffer) (offset : nat) : Result Value :=
  match f with
  | UInt n => let* v := readUIntLE b offset n in Ok (VNum v)
  | BNLayout n signed =>
      let result := BN.of_le_bytes (slice b offset n) in
      Ok (VNum (if signed then BN.fromTwos (8 * Z.of_nat n) result else result))
  | I80F48Layout =>
      let result := BN.of_le_bytes (slice b offset 16) in
      let* x := I80F48.new (BN.fromTwos (8 * 16) result) in Ok (VFixed x)
  | Bool_ => let* v := readUIntLE b offset 1 in Ok (VBool (negb (v =? 0)))
  | EnumLayout values n =>
      let* v := readUIntLE b offset n in
      let* name := findEntry values v in Ok (VName name)
  | SeqUInt n c => let* l := decodeSeq b offset n c in Ok (VArray l)
  end.

Definition Struct : Type := list (string * Field).

(** [Structure.decode]: the fields in order, each at the running offset. *)
Fixpoint decodeStruct (fields : Struct) (b : Buffer) (offset : nat)
  : Result (list (string * Value)) :=
  match fields with
  | [] => Ok []
  | (property, fd) :: rest =>
      let* v := decodeField fd b offset in
      let* dest := decodeStruct rest b (offset + span_of fd) in
      Ok ((property, v) :: dest)
  end.

Definition structSpan (fields : Struct) : nat :=
  foldr (fun pf acc => (span_of (snd pf) + acc)%nat) 0%nat fields.

(** A registered variant: its name and its struct. *)
Definition Variant : Type := (string * Struct)%type.
Definition Registry : Type := list (Z * Variant).

Definition lookupVariant (registry : Registry) (discr : Z) : option Variant :=
  match List.find (fun e => fst e =? discr) registry with
  | Some e => Some (snd e)
  | None => None
  end.

(** The discriminator [u32('instruction')] is a prefix of 4 bytes. *)
Definition discriminatorSpan : nat := 4.

(** [Union.decode(b, offset)] of a union with a prefix discriminator and no
    default layout: the registered variant decodes its struct after the
    discriminator; an unregistered discriminant has no layout to fall back
    on. *)
Definition Union_decode (registry : Registry) (b : Buffer) (offset : nat)
  : Result (string * list (string * Value)) :=
  let* discr := readUIntLE b offset discriminatorSpan in
  match lookupVariant registry discr with
  | None => Err Undefined
  | Some (property, layout) =>
      let* dest := decodeStruct layout b (offset + discriminatorSpan) in
      Ok (property, dest)
  end.

(** [LyraeInstructionsUnion.decode(b, offset)] *)
Definition LyraeInstructionsUnion_decode (registry : Registry)
    (b : Buffer) (offset : nat) : Result (string * list (string * Value)) :=
  let* discr := readUIntLE b offset discriminatorSpan in
  let b' :=
    if ((discr =? 11) && (length b =? 144)%nat)
       || ((discr =? 12) && (length b =? 30)%nat)
    then b ++ [0]
    else if (discr =? 37) && (length b =? 141)%nat
    then b ++ [0; 0]
    else b in
  Union_decode registry b' offset.

(** The zero bytes that [LyraeInstructionsUnion.decode] appends to a buffer
    of the given discriminant and length. *)
Definition legacyPadding (discr : Z) (len : nat) : list Z :=
  if ((discr =? 11) && (len =? 144)%nat) || ((discr =? 12) && (len =? 30)%nat)
  then [0]
  else if (discr =? 37) && (len =? 141)%nat then [0; 0]
  else [].

(** The span of a registered variant: discriminator and struct. *)
Definition variantSpan (registry : Registry) (discr : Z) : option nat :=
  match lookupVariant registry discr with
  | Some (_, layout) => Some (discriminatorSpan + structSpan layout)%nat
  | None => None
  end.

(** Blob.encode into [b] at [offset]: the source must have the blob's
    length and must fit. *)
Definition Blob_encode (span : nat) (src : list Z) (b : Buffer) (offset : nat)
  : Result Buffer :=
  if negb (length src =? span)%nat then Err BadLength
  else if (length b <? offset + span)%nat then Err OutOfBounds
  else Ok (take offset b ++ src ++ drop (offset + span) b).

(** [_I80F48Layout.decode] and [_I80F48Layout.encode] *)
Definition I80F48Layout_decode (b : Buffer) (offset : nat)
  : Result I80F48.I80F48 :=
  let result := BN.of_le_bytes (slice b offset 16) in
  I80F48.new (BN.fromTwos (8 * 16) result).

Definition I80F48Layout_encode (src : I80F48.I80F48) (b : Buffer)
    (offset : nat) : Result Buffer :=
  let* bytes := BN.toArray_le 16 (I80F48.toTwos src) in
  Blob_encode 16 bytes b offset.

(** The variants added to [LyraeInstructionLayout], in the order of the
    [addVariant] calls. *)
Definition LyraeInstructionLayout : Registry :=
  [
    (0, ("InitLyraeGroup",
       [("signerNonce", u64);
        ("validInterval", u64);
        ("quoteOptimalUtil", I80F48Layout);
        ("quoteOptimalRate", I80F48Layout);
        ("quoteMaxRate", I80F48Layout)]));
    (1, ("InitLyraeAccount", []));
    (2, ("Deposit",
       [("quantity", u64)]));
    (3, ("Withdraw",
       [("quantity", u64);
        ("allowBorrow", u8)]));
    (4, ("AddSpotMarket",
       [("maintLeverage", I80F48Layout);
        ("initLeverage", I80F48Layout);
        ("liquidationFee", I80F48Layout);
        ("optimalUtil", I80F48Layout);
        ("optimalRate", I80F48Layout);
        ("maxRate", I80F48Layout)]));
    (5, ("AddToBasket",
       [("marketIndex", u64)]));
    (6, ("Borrow",
       [("quantity", u64)]));
    (7, ("CachePrices", []));
    (8, ("CacheRootBanks", []));
    (9, ("PlaceSpotOrder",
       [("side", sideLayout 4);
        ("limitPrice", u64);
        ("maxBaseQuantity", u64);
        ("maxQuoteQuantity", u64);
        ("selfTradeBehavior", selfTradeBehaviorLayout 4);
        ("orderType", orderTypeLayout 4);
        ("clientId", u64);
        ("limit", u16)]));
    (10, ("AddOracle", []));
    (11, ("AddPerpMarket",
       [("maintLeverage", I80F48Layout);
        ("initLeverage", I80F48Layout);
        ("liquidationFee", I80F48Layout);
        ("makerFee", I80F48Layout);
        ("takerFee", I80F48Layout);
        ("baseLotSize", i64);
        ("quoteLotSize", i64);
        ("rate", I80F48Layout);
        ("maxDepthBps", I80F48Layout);
        ("targetPeriodLength", u64);
        ("lyrPerPeriod", u64);
        ("exp", u8)]));
    (12, ("PlacePerpOrder",
       [("price", i64);
        ("quantity", i64);
        ("clientOrderId", u64);
        ("side", sideLayout 1);
        ("orderType", orderTypeLayout 1);
        ("reduceOnly", Bool_)]));
    (13, ("CancelPerpOrderByClientId",
       [("clientOrderId", u64);
        ("invalidIdOk", Bool_)]));
    (14, ("CancelPerpOrder",
       [("orderId", i128);
        ("invalidIdOk", Bool_)]));
    (15, ("ConsumeEvents",
       [("limit", u64)]));
    (16, ("CachePerpMarkets", []));
    (17, ("UpdateFunding", []));
    (18, ("SetOracle",
       [("price", I80F48Layout)]));
    (19, ("SettleFunds", []));
    (20, ("CancelSpotOrder",
       [("side", sideLayout 4);
        ("orderId", u128)]));
    (21, ("UpdateRootBank", []));
    (22, ("SettlePnl",
       [("marketIndex", u64)]));
    (23, ("SettleBorrow",
       [("tokenIndex", u64);
        ("quantity", u64)]));
    (24, ("ForceCancelSpotOrders",
       [("limit", u8)]));
    (25, ("ForceCancelPerpOrders",
       [("limit", u8)]));
    (26, ("LiquidateTokenAndToken",
       [("maxLiabTransfer", I80F48Layout)]));
    (27, ("LiquidateTokenAndPerp",
       [("assetType", u8);
        ("assetIndex", u64);
        ("liabType", u8);
        ("liabIndex", u64);
        ("maxLiabTransfer", I80F48Layout)]));
    (28, ("LiquidatePerpMarket",
       [("baseTransferRequest", i64)]));
    (29, ("SettleFees", []));
    (30, ("ResolvePerpBankruptcy",
       [("liabIndex", u64);
        ("maxLiabTransfer", I80F48Layout)]));
    (31, ("ResolveTokenBankruptcy",
       [("maxLiabTransfer", I80F48Layout)]));
    (32, ("InitSpotOpenOrders", []));
    (33, ("RedeemLyr", []));
    (34, ("AddLyraeAccountInfo",
       [("info", SeqUInt 1 INFO_LEN)]));
    (35, ("DepositMsrm",
       [("quantity", u64)]));
    (36, ("WithdrawMsrm",
       [("quantity", u64)]));
    (37, ("ChangePerpMarketParams",
       [("maintLeverageOption", Bool_);
        ("maintLeverage", I80F48Layout);
        ("initLeverageOption", Bool_);
        ("initLeverage", I80F48Layout);
        ("liquidationFeeOption", Bool_);
        ("liquidationFee", I80F48Layout);
        ("makerFeeOption", Bool_);
        ("makerFee", I80F48Layout);
        ("takerFeeOption", Bool_);
        ("takerFee", I80F48Layout);
        ("rateOption", Bool_);
        ("rate", I80F48Layout);
        ("maxDepthBpsOption", Bool_);
        ("maxDepthBps", I80F48Layout);
        ("targetPeriodLengthOption", Bool_);
        ("targetPeriodLength", u64);
        ("lyrPerPeriodOption", Bool_);
        ("lyrPerPeriod", u64);
        ("expOption", Bool_);
        ("exp", u8)]));
    (38, ("SetGroupAdmin", []));
    (39, ("CancelAllPerpOrders",
       [("limit", u8)]));
    (41, ("PlaceSpotOrder2",
       [("side", sideLayout 4);
        ("limitPrice", u64);
        ("maxBaseQuantity", u64);
        ("maxQuoteQuantity", u64);
        ("selfTradeBehavior", selfTradeBehaviorLayout 4);
        ("orderType", orderTypeLayout 4);
        ("clientOrderId", u64);
        ("limit", u16)]));
    (42, ("InitAdvancedOrders", []));
    (43, ("AddPerpTriggerOrder",
       [("orderType", orderTypeLayout 1);
        ("side", sideLayout 1);
        ("triggerCondition", triggerConditionLayout 1);
        ("reduceOnly", Bool_);
        ("clientOrderId", u64);
        ("price", i64);
        ("quantity", i64);
        ("triggerPrice", I80F48Layout)]));
    (44, ("RemoveAdvancedOrder",
       [("orderIndex", u8)]));
    (45, ("ExecutePerpTriggerOrder",
       [("orderIndex", u8)]));
    (46, ("CreatePerpMarket",
       [("maintLeverage", I80F48Layout);
        ("initLeverage", I80F48Layout);
        ("liquidationFee", I80F48Layout);
        ("makerFee", I80F48Layout);
        ("takerFee", I80F48Layout);
        ("baseLotSize", i64);
        ("quoteLotSize", i64);
        ("rate", I80F48Layout);
        ("maxDepthBps", I80F48Layout);
        ("targetPeriodLength", u64);
        ("lyrPerPeriod", u64);
        ("exp", u8);
        ("version", u8);
        ("lmSizeShift", u8);
        ("baseDecimals", u8)]));
    (47, ("ChangePerpMarketParams2",
       [("maintLeverageOption", Bool_);
        ("maintLeverage", I80F48Layout);
        ("initLeverageOption", Bool_);
        ("initLeverage", I80F48Layout);
        ("liquidationFeeOption", Bool_);
        ("liquidationFee", I80F48Layout);
        ("makerFeeOption", Bool_);
        ("makerFee", I80F48Layout);
        ("takerFeeOption", Bool_);
        ("takerFee", I80F48Layout);
        ("rateOption", Bool_);
        ("rate", I80F48Layout);
        ("maxDepthBpsOption", Bool_);
        ("maxDepthBps", I80F48Layout);
        ("targetPeriodLengthOption", Bool_);
        ("targetPeriodLength", u64);
        ("lyrPerPeriodOption", Bool_);
        ("lyrPerPeriod", u64);
        ("expOption", Bool_);
        ("exp", u8);
        ("versionOption", Bool_);
        ("version", u8);
        ("lmSizeShiftOption", Bool_);
        ("lmSizeShift", u8)]));
    (48, ("UpdateMarginBasket", []));
    (49, ("ChangeMaxLyraeAccounts",
       [("maxLyraeAccounts", u32)]));
    (50, ("CloseLyraeAccount", []));
    (51, ("CloseSpotOpenOrders", []));
    (52, ("CloseAdvancedOrders", []));
    (53, ("CreateDustAccount", []));
    (54, ("ResolveDust", []));
    (55, ("CreateAccount",
       [("accountNum", u64)]));
    (56, ("UpgradeLyraeAccountV0V1", []));
    (57, ("CancelPerpOrdersSide",
       [("side", sideLayout 1);
        ("limit", u8)]));
    (58, ("SetDelegate", []));
    (59, ("ChangeSpotMarketParams",
       [("maintLeverageOption", Bool_);
        ("maintLeverage", I80F48Layout);
        ("initLeverageOption", Bool_);
        ("initLeverage", I80F48Layout);
        ("liquidationFeeOption", Bool_);
        ("liquidationFee", I80F48Layout);
        ("optimalUtilOption", Bool_);
        ("optimalUtil", I80F48Layout);
        ("optimalRateOption", Bool_);
        ("optimalRate", I80F48Layout);
        ("maxRateOption", Bool_);
        ("maxRate", I80F48Layout);
        ("versionOption", Bool_);
        ("version", u8)]));
    (60, ("CreateSpotOpenOrders", []))
  ]%string.

End Layout.

(* ===================================================================== *)
(** ** Entities of src/layout.ts and LyraeGroup.ts

    The records are generic in the type [num] of their fixed-point fields: a
    value ([I80F48.I80F48]) for the health engine on values, a reference into
    the store where objects are shared and mutated in place. *)

Module Entities.

(** A 32-byte public key, as the 256-bit number it spells. *)
Definition PublicKey : Type := Z.
Definition zeroKey : PublicKey := 0.
Definition PublicKey_equals (a b : PublicKey) : bool := a =? b.

Definition MAX_TOKENS : nat := 16.
Definition MAX_PAIRS : nat := (MAX_TOKENS - 1)%nat.
Definition QUOTE_INDEX : nat := (MAX_TOKENS - 1)%nat.

Inductive HealthType : Type := Init | Maint.

Section WithNum.
Variable num : Type.

Record SpotMarketInfo : Type := {
  spotMarket : PublicKey;
  spot_maintAssetWeight : num;
  spot_initAssetWeight : num;
  spot_maintLiabWeight : num;
  spot_initLiabWeight : num;
  spot_liquidationFee : num
}.

Record PerpMarketInfo : Type := {
  perpMarket : PublicKey;
  perp_maintAssetWeight : num;
  perp_initAssetWeight : num;
  perp_maintLiabWeight : num;
  perp_initLiabWeight : num;
  perp_liquidationFee : num;
  makerFee : num;
  takerFee : num;
  baseLotSize : Z;
  quoteLotSize : Z
}.

Record PriceCache : Type := { price : num; price_lastUpdate : Z }.

Record RootBankCache : Type := {
  depositIndex : num;
  borrowIndex : num;
  bank_lastUpdate : Z
}.

Record PerpMarketCache : Type := {
  longFunding : num;
  shortFunding : num;
  funding_lastUpdate : Z
}.

Record LyraeCache : Type := {
  priceCache : list PriceCache;
  rootBankCache : list RootBankCache;
  perpMarketCache : list PerpMarketCache
}.

Record LyraeGroup : Type := {
  numOracles : nat;
  spotMarkets : list SpotMarketInfo;
  perpMarkets : list PerpMarketInfo
}.

Record Weights : Type := {
  spotAssetWeight : num;
  spotLiabWeight : num;
  perpAssetWeight : num;
  perpLiabWeight : num
}.

(** The object [ONE_I80F48]. *)
Variable ONE : num.

(** utils.ts, [getWeights(lyraeGroup, marketIndex, healthType)] *)
Definition getWeights (lyraeGroup : LyraeGroup) (marketIndex : nat)
    (healthType : option HealthType) : Result Weights :=
  match healthType with
  | Some Maint =>
      let* s := at_index (spotMarkets lyraeGroup) marketIndex in
      let* p := at_index (perpMarkets lyraeGroup) marketIndex in
      Ok {| spotAssetWeight := spot_maintAssetWeight s;
            spotLiabWeight := spot_maintLiabWeight s;
            perpAssetWeight := perp_maintAssetWeight p;
            perpLiabWeight := perp_maintLiabWeight p |}
  | Some Init =>
      let* s := at_index (spotMarkets lyraeGroup) marketIndex in
      let* p := at_index (perpMarkets lyraeGroup) marketIndex in
      Ok {| spotAssetWeight := spot_initAssetWeight s;
            spotLiabWeight := spot_initLiabWeight s;
            perpAssetWeight := perp_initAssetWeight p;
            perpLiabWeight := perp_initLiabWeight p |}
  | None =>
      Ok {| spotAssetWeight := ONE; spotLiabWeight := ONE;
            perpAssetWeight := ONE; perpLiabWeight := ONE |}
  end.

End WithNum.

Arguments spotMarket {num}.
Arguments spot_maintAssetWeight {num}.
Arguments spot_initAssetWeight {num}.
Arguments spot_maintLiabWeight {num}.
Arguments spot_initLiabWeight {num}.
Arguments spot_liquidationFee {num}.
Arguments perpMarket {num}.
Arguments perp_maintAssetWeight {num}.
Arguments perp_initAssetWeight {num}.
Arguments perp_maintLiabWeight {num}.
Arguments perp_initLiabWeight {num}.
Arguments perp_liquidationFee {num}.
Arguments makerFee {num}.
Arguments takerFee {num}.
Arguments baseLotSize {num}.
Arguments quoteLotSize {num}.
Arguments price {num}.
Arguments price_lastUpdate {num}.
Arguments depositIndex {num}.
Arguments borrowIndex {num}.
Arguments bank_lastUpdate {num}.
Arguments longFunding {num}.
Arguments shortFunding {num}.
Arguments funding_lastUpdate {num}.
Arguments priceCache {num}.
Arguments rootBankCache {num}.
Arguments perpMarketCache {num}.
Arguments numOracles {num}.
Arguments spotMarkets {num}.
Arguments perpMarkets {num}.
Arguments spotAssetWeight {num}.
Arguments spotLiabWeight {num}.
Arguments perpAssetWeight {num}.
Arguments perpLiabWeight {num}.
Arguments getWeights {num}.

(** A [for (let i = 0; i < n; i++)] loop whose body may throw. *)
Fixpoint foldM {S : Type} (body : nat -> S -> Result S) (l : list nat) (s : S)
  : Result S :=
  match l with
  | [] => Ok s
  | i :: rest => let* s' := body i s in foldM body rest s'
  end.

Definition forLoop {S : Type} (n : nat) (body : nat -> S -> Result S) (s : S)
  : Result S :=
  foldM body (seq 0 n) s.

(** A property read on a value that may be [undefined]. *)
Definition prop {A B} (o : option A) (f : A -> B) : Result B :=
  match o with
  | Some a => Ok (f a)
  | None => Err Undefined
  end.

End Entities.

(* ===================================================================== *)
(** ** LyraeAccount.ts: the health engine, on values *)

Module Health.
Import I80F48 Entities.

(** The fields of the venue's [OpenOrders] account that are read. *)
Record OpenOrders : Type := {
  baseTokenFree : Z;
  baseTokenTotal : Z;
  quoteTokenFree : Z;
  quoteTokenTotal : Z;
  referrerRebatesAccrued : Z
}.

(** [PerpAccountLayout] *)
Record PerpAccount : Type := {
  basePosition : Z;
  quotePosition : I80F48;
  longSettledFunding : I80F48;
  shortSettledFunding : I80F48;
  bidsQuantity : Z;
  asksQuantity : Z;
  takerBase : Z;
  takerQuote : Z;
  lyrAccrued : Z
}.

Record LyraeAccount : Type := {
  publicKey : PublicKey;
  inMarginBasket : list bool;
  deposits : list I80F48;
  borrows : list I80F48;
  spotOpenOrdersAccounts : list (option OpenOrders);
  perpAccounts : list PerpAccount;
  beingLiquidated : bool;
  isBankrupt : bool
}.

Record SplitOpenOrders : Type := {
  quoteFree : I80F48;
  quoteLocked : I80F48;
  baseFree : I80F48;
  baseLocked : I80F48
}.

(** utils.ts, [splitOpenOrders(openOrders)] *)
Definition splitOpenOrders (openOrders : OpenOrders) : Result SplitOpenOrders :=
  let* quoteFree :=
    fromU64 (quoteTokenFree openOrders + referrerRebatesAccrued openOrders) in
  let* quoteLocked :=
    fromU64 (quoteTokenTotal openOrders - quoteTokenFree openOrders) in
  let* baseFree := fromU64 (baseTokenFree openOrders) in
  let* baseLocked :=
    fromU64 (baseTokenTotal openOrders - baseTokenFree openOrders) in
  Ok {| quoteFree := quoteFree; quoteLocked := quoteLocked;
        baseFree := baseFree; baseLocked := baseLocked |}.

(** [LyraeAccount.getNet(bankCache, tokenIndex)] *)
Definition getNet (this : LyraeAccount) (bankCache : option (RootBankCache I80F48))
    (tokenIndex : nat) : Result I80F48 :=
  let* d := at_index (deposits this) tokenIndex in
  let* di := prop bankCache depositIndex in
  let* a := mul d di in
  let* b := at_index (borrows this) tokenIndex in
  let* bi := prop bankCache borrowIndex in
  let* c := mul b bi in
  sub a c.

(** The three results of [getHealthComponents]. *)
Record Components : Type := {
  spot : list I80F48;
  perps : list I80F48;
  quote : I80F48
}.

Section Engine.

(** [PerpAccount.getQuotePosition(perpMarketCache)], the quote position of a
    perp account against the cached funding, is a parameter of the engine. *)
Variable getQuotePosition :
  PerpAccount -> option (PerpMarketCache I80F48) -> Result I80F48.

(** Spot part of the loop body of [getHealthComponents]: the value stored
    in [spot[i]] and the quote bucket after it. *)
Definition spotComponent (this : LyraeAccount) (lyraeCache : LyraeCache I80F48)
    (i : nat) (quote : I80F48) : Result (I80F48 * I80F48) :=
  let bankCache := rootBankCache lyraeCache !! i in
  let* pc := at_index (priceCache lyraeCache) i in
  let price := price pc in
  let* baseNet := getNet this bankCache i in
  match inMarginBasket this !! i, mjoin (spotOpenOrdersAccounts this !! i) with
  | Some true, Some openOrders =>
      let* oo := splitOpenOrders openOrders in
      let* t := div (quoteLocked oo) price in
      let* b0 := add baseNet t in
      let bidsBaseNet := iadd (iadd b0 (baseFree oo)) (baseLocked oo) in
      let* asksBaseNet := add baseNet (baseFree oo) in
      let* ab := abs bidsBaseNet in
      let* aa := abs asksBaseNet in
      if gt ab aa then
        Ok (bidsBaseNet, iadd quote (quoteFree oo))
      else
        let* m := mul (baseLocked oo) price in
        Ok (asksBaseNet,
            iadd (iadd (iadd quote m) (quoteFree oo)) (quoteLocked oo))
  | _, _ => Ok (baseNet, quote)
  end.

(** Perp part of the loop body: the value stored in [perps[i]] and the
    quote bucket after it. *)
Definition perpComponent (this : LyraeAccount) (lyraeGroup : LyraeGroup I80F48)
    (lyraeCache : LyraeCache I80F48) (i : nat) (quote : I80F48)
  : Result (I80F48 * I80F48) :=
  let* pc := at_index (priceCache lyraeCache) i in
  let price := price pc in
  let* pm := at_index (perpMarkets lyraeGroup) i in
  if negb (PublicKey_equals (perpMarket pm) zeroKey) then
    let perpMarketCache := perpMarketCache lyraeCache !! i in
    let* perpAccount := at_index (perpAccounts this) i in
    let* takerQuote := fromI64 (takerQuote perpAccount * quoteLotSize pm) in
    let* basePos :=
      fromI64 ((basePosition perpAccount + takerBase perpAccount)
               * baseLotSize pm) in
    let* bidsQuantity := fromI64 (bidsQuantity perpAccount * baseLotSize pm) in
    let* asksQuantity := fromI64 (asksQuantity perpAccount * baseLotSize pm) in
    let* bidsBaseNet := add basePos bidsQuantity in
    let* asksBaseNet := sub basePos asksQuantity in
    let* ab := abs bidsBaseNet in
    let* aa := abs asksBaseNet in
    if gt ab aa then
      let* qp := getQuotePosition perpAccount perpMarketCache in
      let* q1 := add qp takerQuote in
      let* m := mul bidsQuantity price in
      let quotePos := isub q1 m in
      Ok (bidsBaseNet, iadd quote quotePos)
    else
      let* qp := getQuotePosition perpAccount perpMarketCache in
      let* q1 := add qp takerQuote in
      let* m := mul asksQuantity price in
      let quotePos := iadd q1 m in
      Ok (asksBaseNet, iadd quote quotePos)
  else Ok (ZERO_I80F48, quote).

(** One iteration of the loop of [getHealthComponents]. *)
Definition componentsStep (this : LyraeAccount) (lyraeGroup : LyraeGroup I80F48)
    (lyraeCache : LyraeCache I80F48) (i : nat) (c : Components)
  : Result Components :=
  let* (s, q1) := spotComponent this lyraeCache i (quote c) in
  let* (p, q2) := perpComponent this lyraeGroup lyraeCache i q1 in
  Ok {| spot := <[i := s]> (spot c);
        perps := <[i := p]> (perps c);
        quote := q2 |}.

(** [LyraeAccount.getHealthComponents(lyraeGroup, lyraeCache)] *)
Definition getHealthComponents (this : LyraeAccount)
    (lyraeGroup : LyraeGroup I80F48) (lyraeCache : LyraeCache I80F48)
  : Result Components :=
  let n := numOracles lyraeGroup in
  let* quote :=
    getNet this (rootBankCache lyraeCache !! QUOTE_INDEX) QUOTE_INDEX in
  forLoop n (componentsStep this lyraeGroup lyraeCache)
    {| spot := replicate n ZERO_I80F48;
       perps := replicate n ZERO_I80F48;
       quote := quote |}.

(** [LyraeAccount.getWeightedAssetsLiabsVals]: the pair (assets, liabs). *)
Definition weightedStep (lyraeGroup : LyraeGroup I80F48)
    (lyraeCache : LyraeCache I80F48) (spot perps : list I80F48)
    (healthType : option HealthType) (i : nat) (al : I80F48 * I80F48)
  : Result (I80F48 * I80F48) :=
  let '(assets, liabs) := al in
  let* w := getWeights ONE_I80F48 lyraeGroup i healthType in
  let* pc := at_index (priceCache lyraeCache) i in
  let price := price pc in
  let* s := at_index spot i in
  let* (assets, liabs) :=
    if isPos s then
      let* t := mul s price in
      let* u := mul t (spotAssetWeight w) in
      let* a := add u assets in Ok (a, liabs)
    else
      let* n := neg s in
      let* t := mul n price in
      let* u := mul t (spotLiabWeight w) in
      let* l := add u liabs in Ok (assets, l) in
  let* p := at_index perps i in
  if isPos p then
    let* t := mul p price in
    let* u := mul t (perpAssetWeight w) in
    let* a := add u assets in Ok (a, liabs)
  else
    let* n := neg p in
    let* t := mul n price in
    let* u := mul t (perpLiabWeight w) in
    let* l := add u liabs in Ok (assets, l).

Definition getWeightedAssetsLiabsVals (lyraeGroup : LyraeGroup I80F48)
    (lyraeCache : LyraeCache I80F48) (spot perps : list I80F48)
    (quote : I80F48) (healthType : option HealthType)
  : Result (I80F48 * I80F48) :=
  let* al :=
    if isPos quote then
      let* a := add ZERO_I80F48 quote in Ok (a, ZERO_I80F48)
    else
      let* n := neg quote in
      let* l := add ZERO_I80F48 n in Ok (ZERO_I80F48, l) in
  forLoop (numOracles lyraeGroup)
    (weightedStep lyraeGroup lyraeCache spot perps healthType) al.

(** [LyraeAccount.getHealthFromComponents]: [health] is the object
    [quote], updated in place. *)
Definition healthStep (lyraeGroup : LyraeGroup I80F48)
    (lyraeCache : LyraeCache I80F48) (spot perps : list I80F48)
    (healthType : HealthType) (i : nat) (health : I80F48) : Result I80F48 :=
  let* w := getWeights ONE_I80F48 lyraeGroup i (Some healthType) in
  let* pc := at_index (priceCache lyraeCache) i in
  let price := price pc in
  let* s := at_index spot i in
  let* t := mul s price in
  let spotHealth :=
    imul t (if isPos s then spotAssetWeight w else spotLiabWeight w) in
  let* p := at_index perps i in
  let* u := mul p price in
  let perpHealth :=
    imul u (if isPos p then perpAssetWeight w else perpLiabWeight w) in
  Ok (iadd (iadd health spotHealth) perpHealth).

Definition getHealthFromComponents (lyraeGroup : LyraeGroup I80F48)
    (lyraeCache : LyraeCache I80F48) (spot perps : list I80F48)
    (quote : I80F48) (healthType : HealthType) : Result I80F48 :=
  forLoop (numOracles lyraeGroup)
    (healthStep lyraeGroup lyraeCache spot perps healthType) quote.

(** [LyraeAccount.getHealth] *)
Definition getHealth (this : LyraeAccount) (lyraeGroup : LyraeGroup I80F48)
    (lyraeCache : LyraeCache I80F48) (healthType : HealthType)
  : Result I80F48 :=
  let* c := getHealthComponents this lyraeGroup lyraeCache in
  getHealthFromComponents lyraeGroup lyraeCache
    (spot c) (perps c) (quote c) healthType.

(** [LyraeAccount.getHealthRatio] *)
Definition getHealthRatio (this : LyraeAccount) (lyraeGroup : LyraeGroup I80F48)
    (lyraeCache : LyraeCache I80F48) (healthType : HealthType)
  : Result I80F48 :=
  let* c := getHealthComponents this lyraeGroup lyraeCache in
  let* (assets, liabs) :=
    getWeightedAssetsLiabsVals lyraeGroup lyraeCache
      (spot c) (perps c) (quote c) (Some healthType) in
  if gt liabs ZERO_I80F48 then
    let* r := div assets liabs in
    let* d := sub r ONE_I80F48 in
    let* h := fromNumber 100 in
    mul d h
  else fromNumber 100.

Inductive MarketType : Type := Spot | Perp.

(** [LyraeAccount.getMarketMarginAvailable] *)
Definition getMarketMarginAvailable (this : LyraeAccount)
    (lyraeGroup : LyraeGroup I80F48) (lyraeCache : LyraeCache I80F48)
    (marketIndex : nat) (marketType : MarketType) : Result I80F48 :=
  let* health := getHealth this lyraeGroup lyraeCache Init in
  if lte health ZERO_I80F48 then Ok ZERO_I80F48
  else
    let* w := getWeights ONE_I80F48 lyraeGroup marketIndex (Some Init) in
    let weight :=
      match marketType with
      | Spot => spotAssetWeight w
      | Perp => perpAssetWeight w
      end in
    if gte weight ONE_I80F48 then Ok health
    else
      let* d := sub ONE_I80F48 weight in
      div health d.

End Engine.

(** Snapshots whose cached prices and liability weights are not negative,
    as oracle prices and the weights of a listed market are. *)
Definition NonNegative (lyraeGroup : LyraeGroup I80F48)
    (lyraeCache : LyraeCache I80F48) : Prop :=
  Forall (fun pc => 0 <= price pc) (priceCache lyraeCache) /\
  Forall (fun m => 0 <= spot_maintLiabWeight m /\ 0 <= spot_initLiabWeight m)
    (spotMarkets lyraeGroup) /\
  Forall (fun m => 0 <= perp_maintLiabWeight m /\ 0 <= perp_initLiabWeight m)
    (perpMarkets lyraeGroup).

(** [LyraeCache.getPrice(tokenIndex)] *)
Definition LyraeCache_getPrice (this : LyraeCache I80F48) (tokenIndex : nat)
  : Result I80F48 :=
  if (tokenIndex =? QUOTE_INDEX)%nat then Ok ONE_I80F48
  else let* pc := at_index (priceCache this) tokenIndex in Ok (price pc).

End Health.

(* ===================================================================== *)
(** ** LyraeAccount.ts: [getHealthsFromComponents] on a store of objects

    Every [I80F48] object is a cell of the store that holds its [data]; a
    reference is the index of the cell.  [mul] allocates a new object, [imul]
    and [iadd] write the receiver's cell and return the receiver.  The module
    constants are objects too. *)

Module Heap.
Import Entities.

Abbreviation Ref := nat (only parsing).
Abbreviation Store := (list Z) (only parsing).

(** A computation that reads and writes the store and may throw. *)
Definition M (A : Type) : Type := Store -> Result (A * Store).

Definition ret {A} (a : A) : M A := fun h => Ok (a, h).

Definition bindM {A B} (m : M A) (k : A -> M B) : M B :=
  fun h =>
    match m h with
    | Ok (a, h') => k a h'
    | Err e => Err e
    end.

Definition lift {A} (r : Result A) : M A :=
  fun h =>
    match r with
    | Ok a => Ok (a, h)
    | Err e => Err e
    end.

Declare Scope store_scope.
Delimit Scope store_scope with store.
Notation "'let!' x ':=' m 'in' k" := (bindM m (fun x => k))
  (at level 10, x pattern, m at level 100, k at level 200) : store_scope.
#[local] Open Scope store_scope.

(** [x.data] *)
Definition getData (x : Ref) : M Z :=
  fun h =>
    match h !! x with
    | Some d => Ok (d, h)
    | None => Err Undefined
    end.

(** An assignment to [x.data], or an in-place update of it. *)
Definition setData (x : Ref) (d : Z) : M unit :=
  fun h => Ok (tt, <[x := d]> h).

(** [new I80F48(data)] *)
Definition new (data : Z) : M Ref :=
  fun h =>
    if (data <? I80F48.MIN_BN) || (data >? I80F48.MAX_BN) then Err OutOfRange
    else Ok (length h, h ++ [data]).

(** The objects [ZERO_I80F48], [ONE_I80F48] and [NEG_ONE_I80F48], created
    when the module is loaded. *)
Definition ZERO_I80F48 : Ref := 0%nat.
Definition ONE_I80F48 : Ref := 1%nat.
Definition NEG_ONE_I80F48 : Ref := 2%nat.
Definition initialStore : Store :=
  [I80F48.ZERO_I80F48; I80F48.ONE_I80F48; I80F48.NEG_ONE_I80F48].

Definition mul (this x : Ref) : M Ref :=
  let! a := getData this in
  let! b := getData x in
  new (BN.ushrn (a * b) I80F48.FRACTIONS).

Definition imul (this x : Ref) : M Ref :=
  let! a := getData this in
  let! b := getData x in
  let! _ := setData this (BN.ushrn (a * b) I80F48.FRACTIONS) in
  ret this.

Definition iadd (this x : Ref) : M Ref :=
  let! a := getData this in
  let! b := getData x in
  let! _ := setData this (a + b) in
  ret this.

Definition gt (this x : Ref) : M bool :=
  let! a := getData this in
  let! b := getData x in
  ret (a >? b).

Definition isPos (this : Ref) : M bool := gt this ZERO_I80F48.

Fixpoint foldM_ (body : nat -> M unit) (l : list nat) : M unit :=
  match l with
  | [] => ret tt
  | i :: rest => let! _ := body i in foldM_ body rest
  end.

Record Healths : Type := { spot : Ref; perp : Ref }.

(** [x.mul(price).imul(x.isPos() ? assetWeight : liabWeight)] *)
Definition weighted (x price assetWeight liabWeight : Ref) : M Ref :=
  let! t := mul x price in
  let! pos := isPos x in
  imul t (if pos then assetWeight else liabWeight).

(** The loop body of [getHealthsFromComponents]. *)
Definition healthsStep (lyraeGroup : LyraeGroup Ref) (lyraeCache : LyraeCache Ref)
    (spot perps : list Ref) (healthType : HealthType)
    (spotHealth perpHealth : Ref) (i : nat) : M unit :=
  let! w := lift (getWeights ONE_I80F48 lyraeGroup i (Some healthType)) in
  let! pc := lift (at_index (priceCache lyraeCache) i) in
  let price := price pc in
  let! s := lift (at_index spot i) in
  let! _spotHealth := weighted s price (spotAssetWeight w) (spotLiabWeight w) in
  let! p := lift (at_index perps i) in
  let! _perpHealth := weighted p price (perpAssetWeight w) (perpLiabWeight w) in
  let! _ := iadd spotHealth _spotHealth in
  let! _ := iadd perpHealth _perpHealth in
  ret tt.

(** [LyraeAccount.getHealthsFromComponents] *)
Definition getHealthsFromComponents (lyraeGroup : LyraeGroup Ref)
    (lyraeCache : LyraeCache Ref) (spot perps : list Ref) (quote : Ref)
    (healthType : HealthType) : M Healths :=
  let spotHealth := quote in
  let perpHealth := quote in
  let! _ :=
    foldM_ (healthsStep lyraeGroup lyraeCache spot perps healthType
              spotHealth perpHealth)
      (seq 0 (numOracles lyraeGroup)) in
  ret {| spot := spotHealth; perp := perpHealth |}.

(** What one market adds to an accumulator, read off a store: the weighted
    value of a component. *)
Definition weightedValue (h : Store) (x price assetWeight liabWeight : Ref)
  : option Z :=
  a ← h !! x;
  p ← h !! price;
  wa ← h !! assetWeight;
  wl ← h !! liabWeight;
  z ← h !! ZERO_I80F48;
  let t := BN.ushrn (a * p) I80F48.FRACTIONS in
  if (t <? I80F48.MIN_BN) || (t >? I80F48.MAX_BN) then None
  else Some (BN.ushrn (t * (if a >? z then wa else wl)) I80F48.FRACTIONS).

(** The references a run of the loop reads. *)
Record MarketRefs : Type := {
  m_spot : Ref; m_perp : Ref; m_price : Ref;
  m_spotAsset : Ref; m_spotLiab : Ref; m_perpAsset : Ref; m_perpLiab : Ref
}.

Definition marketRefs (lyraeGroup : LyraeGroup Ref) (lyraeCache : LyraeCache Ref)
    (spot perps : list Ref) (healthType : HealthType) (i : nat)
  : Result MarketRefs :=
  let* w := getWeights ONE_I80F48 lyraeGroup i (Some healthType) in
  let* pc := at_index (priceCache lyraeCache) i in
  let* s := at_index spot i in
  let* p := at_index perps i in
  Ok {| m_spot := s; m_perp := p; m_price := price pc;
        m_spotAsset := spotAssetWeight w; m_spotLiab := spotLiabWeight w;
        m_perpAsset := perpAssetWeight w; m_perpLiab := perpLiabWeight w |}.

Definition refsOf (m : MarketRefs) : list Ref :=
  [m_spot m; m_perp m; m_price m; m_spotAsset m; m_spotLiab m;
   m_perpAsset m; m_perpLiab m; ZERO_I80F48].

(** The weighted spot and perp contributions of market [i] in store [h]. *)
Definition contributions (h : Store) (m : MarketRefs) : option (Z * Z) :=
  s ← weightedValue h (m_spot m) (m_price m) (m_spotAsset m) (m_spotLiab m);
  p ← weightedValue h (m_perp m) (m_price m) (m_perpAsset m) (m_perpLiab m);
  Some (s, p).

(** The accumulator after the markets of [l], when every contribution is
    read off the store [h]: [acc] plus the spot and the perp contribution of
    each market. *)
Fixpoint accumulated (h : Store) (lyraeGroup : LyraeGroup Ref)
    (lyraeCache : LyraeCache Ref) (spot perps : list Ref)
    (healthType : HealthType) (l : list nat) (acc : Z) : option Z :=
  match l with
  | [] => Some acc
  | i :: rest =>
      match marketRefs lyraeGroup lyraeCache spot perps healthType i with
      | Ok m =>
          c ← contributions h m;
          accumulated h lyraeGroup lyraeCache spot perps healthType rest
            (acc + fst c + snd c)
      | Err _ => None
      end
  end.

(** The store [h] extends [h0] and agrees with it except at [quote]. *)
Definition Extends (quote : Ref) (h0 h : Store) : Prop :=
  (length h0 <= length h)%nat /\
  forall r d, h0 !! r = Some d -> r <> quote -> h !! r = Some d.

(** The object [quote] is none of the objects the loop reads. *)
Definition NotRead (quote : Ref) (lyraeGroup : LyraeGroup Ref)
    (lyraeCache : LyraeCache Ref) (spot perps : list Ref)
    (healthType : HealthType) : Prop :=
  forall i m,
    marketRefs lyraeGroup lyraeCache spot perps healthType i = Ok m ->
    quote ∉ refsOf m.

End Heap.

(* ===================================================================== *)
(** ** client.ts: the matching loop of [LyraeClient.settlePnl] *)

Module Settle.
Import I80F48 Entities.

Record AccountWithPnl : Type := { publicKey : PublicKey; pnl : I80F48 }.

(** The instructions added to the transaction. *)
Inductive Instruction : Type :=
| SettleFees
| SettlePnl (counterparty : PublicKey).

(** [for (const account of accountsWithPnl) { ... }]: the remaining PnL and
    the instructions of the transaction when the loop is left. *)
Fixpoint settleLoop (self : PublicKey) (sign : Z)
    (accountsWithPnl : list AccountWithPnl) (pnl : I80F48)
    (instructions : list Instruction) : Result (I80F48 * list Instruction) :=
  match accountsWithPnl with
  | [] => Ok (pnl, instructions)
  | account :: rest =>
      if PublicKey_equals (account.(publicKey)) self then
        settleLoop self sign rest pnl instructions
      else if ((isPos pnl && isNeg (account.(Settle.pnl)))
               || (isNeg pnl && isPos (account.(Settle.pnl))))
              && (length instructions <? 10)%nat then
        let instructions := instructions ++ [SettlePnl (account.(publicKey))] in
        let* pnl := add pnl (account.(Settle.pnl)) in
        let remSign := if gt pnl ZERO_I80F48 then 1 else -1 in
        if negb (remSign =? sign) then Ok (pnl, instructions)
        else settleLoop self sign rest pnl instructions
      else settleLoop self sign rest pnl instructions
  end.

(** The sum of the PnL of a list of counterparties. *)
Definition sumPnl (l : list AccountWithPnl) : Z :=
  foldr (fun a acc => a.(Settle.pnl) + acc) 0 l.

(** The instructions that settle against a list of counterparties. *)
Definition settleInstructions (l : list AccountWithPnl) : list Instruction :=
  (fun a => SettlePnl (a.(publicKey))) <$> l.

(** A candidate that the loop can match for a subject whose remaining PnL
    has the sign [sign]: an account other than the subject, whose PnL has
    the opposite sign. *)
Definition opposite (self : PublicKey) (sign : Z) (a : AccountWithPnl) : bool :=
  negb (PublicKey_equals (a.(publicKey)) self) && (sign * a.(Settle.pnl) <? 0).

End Settle.

(* ===================================================================== *)
(** ** Sample snapshots

    One token with a spot market and no perp market, priced at 10 quote
    units; deposit and borrow indexes of 1. *)

Module Examples.
Import Entities Health.

(** The whole number [n] as a fixed-point value. *)
Definition whole (n : Z) : Z := n * 2 ^ 48.

Definition bank : RootBankCache Z :=
  {| depositIndex := whole 1; borrowIndex := whole 1; bank_lastUpdate := 0 |}.

Definition cache : LyraeCache Z :=
  {| priceCache := [ {| price := whole 10; price_lastUpdate := 0 |} ];
     rootBankCache := replicate 16 bank;
     perpMarketCache :=
       [ {| longFunding := 0; shortFunding := 0; funding_lastUpdate := 0 |} ] |}.

(** Asset weights 3/4 (Maint) and 1/2 (Init), liability weights 5/4 and
    3/2. *)
Definition group : LyraeGroup Z :=
  {| numOracles := 1;
     spotMarkets :=
       [ {| spotMarket := 7;
            spot_maintAssetWeight := 3 * 2 ^ 46;
            spot_initAssetWeight := 2 ^ 47;
            spot_maintLiabWeight := 5 * 2 ^ 46;
            spot_initLiabWeight := 3 * 2 ^ 47;
            spot_liquidationFee := 0 |} ];
     perpMarkets :=
       [ {| perpMarket := zeroKey;
            perp_maintAssetWeight := 3 * 2 ^ 46;
            perp_initAssetWeight := 2 ^ 47;
            perp_maintLiabWeight := 5 * 2 ^ 46;
            perp_initLiabWeight := 3 * 2 ^ 47;
            perp_liquidationFee := 0;
            makerFee := 0; takerFee := 0;
            baseLotSize := 1; quoteLotSize := 1 |} ] |}.

Definition noPerp : PerpAccount :=
  {| basePosition := 0; quotePosition := 0; longSettledFunding := 0;
     shortSettledFunding := 0; bidsQuantity := 0; asksQuantity := 0;
     takerBase := 0; takerQuote := 0; lyrAccrued := 0 |}.

(** Resting orders: 1 base free and 2 locked, 5 quote free and 20 locked. *)
Definition orders : OpenOrders :=
  {| baseTokenFree := 1; baseTokenTotal := 3;
     quoteTokenFree := 5; quoteTokenTotal := 25;
     referrerRebatesAccrued := 0 |}.

(** 2 base and 1000 quote deposited, resting orders on the market. *)
Definition trader : LyraeAccount :=
  {| publicKey := 1;
     inMarginBasket := [true];
     deposits := <[0%nat := whole 2]> (<[15%nat := whole 1000]> (replicate 16 0));
     borrows := replicate 16 0;
     spotOpenOrdersAccounts := [Some orders];
     perpAccounts := [noPerp];
     beingLiquidated := false;
     isBankrupt := false |}.

(** 100 quote deposited, 20 base borrowed. *)
Definition borrower : LyraeAccount :=
  {| publicKey := 2;
     inMarginBasket := [false];
     deposits := <[15%nat := whole 100]> (replicate 16 0);
     borrows := <[0%nat := whole 20]> (replicate 16 0);
     spotOpenOrdersAccounts := [None];
     perpAccounts := [noPerp];
     beingLiquidated := false;
     isBankrupt := false |}.

Definition storedQuotePosition (pa : PerpAccount)
    (c : option (PerpMarketCache Z)) : Result Z :=
  Ok (quotePosition pa).

(** An [AddPerpMarket] instruction of the legacy length: discriminant 11
    and 140 more bytes. *)
Definition legacyAddPerpMarket : Layout.Buffer := [11; 0; 0; 0] ++ replicate 140 0.

(** A [PlacePerpOrder] instruction of the legacy length 30: price 5,
    quantity 2, client id 9, side sell, order type ioc. *)
Definition legacyPlacePerpOrder : Layout.Buffer :=
  [12; 0; 0; 0] ++ [5; 0; 0; 0; 0; 0; 0; 0] ++ [2; 0; 0; 0; 0; 0; 0; 0]
  ++ [9; 0; 0; 0; 0; 0; 0; 0] ++ [1; 1].

(** A store with the three module constants, then the price 10, the
    weights 1/2 and 3/2, a spot component of 7, a perp component of 3 and a
    quote of 1005. *)
Definition store : Heap.Store :=
  Heap.initialStore
  ++ [whole 10; 2 ^ 47; 3 * 2 ^ 47; whole 7; whole 3; whole 1005].

Definition groupRefs : LyraeGroup Heap.Ref :=
  {| numOracles := 1;
     spotMarkets :=
       [ {| spotMarket := 7;
            spot_maintAssetWeight := 4%nat; spot_initAssetWeight := 4%nat;
            spot_maintLiabWeight := 5%nat; spot_initLiabWeight := 5%nat;
            spot_liquidationFee := 0%nat |} ];
     perpMarkets :=
       [ {| perpMarket := 8;
            perp_maintAssetWeight := 4%nat; perp_initAssetWeight := 4%nat;
            perp_maintLiabWeight := 5%nat; perp_initLiabWeight := 5%nat;
            perp_liquidationFee := 0%nat;
            makerFee := 0%nat; takerFee := 0%nat;
            baseLotSize := 1; quoteLotSize := 1 |} ] |}.

Definition cacheRefs : LyraeCache Heap.Ref :=
  {| priceCache := [ {| price := 3%nat; price_lastUpdate := 0 |} ];
     rootBankCache := [];
     perpMarketCache := [] |}.

End Examples.

(* ===================================================================== *)
(** ** src/layout.ts: the scalar layouts, both directions *)

Module Codec.
Import Layout.

(** [UInt.encode]: [b.writeUIntLE(src, offset, span)], which throws its range
    error for a value that does not fit in [span] bytes, then for a write past
    the end of the buffer. *)
Definition UInt_encode (span : nat) (src : Z) (b : Buffer) (offset : nat)
  : Result Buffer :=
  if (src <? 0) || (256 ^ Z.of_nat span <=? src) then Err OutOfBounds
  else if (length b <? offset + span)%nat then Err OutOfBounds
  else Ok (take offset b ++ BN.le_bytes span src ++ drop (offset + span) b).

(** [decodeBool] and [encodeBool] *)
Definition decodeBool (value : Z) : bool := negb (value =? 0).
Definition encodeBool (value : bool) : Z := if value then 1 else 0.

(** [bool(property)]: [WrappedLayout(u8(), decodeBool, encodeBool)] *)
Definition bool_decode (b : Buffer) (offset : nat) : Result bool :=
  let* v := readUIntLE b offset 1 in Ok (decodeBool v).

Definition bool_encode (src : bool) (b : Buffer) (offset : nat) : Result Buffer :=
  UInt_encode 1 (encodeBool src) b offset.




(** [BNLayout.decode] and [BNLayout.encode] *)
Definition BNLayout_decode (span : nat) (signed : bool) (b : Buffer)
    (offset : nat) : Z :=
  let result := BN.of_le_bytes (slice b offset span) in
  if signed then BN.fromTwos (8 * Z.of_nat span) result else result.

Definition BNLayout_encode (span : nat) (signed : bool) (src : Z) (b : Buffer)
    (offset : nat) : Result Buffer :=
  let src := if signed then BN.toTwos (8 * Z.of_nat span) src else src in
  let* bytes := BN.toArray_le span src in
  Blob_encode span bytes b offset.

(** The fields that are read with [slice]: they have no bounds check. *)
Definition blobBacked (f : Field) : bool :=
  match f with
  | BNLayout _ _ | I80F48Layout => true
  | _ => false
  end.

(** Bytes are 8-bit. *)
Definition wellFormed (b : Buffer) : Prop := Forall (fun x => 0 <= x < 256) b.

End Codec.

(* ===================================================================== *)
(** ** LyraeGroup.ts: index lookups *)

Module Group.
Import Entities.

(** [TokenInfo] *)
Record TokenInfo : Type := {
  mint : PublicKey;
  rootBank : PublicKey;
  decimals : Z
}.

(** The token and oracle tables of a [LyraeGroup]. *)
Record Tables : Type := {
  tokens : list TokenInfo;
  oracles : list PublicKey
}.

(** The constructor keeps the oracles that are not the zero key:
    [this.oracles.filter((o) => !o.equals(zeroKey))]. *)
Definition loadOracles (decoded : list PublicKey) : list PublicKey :=
  List.filter (fun o => negb (PublicKey_equals o zeroKey)) decoded.

(** [for (let i = 0; i < n; i++) { if (arr[i].key.equals(pk)) return i; }
    throw new Error(...)] over the indices [l]. *)
Fixpoint scan {A : Type} (key : A -> PublicKey) (arr : list A)
    (pk : PublicKey) (l : list nat) : Result nat :=
  match l with
  | [] => Err Invalid
  | i :: rest =>
      let* a := at_index arr i in
      if PublicKey_equals (key a) pk then Ok i else scan key arr pk rest
  end.

Definition getOracleIndex (numOracles : nat) (oracles : list PublicKey)
    (oracle : PublicKey) : Result nat :=
  scan (fun o => o) oracles oracle (seq 0 numOracles).

Definition getSpotMarketIndex {num : Type} (this : LyraeGroup num)
    (spotMarketPk : PublicKey) : Result nat :=
  scan spotMarket (spotMarkets this) spotMarketPk (seq 0 (numOracles this)).

Definition getPerpMarketIndex {num : Type} (this : LyraeGroup num)
    (perpMarketPk : PublicKey) : Result nat :=
  scan perpMarket (perpMarkets this) perpMarketPk (seq 0 (numOracles this)).

Definition getTokenIndex (this : Tables) (token : PublicKey) : Result nat :=
  scan mint (tokens this) token (seq 0 (length (tokens this))).

Definition getRootBankIndex (this : Tables) (rootBank : PublicKey) : Result nat :=
  scan Group.rootBank (tokens this) rootBank (seq 0 (length (tokens this))).

(** [LyraeGroup.getTokenDecimals(tokenIndex)] *)
Definition getTokenDecimals (this : Tables) (tokenIndex : nat) : Result Z :=
  let* tokenInfo := at_index (tokens this) tokenIndex in
  if decimals tokenInfo =? 0 then
    let* o := at_index (oracles this) tokenIndex in
    if PublicKey_equals o zeroKey then Err Invalid else Ok 6
  else Ok (decimals tokenInfo).

Section Price.

(** The decimal library behind [toBig], [fromBig], [mul] and [pow] is taken
    as given. *)
Variable Big : Type.
Variable toBig : Z -> Big.
Variable fromBig : Big -> Result Z.
Variable Big_mul : Big -> Big -> Big.
Variable Big_pow10 : Z -> Big.

(** [LyraeGroup.getPrice(tokenIndex, lyraeCache)]: off the quote index the
    decimals of the token and of the quote token are read first, each by
    [getTokenDecimals], which may throw; then the cache entry, whose absence
    ([?.] gives [undefined]) makes [fromBig] fail on a property read. *)
Definition getPrice (this : Tables) (tokenIndex : nat)
    (lyraeCache : LyraeCache Z) : Result Z :=
  if (tokenIndex =? QUOTE_INDEX)%nat then Ok I80F48.ONE_I80F48
  else
    let* d := getTokenDecimals this tokenIndex in
    let* dq := getTokenDecimals this QUOTE_INDEX in
    let decimalAdj := Big_pow10 (d - dq) in
    let* pc := at_index (priceCache lyraeCache) tokenIndex in
    fromBig (Big_mul (toBig (price pc)) decimalAdj).

End Price.

(** What a lookup over the first [n] entries of [arr] should answer: the
    least index whose key is [pk], or the lookup's own error when no entry
    has that key. *)
Definition FirstMatch {A : Type} (key : A -> PublicKey) (arr : list A)
    (n : nat) (pk : PublicKey) (r : Result nat) : Prop :=
  match r with
  | Ok i =>
      (i < n)%nat /\
      (exists a, arr !! i = Some a /\ key a = pk) /\
      (forall j a, (j < i)%nat -> arr !! j = Some a -> key a <> pk)
  | Err e =>
      e = Invalid /\
      (forall j a, (j < n)%nat -> arr !! j = Some a -> key a <> pk)
  end.

End Group.

(* ===================================================================== *)
(** ** LyraeAccount.ts: balances and liquidation *)

Module Account.
Import I80F48 Entities Health.

(** [LyraeAccount.getNativeDeposit] and [LyraeAccount.getNativeBorrow] *)
Definition getNativeDeposit (this : LyraeAccount)
    (rootBank : option (RootBankCache I80F48)) (tokenIndex : nat)
  : Result I80F48 :=
  let* di := prop rootBank depositIndex in
  let* d := at_index (deposits this) tokenIndex in
  mul di d.

Definition getNativeBorrow (this : LyraeAccount)
    (rootBank : option (RootBankCache I80F48)) (tokenIndex : nat)
  : Result I80F48 :=
  let* bi := prop rootBank borrowIndex in
  let* b := at_index (borrows this) tokenIndex in
  mul bi b.

Section Engine.

Variable getQuotePosition :
  PerpAccount -> option (PerpMarketCache I80F48) -> Result I80F48.

(** [LyraeAccount.getAvailableBalance] *)
Definition getAvailableBalance (this : LyraeAccount)
    (lyraeGroup : LyraeGroup I80F48) (lyraeCache : LyraeCache I80F48)
    (tokenIndex : nat) : Result I80F48 :=
  let* health := getHealth getQuotePosition this lyraeGroup lyraeCache Init in
  let* net := getNet this (rootBankCache lyraeCache !! tokenIndex) tokenIndex in
  if (tokenIndex =? QUOTE_INDEX)%nat then
    Ok (max (min health net) ZERO_I80F48)
  else
    let* w := getWeights ONE_I80F48 lyraeGroup tokenIndex (Some Init) in
    let* a := div health (spotAssetWeight w) in
    let* pc := at_index (priceCache lyraeCache) tokenIndex in
    let* c := div a (price pc) in
    Ok (max (min net c) ZERO_I80F48).

(** [LyraeAccount.isLiquidatable]: [&&] and [||] evaluate their right side
    only when the left side does not decide. *)
Definition isLiquidatable (this : LyraeAccount)
    (lyraeGroup : LyraeGroup I80F48) (lyraeCache : LyraeCache I80F48)
  : Result bool :=
  let* lhs :=
    if beingLiquidated this then
      let* h := getHealth getQuotePosition this lyraeGroup lyraeCache Init in
      Ok (isNeg h)
    else Ok false in
  if lhs then Ok true
  else
    let* m := getHealth getQuotePosition this lyraeGroup lyraeCache Maint in
    Ok (isNeg m).

End Engine.

(** The same account with market [i] out of its margin basket: the
    open-orders account of that market is then not looked at. *)
Definition withoutOrders (this : LyraeAccount) (i : nat) : LyraeAccount :=
  {| publicKey := publicKey this;
     inMarginBasket := <[i := false]> (inMarginBasket this);
     deposits := deposits this;
     borrows := borrows this;
     spotOpenOrdersAccounts := spotOpenOrdersAccounts this;
     perpAccounts := perpAccounts this;
     beingLiquidated := beingLiquidated this;
     isBankrupt := isBankrupt this |}.

(** An account that holds nothing: no deposit, no borrow, no market in its
    margin basket. *)
Definition Empty (this : LyraeAccount) : Prop :=
  deposits this = replicate MAX_TOKENS 0 /\
  borrows this = replicate MAX_TOKENS 0 /\
  Forall (fun b => b = false) (inMarginBasket this).

(** A snapshot that has, for each of its [numOracles] markets, the price, the
    bank and the two market records, a bank for the quote token, and no perp
    market registered. *)
Definition SpotOnly (lyraeGroup : LyraeGroup I80F48)
    (lyraeCache : LyraeCache I80F48) : Prop :=
  (numOracles lyraeGroup <= length (priceCache lyraeCache))%nat /\
  (numOracles lyraeGroup <= length (spotMarkets lyraeGroup))%nat /\
  (numOracles lyraeGroup <= length (perpMarkets lyraeGroup))%nat /\
  (numOracles lyraeGroup <= MAX_PAIRS)%nat /\
  length (rootBankCache lyraeCache) = MAX_TOKENS /\
  Forall (fun m => perpMarket m = zeroKey) (perpMarkets lyraeGroup).

(** Init weights at least as strict as Maint weights, and prices that are
    not negative. *)
Definition InitStricter (lyraeGroup : LyraeGroup I80F48)
    (lyraeCache : LyraeCache I80F48) : Prop :=
  Forall (fun pc => 0 <= price pc) (priceCache lyraeCache) /\
  Forall (fun m => spot_initAssetWeight m <= spot_maintAssetWeight m /\
                   spot_maintLiabWeight m <= spot_initLiabWeight m)
    (spotMarkets lyraeGroup) /\
  Forall (fun m => perp_initAssetWeight m <= perp_maintAssetWeight m /\
                   perp_maintLiabWeight m <= perp_initLiabWeight m)
    (perpMarkets lyraeGroup).

End Account.

(* ===================================================================== *)
(** ** RootBank.ts: totals and interest rates *)

Module Bank.
Import I80F48 Entities.

(** [NodeBank]: the share totals. *)
Record NodeBank : Type := { deposits : I80F48; borrows : I80F48 }.

Record RootBank : Type := {
  publicKey : PublicKey;
  optimalUtil : I80F48;
  optimalRate : I80F48;
  maxRate : I80F48;
  depositIndex : I80F48;
  borrowIndex : I80F48;
  nodeBankAccounts : list NodeBank
}.

(** [I80F48.fromNumber(Math.pow(10, decimals))]: the big-integer constructor
    asserts that a number is below [2^53]. *)
Definition fromPow10 (decimals : Z) : Result I80F48 :=
  if 2 ^ 53 <=? 10 ^ decimals then Err Invalid
  else fromNumber (10 ^ decimals).

(** utils.ts, [nativeI80F48ToUi(amount, decimals)], for a decimal count that
    is not negative. *)
Definition nativeI80F48ToUi (amount : I80F48) (decimals : Z) : Result I80F48 :=
  let* d := fromPow10 decimals in
  div amount d.

(** The running total of the loops of [getNativeTotalDeposit] and
    [getNativeTotalBorrow]. *)
Fixpoint total (amounts : list I80F48) (acc : I80F48) : Result I80F48 :=
  match amounts with
  | [] => Ok acc
  | x :: rest => let* acc' := add acc x in total rest acc'
  end.

Definition getNativeTotalDeposit (this : RootBank) : Result I80F48 :=
  if (length (nodeBankAccounts this) =? 0)%nat then Err Invalid
  else
    let* totalDeposits :=
      total (deposits <$> nodeBankAccounts this) ZERO_I80F48 in
    mul (depositIndex this) totalDeposits.

Definition getNativeTotalBorrow (this : RootBank) : Result I80F48 :=
  if (length (nodeBankAccounts this) =? 0)%nat then Err Invalid
  else
    let* totalBorrow :=
      total (borrows <$> nodeBankAccounts this) ZERO_I80F48 in
    mul (borrowIndex this) totalBorrow.

Definition getUiTotalDeposit (this : RootBank) (lyraeGroup : Group.Tables)
  : Result I80F48 :=
  let* tokenIndex := Group.getRootBankIndex lyraeGroup (publicKey this) in
  let* native := getNativeTotalDeposit this in
  let* t := at_index (Group.tokens lyraeGroup) tokenIndex in
  nativeI80F48ToUi native (Group.decimals t).

Definition getUiTotalBorrow (this : RootBank) (lyraeGroup : Group.Tables)
  : Result I80F48 :=
  let* tokenIndex := Group.getRootBankIndex lyraeGroup (publicKey this) in
  let* native := getNativeTotalBorrow this in
  let* t := at_index (Group.tokens lyraeGroup) tokenIndex in
  nativeI80F48ToUi native (Group.decimals t).

(** [RootBank.getBorrowRate(lyraeGroup)] *)
Definition getBorrowRate (this : RootBank) (lyraeGroup : Group.Tables)
  : Result I80F48 :=
  let* totalBorrows := getUiTotalBorrow this lyraeGroup in
  let* totalDeposits := getUiTotalDeposit this lyraeGroup in
  if eq totalDeposits ZERO_I80F48 && eq totalBorrows ZERO_I80F48 then
    Ok ZERO_I80F48
  else if lte totalDeposits totalBorrows then Ok (maxRate this)
  else
    let* utilization := div totalBorrows totalDeposits in
    if gt utilization (optimalUtil this) then
      let* extraUtil := sub utilization (optimalUtil this) in
      let* dr := sub (maxRate this) (optimalRate this) in
      let* one := fromNumber 1 in
      let* du := sub one (optimalUtil this) in
      let* slope := div dr du in
      let* m := mul slope extraUtil in
      add (optimalRate this) m
    else
      let* slope := div (optimalRate this) (optimalUtil this) in
      mul slope utilization.

(** [RootBank.getDepositRate(lyraeGroup)] *)
Definition getDepositRate (this : RootBank) (lyraeGroup : Group.Tables)
  : Result I80F48 :=
  let* borrowRate := getBorrowRate this lyraeGroup in
  let* totalBorrows := getUiTotalBorrow this lyraeGroup in
  let* totalDeposits := getUiTotalDeposit this lyraeGroup in
  if eq totalDeposits ZERO_I80F48 && eq totalBorrows ZERO_I80F48 then
    Ok ZERO_I80F48
  else if eq totalDeposits ZERO_I80F48 then Ok (maxRate this)
  else
    let* utilization := div totalBorrows totalDeposits in
    mul utilization borrowRate.

End Bank.

(* ===================================================================== *)
(** ** client.ts: [LyraeClient.settlePnl] *)

Module Client.
Import I80F48 Entities Settle.

(** [I80F48.fromString('-0.000001')]: [-0.000001 * 2^48] rounded half up. *)
Definition MIN_FEE_PNL : I80F48 := -281474977.

Section SettlePnl.

(** What the function calls outside of the sources at hand: the PnL of a
    perp account ([PerpAccount.getPnl]), the two candidate fetches for a
    sign (a ranking service and the RPC node), and the sending of the
    transaction built.  Each may throw. *)
Variable TransactionSignature : Type.
Variable getPnl :
  Health.PerpAccount -> option (PerpMarketInfo Z) ->
  option (PerpMarketCache Z) -> Z -> Result Z.
Variable fetchTopPnlAccountsFromDB : Z -> Result (list AccountWithPnl).
Variable fetchTopPnlAccountsFromRPC : Z -> Result (list AccountWithPnl).
Variable sendTransaction : list Instruction -> Result TransactionSignature.

(** The candidates: on mainnet the ranking service is asked inside a
    [try]; when it threw, or off mainnet, [accountsWithPnl] is still
    [undefined] and the RPC fetch is made, outside of any [try]. *)
Definition fetchCandidates (isMainnet : bool) (sign : Z)
  : Result (list AccountWithPnl) :=
  let accountsWithPnl :=
    if isMainnet then
      match fetchTopPnlAccountsFromDB sign with
      | Ok l => Some l
      | Err _ => None
      end
    else None in
  match accountsWithPnl with
  | Some l => Ok l
  | None => fetchTopPnlAccountsFromRPC sign
  end.

(** From the candidate fetch to the end of [settlePnl]. *)
Definition settleAndSend (self : PublicKey) (isMainnet : bool) (sign : Z)
    (pnl : I80F48) (instructions : list Instruction)
  : Result (option TransactionSignature) :=
  let* accountsWithPnl := fetchCandidates isMainnet sign in
  let* (_, instructions) :=
    settleLoop self sign accountsWithPnl pnl instructions in
  let* txid := sendTransaction instructions in
  Ok (Some txid).

(** [LyraeClient.settlePnl]; [None] is the [null] returned when there is
    nothing to settle.  [quoteRootBank.nodeBankAccounts] is an array (the
    constructor of [RootBank] sets [[]]), so [!quoteRootBank.nodeBankAccounts]
    is false and the node banks are not loaded here: the fee instruction
    reads [nodeBankAccounts[0].vault] of the array as it is. *)
Definition settlePnl (lyraeGroup : LyraeGroup Z) (lyraeCache : LyraeCache Z)
    (lyraeAccount : Health.LyraeAccount) (perpMarketPk : PublicKey)
    (feesAccrued : I80F48) (quoteRootBank : Bank.RootBank) (price : I80F48)
    (isMainnet : bool) : Result (option TransactionSignature) :=
  let* marketIndex := Group.getPerpMarketIndex lyraeGroup perpMarketPk in
  let perpMarketInfo := perpMarkets lyraeGroup !! marketIndex in
  let* perpAccount := at_index (Health.perpAccounts lyraeAccount) marketIndex in
  let* pnl :=
    getPnl perpAccount perpMarketInfo
      (perpMarketCache lyraeCache !! marketIndex) price in
  let self := Health.publicKey lyraeAccount in
  if eq pnl ZERO_I80F48 then Ok None
  else if gt pnl ZERO_I80F48 then settleAndSend self isMainnet 1 pnl []
  else
    let sign := -1 in
    let* nodeBank := at_index (Bank.nodeBankAccounts quoteRootBank) 0 in
    let instructions := [SettleFees] in
    let* p := add pnl feesAccrued in
    let pnl := min p MIN_FEE_PNL in
    let remSign := if gt pnl ZERO_I80F48 then 1 else -1 in
    if negb (remSign =? sign) then
      let* txid := sendTransaction instructions in Ok (Some txid)
    else settleAndSend self isMainnet sign pnl instructions.

End SettlePnl.

End Client.

(* ===================================================================== *)
(** ** More samples *)

Module Samples.
Import Entities.

(** Two tokens, the second with no decimals recorded, and their oracles as
    decoded: one registered, one empty slot. *)
Definition tables : Group.Tables :=
  {| Group.tokens :=
       [ {| Group.mint := 11; Group.rootBank := 21; Group.decimals := 9 |};
         {| Group.mint := 12; Group.rootBank := 22; Group.decimals := 0 |} ];
     Group.oracles := Group.loadOracles [31; 0] |}.

(** A bank of the first token: 1000 deposited, 250 borrowed (in whole native
    units, indexes of 1), optimal utilization 1/2, optimal rate 1/8, maximal
    rate 1. *)
Definition bank : Bank.RootBank :=
  {| Bank.publicKey := 21;
     Bank.optimalUtil := 2 ^ 47;
     Bank.optimalRate := 2 ^ 45;
     Bank.maxRate := 2 ^ 48;
     Bank.depositIndex := 2 ^ 48;
     Bank.borrowIndex := 2 ^ 48;
     Bank.nodeBankAccounts :=
       [ {| Bank.deposits := Examples.whole 600; Bank.borrows := Examples.whole 250 |};
         {| Bank.deposits := Examples.whole 400; Bank.borrows := 0 |} ] |}.

(** The sample group with its one perp market registered. *)
Definition perpGroup : LyraeGroup Z :=
  {| numOracles := 1;
     spotMarkets := spotMarkets Examples.group;
     perpMarkets :=
       [ {| perpMarket := 9;
            perp_maintAssetWeight := 3 * 2 ^ 46;
            perp_initAssetWeight := 2 ^ 47;
            perp_maintLiabWeight := 5 * 2 ^ 46;
            perp_initLiabWeight := 3 * 2 ^ 47;
            perp_liquidationFee := 0;
            makerFee := 0; takerFee := 0;
            baseLotSize := 1; quoteLotSize := 1 |} ] |}.

(** Three ranked accounts: the subject of the samples (key 1) and two
    others. *)
Definition ranked : list Settle.AccountWithPnl :=
  [ {| Settle.publicKey := 1; Settle.pnl := 70 |};
    {| Settle.publicKey := 2; Settle.pnl := 30 |};
    {| Settle.publicKey := 3; Settle.pnl := 25 |} ].

(** An account that holds nothing. *)
Definition nobody : Health.LyraeAccount :=
  {| Health.publicKey := 3;
     Health.inMarginBasket := replicate 15 false;
     Health.deposits := replicate 16 0;
     Health.borrows := replicate 16 0;
     Health.spotOpenOrdersAccounts := replicate 15 None;
     Health.perpAccounts := replicate 15 Examples.noPerp;
     Health.beingLiquidated := false;
     Health.isBankrupt := false |}.

End Samples.

(* ===================================================================== *)
(** * Properties *)

(** ** The error monad *)

Lemma bind_Ok {A B} (r : Result A) (k : A -> Result B) (b : B) :
  bind r k = Ok b -> exists a, r = Ok a /\ k a = Ok b.
Proof. destruct r as [a|e]; simpl; intros H; [eauto | discriminate]. Qed.

Lemma at_index_Ok {A} (l : list A) (i : nat) (a : A) :
  at_index l i = Ok a <-> l !! i = Some a.
Proof.
  unfold at_index. destruct (l !! i); split; intros H; congruence.
Qed.

(** Splits a successful sequence of binds into its steps. *)
Ltac bind_inv H :=
  let a := fresh "v" in
  let Ha := fresh "E" in
  apply bind_Ok in H; destruct H as (a & Ha & H).

(** ** Big-integer operations as arithmetic on [Z] *)

Lemma ushln_mul (a n : Z) : 0 <= n -> BN.ushln a n = a * 2 ^ n.
Proof.
  intros Hn. unfold BN.ushln. rewrite Z.shiftl_mul_pow2 by lia.
  rewrite Z.mul_assoc, (Z.mul_comm (Z.sgn a)), Z.abs_sgn. reflexivity.
Qed.

Lemma ushrn_quot (a n : Z) : 0 <= n -> BN.ushrn a n = Z.quot a (2 ^ n).
Proof.
  intros Hn. unfold BN.ushrn. rewrite Z.shiftr_div_pow2 by lia.
  assert (Hp : 0 < 2 ^ n) by (apply Z.pow_pos_nonneg; lia).
  rewrite Z.quot_div by lia.
  rewrite (Z.sgn_pos (2 ^ n)), (Z.abs_eq (2 ^ n)) by lia. ring.
Qed.

Lemma BN_div_quot (a b : Z) : b <> 0 -> BN.div a b = Ok (Z.quot a b).
Proof.
  intros Hb. unfold BN.div. destruct (Z.eqb_spec b 0); [contradiction|].
  rewrite Z.quot_div by assumption. reflexivity.
Qed.

Lemma MAX_BN_eq : I80F48.MAX_BN = 2 ^ 127 - 1.
Proof. reflexivity. Qed.

Lemma MIN_BN_eq : I80F48.MIN_BN = - 2 ^ 127.
Proof. reflexivity. Qed.

Lemma new_InRange (d : Z) : I80F48.InRange d -> I80F48.new d = Ok d.
Proof.
  unfold I80F48.InRange, I80F48.new. intros [Hlo Hhi].
  destruct (Z.ltb_spec d I80F48.MIN_BN); [lia|].
  destruct (Z.gtb_spec d I80F48.MAX_BN); [lia|]. reflexivity.
Qed.

Lemma new_Ok (d v : Z) : I80F48.new d = Ok v -> v = d /\ I80F48.InRange d.
Proof.
  unfold I80F48.InRange, I80F48.new.
  destruct (Z.ltb_spec d I80F48.MIN_BN); [discriminate|].
  destruct (Z.gtb_spec d I80F48.MAX_BN); [discriminate|].
  simpl. intros H1. inversion H1. lia.
Qed.

Lemma new_out_of_range (d : Z) :
  ~ I80F48.InRange d -> I80F48.new d = Err OutOfRange.
Proof.
  unfold I80F48.InRange, I80F48.new. intros Hn.
  destruct (Z.ltb_spec d I80F48.MIN_BN); [reflexivity|].
  destruct (Z.gtb_spec d I80F48.MAX_BN); [reflexivity|]. lia.
Qed.

Lemma mul_quot (x y : Z) :
  I80F48.mul x y = I80F48.new (Z.quot (x * y) (2 ^ 48)).
Proof. unfold I80F48.mul, I80F48.FRACTIONS. rewrite ushrn_quot by lia. reflexivity. Qed.

Lemma imul_quot (x y : Z) : I80F48.imul x y = Z.quot (x * y) (2 ^ 48).
Proof. unfold I80F48.imul, I80F48.FRACTIONS. rewrite ushrn_quot by lia. reflexivity. Qed.

Lemma div_quot (x y : Z) :
  y <> 0 -> I80F48.div x y = I80F48.new (Z.quot (x * 2 ^ 48) y).
Proof.
  intros Hy. unfold I80F48.div, I80F48.FRACTIONS.
  rewrite ushln_mul by lia. rewrite BN_div_quot by assumption. reflexivity.
Qed.

Lemma neg_opp (x : Z) : I80F48.neg x = I80F48.new (- x).
Proof.
  unfold I80F48.neg. rewrite mul_quot. f_equal.
  unfold I80F48.NEG_ONE_I80F48.
  replace (x * - 2 ^ 48) with ((- x) * 2 ^ 48) by ring.
  apply Z.quot_mul. lia.
Qed.

Lemma abs_Ok (x v : Z) : I80F48.abs x = Ok v -> v = Z.abs x.
Proof.
  unfold I80F48.abs, I80F48.isNeg. destruct (Z.ltb_spec x 0).
  - rewrite neg_opp. intros H1. apply new_Ok in H1. lia.
  - intros H1. inversion H1. lia.
Qed.

Lemma abs_InRange (x : Z) :
  I80F48.InRange (Z.abs x) -> I80F48.abs x = Ok (Z.abs x).
Proof.
  unfold I80F48.abs, I80F48.isNeg. intros Hr. destruct (Z.ltb_spec x 0).
  - rewrite neg_opp. rewrite <- (Z.abs_neq x) by lia. apply new_InRange, Hr.
  - rewrite Z.abs_eq by lia. reflexivity.
Qed.

(* --------------------------------------------------------------------- *)
(** ** Multiplication *)

(** C1, as the claim states it, fails: the raw values [-1] and [1] are
    representable and so is the floor [-1] of their product shifted right by
    48 bits, but [mul] returns [0]: the shift works on the magnitude of the
    product and keeps its sign, which rounds the negative product toward
    zero. *)
Lemma mul_not_floor :
  I80F48.InRange (-1) /\ I80F48.InRange 1 /\
  I80F48.InRange (Z.shiftr (-1 * 1) 48) /\
  Z.shiftr (-1 * 1) 48 = -1 /\
  I80F48.mul (-1) 1 = Ok 0 /\
  I80F48.mul (-1) 1 <> Ok (Z.shiftr (-1 * 1) 48).
Proof.
  unfold I80F48.InRange. rewrite MAX_BN_eq, MIN_BN_eq.
  repeat split; try (vm_compute; congruence); vm_compute; discriminate.
Qed.

(** C1, amended: whenever the product shifted on its magnitude is
    representable, [mul x y] is the exact double-width product of the raw
    values divided by [2^48] and truncated toward zero.  That is the
    arithmetic shift (the floor) when the product is non-negative or a
    multiple of [2^48], and one unit above it, the representable value just
    above the exact product, when the product is negative and inexact. *)
Theorem mul_truncates_toward_zero (x y : Z) :
  I80F48.InRange (Z.quot (x * y) (2 ^ 48)) ->
  I80F48.mul x y = Ok (Z.quot (x * y) (2 ^ 48)) /\
  (0 <= x * y \/ (x * y) mod 2 ^ 48 = 0 ->
   Z.quot (x * y) (2 ^ 48) = Z.shiftr (x * y) 48) /\
  (x * y < 0 /\ (x * y) mod 2 ^ 48 <> 0 ->
   Z.quot (x * y) (2 ^ 48) = Z.shiftr (x * y) 48 + 1).
Proof.
  intros Hr. split; [rewrite mul_quot; apply new_InRange, Hr|].
  rewrite Z.shiftr_div_pow2 by lia.
  set (p := x * y). set (m := 2 ^ 48). assert (Hm : 0 < m) by (subst m; lia).
  pose proof (Z.div_mod p m ltac:(lia)) as Hdm.
  pose proof (Z.mod_pos_bound p m Hm) as Hmb.
  split.
  - intros [Hp | Hz].
    + apply Z.quot_div_nonneg; lia.
    + assert (Hp : p = (p / m) * m) by lia.
      rewrite Hp at 1. apply Z.quot_mul. lia.
  - intros [Hp Hnz].
    assert (Hq : - p = (- (p / m + 1)) * m + (m - p mod m)) by lia.
    assert (Hqq : Z.quot (- p) m = - (p / m + 1)).
    { rewrite Hq. rewrite Z.quot_div_nonneg by lia.
      rewrite Z.div_add_l by lia.
      rewrite (Z.div_small (m - p mod m) m) by lia. lia. }
    rewrite Z.quot_opp_l in Hqq by lia. lia.
Qed.

Lemma mul_truncates_toward_zero_witness :
  I80F48.mul (-3) (2 ^ 47) = Ok (-1) /\ Z.shiftr (-3 * 2 ^ 47) 48 = -2.
Proof.
  split; [|reflexivity].
  apply (mul_truncates_toward_zero (-3) (2 ^ 47)).
  unfold I80F48.InRange. rewrite MAX_BN_eq, MIN_BN_eq. vm_compute.
  split; discriminate.
Defined.

(* --------------------------------------------------------------------- *)
(** ** Construction *)

(** C7: the constructor accepts exactly the integers of
    [[-2^127, 2^127 - 1]], and throws its range error for every other
    integer. *)
Theorem constructor_range (d : Z) :
  (- 2 ^ 127 <= d <= 2 ^ 127 - 1 -> I80F48.new d = Ok d) /\
  (d < - 2 ^ 127 \/ 2 ^ 127 - 1 < d -> I80F48.new d = Err OutOfRange).
Proof.
  split.
  - intros H. apply new_InRange. unfold I80F48.InRange.
    rewrite MAX_BN_eq, MIN_BN_eq. exact H.
  - intros H. apply new_out_of_range. unfold I80F48.InRange.
    rewrite MAX_BN_eq, MIN_BN_eq. lia.
Qed.

Lemma constructor_range_witness :
  I80F48.new (2 ^ 127 - 1) = Ok (2 ^ 127 - 1) /\
  I80F48.new (- 2 ^ 127) = Ok (- 2 ^ 127) /\
  I80F48.new (2 ^ 127) = Err OutOfRange /\
  I80F48.new (- 2 ^ 127 - 1) = Err OutOfRange.
Proof.
  split; [|split; [|split]].
  - apply (proj1 (constructor_range (2 ^ 127 - 1))). lia.
  - apply (proj1 (constructor_range (- 2 ^ 127))). lia.
  - apply (proj2 (constructor_range (2 ^ 127))). lia.
  - apply (proj2 (constructor_range (- 2 ^ 127 - 1))). lia.
Defined.

(* --------------------------------------------------------------------- *)
(** ** Two's complement and little-endian bytes *)

Lemma testbit_above (a n k : Z) :
  0 <= a < 2 ^ n -> 0 <= n <= k -> Z.testbit a k = false.
Proof.
  intros Ha Hk. rewrite <- (Z.mod_small a (2 ^ n)) by lia.
  apply Z.mod_pow2_bits_high. lia.
Qed.

Lemma lxor_ones_sub (a n : Z) :
  0 <= n -> 0 <= a < 2 ^ n -> Z.lxor a (Z.ones n) = Z.ones n - a.
Proof.
  intros Hn Ha.
  assert (Hld : Z.ldiff a (Z.ones n) = 0).
  { apply Z.bits_inj'. intros k Hk. rewrite Z.ldiff_spec, Z.bits_0.
    destruct (Z.lt_ge_cases k n).
    - rewrite Z.ones_spec_low by lia. apply andb_false_r.
    - rewrite (testbit_above a n k) by lia. reflexivity. }
  rewrite (Z.sub_nocarry_ldiff _ _ Hld).
  apply Z.bits_inj'. intros k Hk. rewrite Z.lxor_spec, Z.ldiff_spec.
  destruct (Z.lt_ge_cases k n).
  - rewrite Z.ones_spec_low by lia. destruct (Z.testbit a k); reflexivity.
  - rewrite Z.ones_spec_high by lia. rewrite (testbit_above a n k) by lia.
    reflexivity.
Qed.

Lemma notn_128 (a : Z) : 0 <= a < 2 ^ 128 -> BN.notn 128 a = 2 ^ 128 - 1 - a.
Proof.
  intros Ha. unfold BN.notn.
  replace (BN.word_width 128) with 130 by reflexivity.
  rewrite Z.land_ones by lia. rewrite Z.mod_small by lia.
  rewrite Z.shiftr_div_pow2 by lia.
  rewrite (Z.div_small a (2 ^ 130)) by lia.
  rewrite Z.shiftl_0_l. rewrite lxor_ones_sub by lia.
  rewrite Z.ones_equiv. lia.
Qed.

Lemma toTwos_128 (x : Z) :
  - 2 ^ 127 <= x <= 2 ^ 127 - 1 ->
  BN.toTwos 128 x = (if x <? 0 then 2 ^ 128 + x else x).
Proof.
  intros Hx. unfold BN.toTwos. destruct (Z.ltb_spec x 0); [|reflexivity].
  rewrite notn_128 by lia. lia.
Qed.

Lemma testbit_127 (t : Z) :
  0 <= t < 2 ^ 128 -> Z.testbit t 127 = (2 ^ 127 <=? t).
Proof.
  intros Ht. rewrite Z.testbit_odd, Z.shiftr_div_pow2 by lia.
  destruct (Z.leb_spec (2 ^ 127) t).
  - replace (t / 2 ^ 127) with 1; [reflexivity|].
    apply Z.div_unique with (r := t - 2 ^ 127); lia.
  - rewrite Z.div_small by lia. reflexivity.
Qed.

Lemma fromTwos_128 (t : Z) :
  0 <= t < 2 ^ 128 ->
  BN.fromTwos 128 t = (if 2 ^ 127 <=? t then t - 2 ^ 128 else t).
Proof.
  intros Ht. unfold BN.fromTwos. replace (128 - 1) with 127 by reflexivity.
  rewrite testbit_127 by assumption.
  destruct (Z.leb_spec (2 ^ 127) t); [|reflexivity].
  rewrite notn_128 by lia. lia.
Qed.

Lemma fromTwos_toTwos (x : Z) :
  - 2 ^ 127 <= x <= 2 ^ 127 - 1 -> BN.fromTwos 128 (BN.toTwos 128 x) = x.
Proof.
  intros Hx. rewrite toTwos_128 by assumption.
  destruct (Z.ltb_spec x 0).
  - rewrite fromTwos_128 by lia.
    destruct (Z.leb_spec (2 ^ 127) (2 ^ 128 + x)); lia.
  - rewrite fromTwos_128 by lia.
    destruct (Z.leb_spec (2 ^ 127) x); lia.
Qed.

Lemma toTwos_bounds (x : Z) :
  - 2 ^ 127 <= x <= 2 ^ 127 - 1 -> 0 <= BN.toTwos 128 x < 2 ^ 128.
Proof.
  intros Hx. rewrite toTwos_128 by assumption. destruct (Z.ltb_spec x 0); lia.
Qed.

Lemma length_le_bytes (n : nat) (a : Z) : length (BN.le_bytes n a) = n.
Proof. revert a. induction n as [|n IH]; intros a; simpl; [|rewrite IH]; reflexivity. Qed.

Lemma le_bytes_are_bytes (n : nat) (a : Z) :
  Forall (fun b => 0 <= b < 256) (BN.le_bytes n a).
Proof.
  revert a. induction n as [|n IH]; intros a; simpl; constructor.
  - apply Z.mod_pos_bound. lia.
  - apply IH.
Qed.

Lemma of_le_bytes_le_bytes (n : nat) (a : Z) :
  0 <= a < 256 ^ Z.of_nat n -> BN.of_le_bytes (BN.le_bytes n a) = a.
Proof.
  revert a. induction n as [|n IH]; intros a Ha.
  - simpl in *. lia.
  - cbn [BN.le_bytes BN.of_le_bytes].
    rewrite Nat2Z.inj_succ, Z.pow_succ_r in Ha by lia.
    rewrite IH.
    + pose proof (Z.div_mod a 256 ltac:(lia)). lia.
    + split; [apply Z.div_pos; lia|]. apply Z.div_lt_upper_bound; lia.
Qed.

Lemma byteLength_16 (t : Z) : 0 <= t < 2 ^ 128 -> BN.byteLength t <= 16.
Proof.
  intros Ht. unfold BN.byteLength, BN.bitLength.
  rewrite Z.abs_eq by lia. destruct (Z.eqb_spec t 0); [vm_compute; discriminate|].
  assert (Hl : Z.log2 t < 128) by (apply Z.log2_lt_pow2; lia).
  change 16 with ((128 + 7) / 8). apply Z.div_le_mono; lia.
Qed.

Lemma toArray_le_16 (t : Z) :
  0 <= t < 2 ^ 128 -> BN.toArray_le 16 t = Ok (BN.le_bytes 16 t).
Proof.
  intros Ht. unfold BN.toArray_le. pose proof (byteLength_16 t Ht).
  destruct (Z.leb_spec (BN.byteLength t) (Z.of_nat 16)); [|lia].
  rewrite Z.abs_eq by lia. reflexivity.
Qed.

Lemma InRange_bounds (x : Z) :
  I80F48.InRange x <-> - 2 ^ 127 <= x <= 2 ^ 127 - 1.
Proof. unfold I80F48.InRange. rewrite MAX_BN_eq, MIN_BN_eq. reflexivity. Qed.

(** Puts every range fact in the form of its two bounds. *)
Ltac range_bounds :=
  repeat match goal with
         | H : I80F48.InRange _ |- _ => apply (proj1 (InRange_bounds _)) in H
         end;
  try apply (proj2 (InRange_bounds _)).

Lemma toArray_Ok (x : Z) :
  I80F48.InRange x ->
  I80F48.toArray x = Ok (BN.le_bytes 16 (BN.toTwos 128 x)).
Proof.
  intros Hx. apply InRange_bounds in Hx. unfold I80F48.toArray, I80F48.MAX_SIZE.
  apply toArray_le_16, toTwos_bounds, Hx.
Qed.

Lemma fromArray_le_bytes (x : Z) :
  I80F48.InRange x ->
  I80F48.fromArray (BN.le_bytes 16 (BN.toTwos 128 x)) = Ok x.
Proof.
  intros Hx. pose proof Hx as Hb. apply InRange_bounds in Hb.
  unfold I80F48.fromArray, I80F48.MAX_SIZE. rewrite length_le_bytes. simpl negb.
  cbv iota. rewrite of_le_bytes_le_bytes.
  - rewrite fromTwos_toTwos by assumption. apply new_InRange, Hx.
  - pose proof (toTwos_bounds x Hb). change (256 ^ Z.of_nat 16) with (2 ^ 128). lia.
Qed.

Lemma slice_written (b src : list Z) (offset : nat) :
  (offset + length src <= length b)%nat ->
  Layout.slice (take offset b ++ src ++ drop (offset + length src) b)
    offset (length src) = src.
Proof.
  intros Hlen. unfold Layout.slice.
  rewrite drop_app_length' by (rewrite length_take; lia).
  rewrite take_app_length. reflexivity.
Qed.

(* --------------------------------------------------------------------- *)
(** ** Round trip of the 16-byte encoding *)

(** C6: for every representable [x], [toArray] produces 16 bytes, the
    little-endian two's complement of [x], and [fromArray] reads them back to
    a value whose raw representation is [x]; the same holds for the blob
    layout, which writes the 16 bytes into a buffer at an offset and reads
    them from there. *)
Theorem I80F48_bytes_roundtrip (x : Z) :
  I80F48.InRange x ->
  (exists bytes,
     I80F48.toArray x = Ok bytes /\ length bytes = 16%nat /\
     Forall (fun b => 0 <= b < 256) bytes /\
     I80F48.fromArray bytes = Ok x) /\
  (forall (b : Layout.Buffer) (offset : nat),
     (offset + 16 <= length b)%nat ->
     exists b',
       Layout.I80F48Layout_encode x b offset = Ok b' /\
       length b' = length b /\
       Layout.I80F48Layout_decode b' offset = Ok x).
Proof.
  intros Hx. pose proof Hx as Hb. apply InRange_bounds in Hb. split.
  - exists (BN.le_bytes 16 (BN.toTwos 128 x)).
    split; [apply toArray_Ok, Hx|]. split; [apply length_le_bytes|].
    split; [apply le_bytes_are_bytes | apply fromArray_le_bytes, Hx].
  - intros b offset Hlen.
    set (bytes := BN.le_bytes 16 (BN.toTwos 128 x)).
    assert (Hbl : length bytes = 16%nat) by apply length_le_bytes.
    exists (take offset b ++ bytes ++ drop (offset + 16) b).
    split; [|split].
    + unfold Layout.I80F48Layout_encode, I80F48.toTwos, I80F48.MAX_SIZE.
      rewrite toArray_le_16 by (apply toTwos_bounds, Hb). cbn [bind].
      fold bytes. unfold Layout.Blob_encode. rewrite Hbl.
      rewrite Nat.eqb_refl. cbn [negb].
      destruct (Nat.ltb_spec (length b) (offset + 16)); [lia|]. reflexivity.
    + rewrite !length_app, length_take, length_drop. lia.
    + unfold Layout.I80F48Layout_decode.
      rewrite <- Hbl at 1 2. rewrite slice_written by lia.
      subst bytes. rewrite of_le_bytes_le_bytes.
      * change (8 * 16) with 128. rewrite fromTwos_toTwos by assumption.
        apply new_InRange, Hx.
      * pose proof (toTwos_bounds x Hb).
        change (256 ^ Z.of_nat 16) with (2 ^ 128). lia.
Qed.

Lemma I80F48_bytes_roundtrip_witness :
  exists bytes,
    I80F48.toArray (- 2 ^ 127) = Ok bytes /\ length bytes = 16%nat /\
    Forall (fun b => 0 <= b < 256) bytes /\
    I80F48.fromArray bytes = Ok (- 2 ^ 127).
Proof.
  apply (I80F48_bytes_roundtrip (- 2 ^ 127)).
  apply InRange_bounds. lia.
Defined.

(* --------------------------------------------------------------------- *)
(** ** Price lookups *)

Section PriceLookup.
Import Entities Health.

Variable Big : Type.
Variable toBig : Z -> Big.
Variable fromBig : Big -> Result Z.
Variable Big_mul : Big -> Big -> Big.
Variable Big_pow10 : Z -> Big.

(** C8: whatever the cache and the token table hold, both price lookups
    return exactly 1 (raw [2^48]) for the quote index, the last token slot,
    without reading anything.  For every other index [LyraeCache.getPrice]
    returns the price cached at that index, and [LyraeGroup.getPrice] reads
    that same cached price and nothing else of the cache: it first reads the
    decimals of the token and of the quote token, fails as
    [getTokenDecimals] fails when one of them is not defined, and otherwise
    returns the cached price rescaled by the power of ten of their
    difference. *)
Theorem quote_price_is_one (this : Group.Tables) (lyraeCache : LyraeCache Z) :
  QUOTE_INDEX = 15%nat /\
  LyraeCache_getPrice lyraeCache QUOTE_INDEX = Ok (2 ^ 48) /\
  Group.getPrice Big toBig fromBig Big_mul Big_pow10 this QUOTE_INDEX lyraeCache
  = Ok (2 ^ 48) /\
  (forall (i : nat) (pc : PriceCache Z),
     i <> QUOTE_INDEX -> priceCache lyraeCache !! i = Some pc ->
     LyraeCache_getPrice lyraeCache i = Ok (price pc) /\
     Group.getPrice Big toBig fromBig Big_mul Big_pow10 this i lyraeCache
     = (let* d := Group.getTokenDecimals this i in
        let* dq := Group.getTokenDecimals this QUOTE_INDEX in
        fromBig (Big_mul (toBig (price pc)) (Big_pow10 (d - dq)))) /\
     (forall d dq,
        Group.getTokenDecimals this i = Ok d ->
        Group.getTokenDecimals this QUOTE_INDEX = Ok dq ->
        Group.getPrice Big toBig fromBig Big_mul Big_pow10 this i lyraeCache
        = fromBig (Big_mul (toBig (price pc)) (Big_pow10 (d - dq))))) /\
  (forall (i : nat) (e : Error),
     i <> QUOTE_INDEX ->
     Group.getTokenDecimals this i = Err e \/
     (exists d, Group.getTokenDecimals this i = Ok d /\
                Group.getTokenDecimals this QUOTE_INDEX = Err e) ->
     Group.getPrice Big toBig fromBig Big_mul Big_pow10 this i lyraeCache
     = Err e).
Proof.
  split; [reflexivity|]. split; [reflexivity|]. split; [reflexivity|]. split.
  - intros i pc Hi Hpc.
    unfold LyraeCache_getPrice, Group.getPrice.
    destruct (Nat.eqb_spec i QUOTE_INDEX) as [->|_]; [contradiction|].
    apply at_index_Ok in Hpc. rewrite Hpc. cbn [bind].
    split; [reflexivity|]. split.
    + destruct (Group.getTokenDecimals this i) as [d|e]; cbn [bind];
        [|reflexivity].
      destruct (Group.getTokenDecimals this QUOTE_INDEX) as [dq|e];
        reflexivity.
    + intros d dq -> ->. reflexivity.
  - intros i e Hi H. unfold Group.getPrice.
    destruct (Nat.eqb_spec i QUOTE_INDEX) as [->|_]; [contradiction|].
    destruct H as [-> | (d & -> & ->)]; reflexivity.
Qed.

End PriceLookup.

Lemma quote_price_is_one_witness :
  Health.LyraeCache_getPrice Examples.cache 0 = Ok (Examples.whole 10) /\
  Health.LyraeCache_getPrice Examples.cache 15 = Ok (2 ^ 48) /\
  Group.getPrice Z (fun x => x) (fun x => Ok x) Z.mul (fun e => 10 ^ e)
    {| Group.tokens :=
         replicate 16 {| Group.mint := 11; Group.rootBank := 21;
                         Group.decimals := 6 |};
       Group.oracles := [] |} 0 Examples.cache
  = Ok (Examples.whole 10 * 10 ^ (6 - 6)).
Proof.
  pose proof (quote_price_is_one Z (fun x => x) (fun x => Ok x) Z.mul
                (fun e => 10 ^ e)
                {| Group.tokens :=
                     replicate 16 {| Group.mint := 11; Group.rootBank := 21;
                                     Group.decimals := 6 |};
                   Group.oracles := [] |}
                Examples.cache) as (_ & Hq & _ & Hi & _).
  destruct (Hi 0%nat {| Entities.price := Examples.whole 10;
                        Entities.price_lastUpdate := 0 |})
    as (Hcache & _ & Hgroup).
  - discriminate.
  - reflexivity.
  - split; [exact Hcache|]. split; [exact Hq|].
    apply (Hgroup 6 6); reflexivity.
Defined.

(* --------------------------------------------------------------------- *)
(** ** Loops *)

Lemma foldM_invariant {S : Type} (P : S -> Prop)
    (body : nat -> S -> Result S) (l : list nat) :
  (forall i s s', body i s = Ok s' -> P s -> P s') ->
  forall s s', Entities.foldM body l s = Ok s' -> P s -> P s'.
Proof.
  intros Hstep. induction l as [|i l IH]; intros s s' Hrun Hs; simpl in Hrun.
  - inversion Hrun. subst. exact Hs.
  - bind_inv Hrun. eapply IH; [exact Hrun|]. eapply Hstep; eassumption.
Qed.

Lemma mul_nonneg (a b v : Z) :
  I80F48.mul a b = Ok v -> 0 <= a -> 0 <= b -> 0 <= v.
Proof.
  rewrite mul_quot. intros H Ha Hb. apply new_Ok in H. destruct H as [-> _].
  apply Z.quot_pos; [apply Z.mul_nonneg_nonneg; assumption | lia].
Qed.

Lemma neg_Ok (x v : Z) : I80F48.neg x = Ok v -> v = - x.
Proof. rewrite neg_opp. intros H. apply new_Ok in H. tauto. Qed.

Lemma add_Ok (x y v : Z) : I80F48.add x y = Ok v -> v = x + y.
Proof. unfold I80F48.add. intros H. apply new_Ok in H. tauto. Qed.

Section Liabilities.
Import I80F48 Entities Health.

Variables (lyraeGroup : LyraeGroup Z) (lyraeCache : LyraeCache Z).
Hypothesis Hnn : NonNegative lyraeGroup lyraeCache.

Lemma getWeights_liab_nonneg (i : nat) (ht : option HealthType) (w : Weights Z) :
  getWeights ONE_I80F48 lyraeGroup i ht = Ok w ->
  0 <= spotLiabWeight w /\ 0 <= perpLiabWeight w.
Proof.
  destruct Hnn as (_ & Hs & Hp). unfold getWeights.
  destruct ht as [[|]|]; intros H.
  - bind_inv H. bind_inv H. inversion H; subst; cbn.
    apply at_index_Ok in E, E0.
    pose proof (Forall_lookup_1 _ _ _ _ Hs E).
    pose proof (Forall_lookup_1 _ _ _ _ Hp E0). cbn in *. tauto.
  - bind_inv H. bind_inv H. inversion H; subst; cbn.
    apply at_index_Ok in E, E0.
    pose proof (Forall_lookup_1 _ _ _ _ Hs E).
    pose proof (Forall_lookup_1 _ _ _ _ Hp E0). cbn in *. tauto.
  - inversion H; subst; cbn. unfold ONE_I80F48. lia.
Qed.

Lemma liability_term_nonneg (x p w liabs u : Z) :
  isPos x = false -> 0 <= p -> 0 <= w -> 0 <= liabs ->
  (let* n := neg x in
   let* t := mul n p in
   let* u := mul t w in add u liabs) = Ok u ->
  0 <= u.
Proof.
  unfold isPos, gt, ZERO_I80F48. intros Hx Hp Hw Hl H.
  destruct (Z.gtb_spec x 0); [discriminate|].
  bind_inv H. bind_inv H. bind_inv H.
  apply neg_Ok in E. apply mul_nonneg in E0; [|lia|lia].
  apply mul_nonneg in E1; [|lia|lia]. apply add_Ok in H. lia.
Qed.

Lemma weightedStep_liabs_nonneg (spot perps : list Z) (ht : option HealthType)
    (i : nat) (al al' : Z * Z) :
  weightedStep lyraeGroup lyraeCache spot perps ht i al = Ok al' ->
  0 <= snd al -> 0 <= snd al'.
Proof.
  destruct al as [assets liabs]. unfold weightedStep. intros H Hl. cbn in Hl.
  bind_inv H. bind_inv H. bind_inv H.
  apply getWeights_liab_nonneg in E.
  assert (Hp : 0 <= price v0).
  { apply at_index_Ok in E0. destruct Hnn as (Hpr & _).
    exact (Forall_lookup_1 _ _ _ _ Hpr E0). }
  bind_inv H. destruct v2 as [assets1 liabs1].
  assert (Hl1 : 0 <= liabs1).
  { destruct (isPos v1) eqn:Hpos.
    - bind_inv E2. bind_inv E2. bind_inv E2. inversion E2; subst. exact Hl.
    - assert (Hu : (let* n := neg v1 in
                    let* t := mul n (price v0) in
                    let* u := mul t (spotLiabWeight v) in add u liabs)
                   = Ok liabs1).
      { bind_inv E2. bind_inv E2. bind_inv E2. bind_inv E2.
        inversion E2; subst. rewrite E3. cbn [bind]. rewrite E4. cbn [bind].
        rewrite E5. cbn [bind]. exact E6. }
      eapply liability_term_nonneg; [exact Hpos| | | |exact Hu]; tauto. }
  bind_inv H. destruct (isPos v2) eqn:Hpos.
  - bind_inv H. bind_inv H. bind_inv H. inversion H; subst. exact Hl1.
  - assert (Hu : (let* n := neg v2 in
                  let* t := mul n (price v0) in
                  let* u := mul t (perpLiabWeight v) in add u liabs1)
                 = Ok (snd al')).
    { bind_inv H. bind_inv H. bind_inv H. bind_inv H.
      inversion H; subst. rewrite E4. cbn [bind]. rewrite E5. cbn [bind].
      rewrite E6. cbn [bind]. exact E7. }
    eapply liability_term_nonneg; [exact Hpos| | | |exact Hu]; tauto.
Qed.

(** With prices and liability weights that are not negative, the weighted
    liabilities are zero or positive: the two cases of the health ratio
    are all there is. *)
Lemma weighted_liabs_nonneg (spot perps : list Z) (quote : Z)
    (ht : option HealthType) (assets liabs : Z) :
  getWeightedAssetsLiabsVals lyraeGroup lyraeCache spot perps quote ht
  = Ok (assets, liabs) ->
  0 <= liabs.
Proof.
  unfold getWeightedAssetsLiabsVals, forLoop. intros H. bind_inv H.
  change liabs with (snd (assets, liabs)).
  eapply (foldM_invariant (fun al => 0 <= snd al)); [|exact H|].
  - intros i s s'. apply weightedStep_liabs_nonneg.
  - destruct (isPos quote) eqn:Hq.
    + bind_inv E. inversion E; subst. cbn. unfold ZERO_I80F48. lia.
    + bind_inv E. bind_inv E. inversion E; subst. cbn.
      apply neg_Ok in E0. apply add_Ok in E1.
      unfold isPos, gt, ZERO_I80F48 in *.
      destruct (Z.gtb_spec quote 0); [discriminate | lia].
Qed.

End Liabilities.

(* --------------------------------------------------------------------- *)
(** ** Health ratio and margin available *)

Section HealthFacts.
Import I80F48 Entities Health.

Variable getQuotePosition : PerpAccount -> option (PerpMarketCache Z) -> Result Z.

Lemma hundred : fromNumber 100 = Ok (100 * 2 ^ 48).
Proof. reflexivity. Qed.

(** The ratio computed when there are liabilities: [100 * (r - 1)] for the
    truncated quotient [r] of assets by liabilities; the product by 100 is
    exact, and the whole is in range or none of it is. *)
Lemma ratio_formula (assets liabs : Z) :
  0 < liabs ->
  (let* r := div assets liabs in
   let* d := sub r ONE_I80F48 in
   let* h := fromNumber 100 in mul d h)
  = new (100 * (Z.quot (assets * 2 ^ 48) liabs - 2 ^ 48)).
Proof.
  intros Hl. rewrite div_quot by lia.
  set (r := Z.quot (assets * 2 ^ 48) liabs).
  assert (Hmul : forall d, Z.quot (d * (100 * 2 ^ 48)) (2 ^ 48) = 100 * d).
  { intros d. replace (d * (100 * 2 ^ 48)) with ((100 * d) * 2 ^ 48) by ring.
    apply Z.quot_mul. lia. }
  unfold new at 1.
  destruct (Z.ltb_spec r MIN_BN) as [Hlo|Hlo]; cbn [orb bind].
  { symmetry. apply new_out_of_range. unfold InRange.
    rewrite MAX_BN_eq, MIN_BN_eq in *. lia. }
  destruct (Z.gtb_spec r MAX_BN) as [Hhi|Hhi]; cbn [bind].
  { symmetry. apply new_out_of_range. unfold InRange.
    rewrite MAX_BN_eq, MIN_BN_eq in *. lia. }
  unfold sub, ONE_I80F48. unfold new at 1.
  destruct (Z.ltb_spec (r - 2 ^ 48) MIN_BN) as [Hlo'|Hlo']; cbn [orb bind].
  { symmetry. apply new_out_of_range. unfold InRange.
    rewrite MAX_BN_eq, MIN_BN_eq in *. lia. }
  destruct (Z.gtb_spec (r - 2 ^ 48) MAX_BN) as [Hhi'|Hhi']; cbn [bind].
  { rewrite MAX_BN_eq in *. lia. }
  rewrite hundred. cbn [bind]. rewrite mul_quot, Hmul. reflexivity.
Qed.

(** C4: the health ratio is 100 when the weighted liabilities are zero,
    and [100 * (assets / liabilities - 1)] when there are liabilities
    (fixed-point division truncated, product by 100 exact, range error if
    the result is not representable).  These are all the cases of a snapshot
    whose prices and liability weights are not negative: its weighted
    liabilities are not negative. *)
Theorem health_ratio_cases (this : LyraeAccount) (lyraeGroup : LyraeGroup Z)
    (lyraeCache : LyraeCache Z) (healthType : HealthType)
    (c : Components) (assets liabs : Z) :
  getHealthComponents getQuotePosition this lyraeGroup lyraeCache = Ok c ->
  getWeightedAssetsLiabsVals lyraeGroup lyraeCache
    (spot c) (perps c) (quote c) (Some healthType) = Ok (assets, liabs) ->
  (liabs = 0 ->
   getHealthRatio getQuotePosition this lyraeGroup lyraeCache healthType
   = Ok (100 * 2 ^ 48)) /\
  (0 < liabs ->
   getHealthRatio getQuotePosition this lyraeGroup lyraeCache healthType
   = new (100 * (Z.quot (assets * 2 ^ 48) liabs - 2 ^ 48))) /\
  (NonNegative lyraeGroup lyraeCache -> 0 <= liabs).
Proof.
  intros Hc Hw. unfold getHealthRatio. rewrite Hc. cbn [bind].
  rewrite Hw. cbn [bind]. unfold gt, ZERO_I80F48. split; [|split].
  - intros ->. reflexivity.
  - intros Hl. destruct (Z.gtb_spec liabs 0); [|lia].
    apply ratio_formula, Hl.
  - intros Hnn. eapply weighted_liabs_nonneg; eassumption.
Qed.

(** C10: no margin is available when Init health is not positive; an Init
    asset weight of 1 or more returns the health itself, without a
    division; a weight below 1 divides the health by [1 - weight], a
    positive divisor. *)
Theorem market_margin_available (this : LyraeAccount)
    (lyraeGroup : LyraeGroup Z) (lyraeCache : LyraeCache Z)
    (marketIndex : nat) (marketType : MarketType) (health : Z) :
  getHealth getQuotePosition this lyraeGroup lyraeCache Init = Ok health ->
  (health <= 0 ->
   getMarketMarginAvailable getQuotePosition this lyraeGroup lyraeCache
     marketIndex marketType = Ok 0) /\
  (0 < health ->
   forall w : Weights Z,
     getWeights ONE_I80F48 lyraeGroup marketIndex (Some Init) = Ok w ->
     let weight :=
       match marketType with
       | Spot => spotAssetWeight w
       | Perp => perpAssetWeight w
       end in
     (2 ^ 48 <= weight ->
      getMarketMarginAvailable getQuotePosition this lyraeGroup lyraeCache
        marketIndex marketType = Ok health) /\
     (weight < 2 ^ 48 -> InRange (2 ^ 48 - weight) ->
      0 < 2 ^ 48 - weight /\
      getMarketMarginAvailable getQuotePosition this lyraeGroup lyraeCache
        marketIndex marketType
      = new (Z.quot (health * 2 ^ 48) (2 ^ 48 - weight)))).
Proof.
  intros Hh. unfold getMarketMarginAvailable. rewrite Hh. cbn [bind].
  unfold lte, gte, ZERO_I80F48. split.
  - intros Hle. destruct (Z.leb_spec health 0); [reflexivity | lia].
  - intros Hpos w Hw. cbv zeta.
    set (weight := match marketType with
                   | Spot => spotAssetWeight w
                   | Perp => perpAssetWeight w
                   end).
    destruct (Z.leb_spec health 0); [lia|].
    rewrite Hw. cbn [bind]. fold weight. unfold ONE_I80F48. split.
    + intros Hge. destruct (Z.geb_spec weight (2 ^ 48)); [reflexivity | lia].
    + intros Hlt Hr. split; [lia|].
      destruct (Z.geb_spec weight (2 ^ 48)); [lia|].
      unfold sub. rewrite (new_InRange _ Hr). cbn [bind].
      apply div_quot. lia.
Qed.

End HealthFacts.

Lemma health_ratio_cases_witness :
  Health.getHealthRatio Examples.storedQuotePosition Examples.borrower
    Examples.group Examples.cache Entities.Maint = Ok (-16888498602639400) /\
  Health.getHealthRatio Examples.storedQuotePosition Examples.trader
    Examples.group Examples.cache Entities.Maint = Ok (100 * 2 ^ 48).
Proof.
  split.
  - refine (proj1 (proj2 (health_ratio_cases Examples.storedQuotePosition
              Examples.borrower Examples.group Examples.cache Entities.Maint
              {| Health.spot := [Examples.whole (-20)];
                 Health.perps := [0];
                 Health.quote := Examples.whole 100 |}
              (Examples.whole 100) (Examples.whole 250) _ _)) _).
    + vm_compute. reflexivity.
    + vm_compute. reflexivity.
    + vm_compute. reflexivity.
  - refine (proj1 (health_ratio_cases Examples.storedQuotePosition
              Examples.trader Examples.group Examples.cache Entities.Maint
              {| Health.spot := [Examples.whole 7];
                 Health.perps := [0];
                 Health.quote := Examples.whole 1005 |}
              297659787871518720 0 _ _) _).
    + vm_compute. reflexivity.
    + vm_compute. reflexivity.
    + reflexivity.
Defined.

Lemma market_margin_available_witness :
  Health.getMarketMarginAvailable Examples.storedQuotePosition Examples.trader
    Examples.group Examples.cache 0 Health.Spot = Ok 585467951558164480.
Proof.
  assert (Hh : Health.getHealth Examples.storedQuotePosition Examples.trader
                 Examples.group Examples.cache Entities.Init
               = Ok 292733975779082240) by (vm_compute; reflexivity).
  pose proof (market_margin_available Examples.storedQuotePosition
                Examples.trader Examples.group Examples.cache 0
                Health.Spot _ Hh) as [_ Hpos].
  assert (Hw : Entities.getWeights I80F48.ONE_I80F48 Examples.group 0
                 (Some Entities.Init)
               = Ok {| Entities.spotAssetWeight := 2 ^ 47;
                       Entities.spotLiabWeight := 3 * 2 ^ 47;
                       Entities.perpAssetWeight := 2 ^ 47;
                       Entities.perpLiabWeight := 3 * 2 ^ 47 |})
    by reflexivity.
  destruct (Hpos ltac:(lia) _ Hw) as [_ Hlt].
  destruct Hlt as [_ Heq].
  - cbn. lia.
  - apply InRange_bounds. cbn. lia.
  - exact Heq.
Defined.

(* --------------------------------------------------------------------- *)
(** ** Resting spot orders in the health components *)

Section SpotOrders.
Import I80F48 Entities Health.

Lemma fromU64_Ok (x v : Z) : fromU64 x = Ok v -> v = x * 2 ^ 48.
Proof.
  unfold fromU64. rewrite ushln_mul by lia. intros H. apply new_Ok in H. tauto.
Qed.

(** What [splitOpenOrders] returns, in units of the venue's account. *)
Lemma splitOpenOrders_Ok (oo : OpenOrders) (s : SplitOpenOrders) :
  splitOpenOrders oo = Ok s ->
  quoteFree s = (quoteTokenFree oo + referrerRebatesAccrued oo) * 2 ^ 48 /\
  quoteLocked s = (quoteTokenTotal oo - quoteTokenFree oo) * 2 ^ 48 /\
  baseFree s = baseTokenFree oo * 2 ^ 48 /\
  baseLocked s = (baseTokenTotal oo - baseTokenFree oo) * 2 ^ 48.
Proof.
  unfold splitOpenOrders. intros H.
  bind_inv H. bind_inv H. bind_inv H. bind_inv H. inversion H; subst; cbn.
  apply fromU64_Ok in E, E0, E1, E2. tauto.
Qed.

(** The spot half of the loop body when the market has resting orders: the
    bids and the asks position, the larger one selected with its quote
    adjustment. *)
Lemma spotComponent_with_orders (this : LyraeAccount) (lyraeCache : LyraeCache Z)
    (i : nat) (quote : Z) (oo : OpenOrders) (pc : PriceCache Z)
    (baseNet : Z) (s : SplitOpenOrders) :
  inMarginBasket this !! i = Some true ->
  spotOpenOrdersAccounts this !! i = Some (Some oo) ->
  priceCache lyraeCache !! i = Some pc ->
  getNet this (rootBankCache lyraeCache !! i) i = Ok baseNet ->
  splitOpenOrders oo = Ok s ->
  price pc <> 0 ->
  let lockedBase := Z.quot (quoteLocked s * 2 ^ 48) (price pc) in
  let bids := baseNet + lockedBase + baseFree s + baseLocked s in
  let asks := baseNet + baseFree s in
  let lockedValue := Z.quot (baseLocked s * price pc) (2 ^ 48) in
  InRange lockedBase -> InRange (baseNet + lockedBase) -> InRange asks ->
  InRange (Z.abs bids) -> InRange (Z.abs asks) ->
  (Z.abs bids <= Z.abs asks -> InRange lockedValue) ->
  spotComponent this lyraeCache i quote
  = Ok (if Z.abs bids >? Z.abs asks
        then (bids, quote + quoteFree s)
        else (asks, quote + lockedValue + quoteFree s + quoteLocked s)) /\
  Z.abs (if Z.abs bids >? Z.abs asks then bids else asks)
  = Z.max (Z.abs bids) (Z.abs asks).
Proof.
  intros Hb Ho Hp Hn Hs Hpr lockedBase bids asks lockedValue
    Hr1 Hr2 Hr3 Hr4 Hr5 Hr6.
  split.
  - unfold spotComponent. apply at_index_Ok in Hp. rewrite Hp. cbn [bind].
    rewrite Hn. cbn [bind]. rewrite Hb, Ho. cbn [mjoin option_join].
    rewrite Hs. cbn [bind].
    rewrite div_quot by assumption. fold lockedBase.
    rewrite (new_InRange _ Hr1). cbn [bind].
    unfold add at 1. rewrite (new_InRange _ Hr2). cbn [bind].
    unfold add at 1. fold asks. rewrite (new_InRange _ Hr3). cbn [bind].
    unfold iadd. fold bids.
    rewrite (abs_InRange _ Hr4). cbn [bind].
    rewrite (abs_InRange _ Hr5). cbn [bind].
    unfold gt. destruct (Z.gtb_spec (Z.abs bids) (Z.abs asks)); [reflexivity|].
    rewrite mul_quot. fold lockedValue.
    rewrite (new_InRange _ (Hr6 ltac:(lia))). reflexivity.
  - destruct (Z.gtb_spec (Z.abs bids) (Z.abs asks)); lia.
Qed.

Variable getQuotePosition : PerpAccount -> option (PerpMarketCache Z) -> Result Z.

Lemma componentsStep_spot (this : LyraeAccount) (lyraeGroup : LyraeGroup Z)
    (lyraeCache : LyraeCache Z) (i : nat) (c c' : Components) :
  componentsStep getQuotePosition this lyraeGroup lyraeCache i c = Ok c' ->
  exists sp q', spotComponent this lyraeCache i (quote c) = Ok (sp, q') /\
                spot c' = <[i := sp]> (spot c).
Proof.
  unfold componentsStep. intros H. bind_inv H. destruct v as [sp q1].
  bind_inv H. destruct v as [p q2]. inversion H; subst; cbn.
  exists sp, q1. split; [assumption | reflexivity].
Qed.

Lemma foldM_components_spot (this : LyraeAccount) (lyraeGroup : LyraeGroup Z)
    (lyraeCache : LyraeCache Z) (l : list nat) :
  NoDup l ->
  forall c c',
    foldM (componentsStep getQuotePosition this lyraeGroup lyraeCache) l c
    = Ok c' ->
    length (spot c') = length (spot c) /\
    (forall j, j ∉ l -> spot c' !! j = spot c !! j) /\
    (forall j, j ∈ l -> (j < length (spot c))%nat ->
       exists q sp q', spotComponent this lyraeCache j q = Ok (sp, q') /\
                       spot c' !! j = Some sp).
Proof.
  induction 1 as [|i l Hi Hnd IH]; intros c c' Hrun; simpl in Hrun.
  - inversion Hrun; subst. split; [reflexivity|]. split; [reflexivity|].
    intros j Hj. apply elem_of_nil in Hj. contradiction.
  - bind_inv Hrun. destruct (componentsStep_spot _ _ _ _ _ _ E) as (sp & q' & Hsp & Hv).
    destruct (IH _ _ Hrun) as (Hlen & Hout & Hin).
    rewrite Hv, length_insert in Hlen. split; [exact Hlen|]. split.
    + intros j Hj. apply not_elem_of_cons in Hj. destruct Hj as [Hne Hj].
      rewrite (Hout j Hj), Hv. apply list_lookup_insert_ne. congruence.
    + intros j Hj Hlt. apply elem_of_cons in Hj. destruct Hj as [->|Hj].
      * exists (quote c), sp, q'. split; [exact Hsp|].
        rewrite (Hout i Hi), Hv. apply list_lookup_insert_eq. exact Hlt.
      * apply Hin; [exact Hj|]. rewrite Hv, length_insert. exact Hlt.
Qed.

(** Every entry of the spot array that [getHealthComponents] returns is the
    value its loop body computed for that market. *)
Lemma getHealthComponents_spot (this : LyraeAccount) (lyraeGroup : LyraeGroup Z)
    (lyraeCache : LyraeCache Z) (c : Components) (i : nat) :
  getHealthComponents getQuotePosition this lyraeGroup lyraeCache = Ok c ->
  (i < numOracles lyraeGroup)%nat ->
  exists q sp q', spotComponent this lyraeCache i q = Ok (sp, q') /\
                  spot c !! i = Some sp.
Proof.
  unfold getHealthComponents, forLoop. intros H Hi. bind_inv H.
  destruct (foldM_components_spot this lyraeGroup lyraeCache
              (seq 0 (numOracles lyraeGroup)) (NoDup_seq _ _) _ _ H)
    as (_ & _ & Hin).
  apply Hin.
  - apply elem_of_seq. lia.
  - cbn. rewrite length_replicate. exact Hi.
Qed.

(** The quote bucket only passes through the loop body: the body run on a
    bucket shifted by [d] fails where it failed and returns the same
    position and the bucket shifted by [d]. *)
Ltac through_binds :=
  repeat (cbn [bind]; cbv zeta;
          match goal with
          | |- bind ?r _ = _ => destruct r as [?|?]
          | |- (if ?b then _ else _) = _ => destruct b
          | |- Ok _ = Ok _ => unfold iadd, isub; do 2 f_equal; lia
          | |- _ => reflexivity
          end).

Lemma spotComponent_shift (this : LyraeAccount) (lyraeCache : LyraeCache Z)
    (j : nat) (q d : Z) :
  spotComponent this lyraeCache j (q + d)
  = (let* (sp, q') := spotComponent this lyraeCache j q in Ok (sp, q' + d)).
Proof.
  unfold spotComponent.
  destruct (at_index (priceCache lyraeCache) j) as [pc|e]; cbn [bind];
    [|reflexivity].
  destruct (getNet this (rootBankCache lyraeCache !! j) j) as [baseNet|e];
    cbn [bind]; [|reflexivity].
  destruct (inMarginBasket this !! j) as [[|]|];
    destruct (mjoin (spotOpenOrdersAccounts this !! j)) as [oo|];
    try reflexivity.
  through_binds.
Qed.

Lemma perpComponent_shift (this : LyraeAccount) (lyraeGroup : LyraeGroup Z)
    (lyraeCache : LyraeCache Z) (j : nat) (q d : Z) :
  perpComponent getQuotePosition this lyraeGroup lyraeCache j (q + d)
  = (let* (p, q') :=
       perpComponent getQuotePosition this lyraeGroup lyraeCache j q in
     Ok (p, q' + d)).
Proof.
  unfold perpComponent. through_binds.
Qed.

Lemma shifted_Ok {A : Type} (r : Result (A * Z)) (d : Z) (a : A) (q : Z) :
  (let* (x, q') := r in Ok (x, q' + d)) = Ok (a, q) ->
  r = Ok (a, q - d).
Proof.
  destruct r as [[x q']|e]; cbn [bind]; intros H; inversion H.
  do 2 f_equal. lia.
Qed.

Lemma spotComponent_other (this : LyraeAccount) (lyraeCache : LyraeCache Z)
    (i j : nat) (q : Z) :
  j <> i ->
  spotComponent (Account.withoutOrders this i) lyraeCache j q
  = spotComponent this lyraeCache j q.
Proof.
  intros Hne. unfold spotComponent, getNet, Account.withoutOrders.
  cbn [inMarginBasket deposits borrows spotOpenOrdersAccounts].
  rewrite list_lookup_insert_ne by congruence. reflexivity.
Qed.

(** One turn of the loop for a market other than [i], on the account and
    on the account without the orders of market [i], from buckets that
    differ by [d] and spot arrays that differ by [upd]. *)
Lemma componentsStep_other (this : LyraeAccount) (lyraeGroup : LyraeGroup Z)
    (lyraeCache : LyraeCache Z) (i j : nat) (d : Z)
    (upd : list Z -> list Z) (c c0 c' : Components) :
  j <> i ->
  (forall l x, upd (<[j := x]> l) = <[j := x]> (upd l)) ->
  quote c = quote c0 + d -> perps c = perps c0 -> spot c = upd (spot c0) ->
  componentsStep getQuotePosition this lyraeGroup lyraeCache j c = Ok c' ->
  exists c0',
    componentsStep getQuotePosition (Account.withoutOrders this i)
      lyraeGroup lyraeCache j c0 = Ok c0' /\
    quote c' = quote c0' + d /\ perps c' = perps c0' /\
    spot c' = upd (spot c0').
Proof.
  intros Hne Hupd Hq Hp Hs H. unfold componentsStep in *.
  bind_inv H. destruct v as [sp q1]. bind_inv H. destruct v as [p q2].
  inversion H; subst c'; clear H. cbn [spot perps quote].
  rewrite Hq, spotComponent_shift in E. apply shifted_Ok in E.
  rewrite (spotComponent_other this lyraeCache i j _ Hne), E. cbn [bind].
  replace q1 with ((q1 - d) + d) in E0 by lia.
  rewrite perpComponent_shift in E0. apply shifted_Ok in E0.
  change (perpComponent getQuotePosition (Account.withoutOrders this i))
    with (perpComponent getQuotePosition this).
  rewrite E0. cbn [bind]. eexists. split; [reflexivity|].
  cbn [spot perps quote]. rewrite Hp, Hs, Hupd.
  split; [lia|]. split; reflexivity.
Qed.

Lemma foldM_components_other (this : LyraeAccount) (lyraeGroup : LyraeGroup Z)
    (lyraeCache : LyraeCache Z) (i : nat) (d : Z)
    (upd : list Z -> list Z) (l : list nat) :
  i ∉ l ->
  (forall j l x, j <> i -> upd (<[j := x]> l) = <[j := x]> (upd l)) ->
  forall c c0 c',
    quote c = quote c0 + d -> perps c = perps c0 -> spot c = upd (spot c0) ->
    foldM (componentsStep getQuotePosition this lyraeGroup lyraeCache) l c
    = Ok c' ->
    exists c0',
      foldM (componentsStep getQuotePosition (Account.withoutOrders this i)
               lyraeGroup lyraeCache) l c0 = Ok c0' /\
      quote c' = quote c0' + d /\ perps c' = perps c0' /\
      spot c' = upd (spot c0').
Proof.
  intros Hi Hupd. induction l as [|j l IH]; intros c c0 c' Hq Hp Hs Hrun;
    cbn [foldM] in *.
  - inversion Hrun; subst c'. eauto.
  - apply not_elem_of_cons in Hi. destruct Hi as [Hne Hi].
    bind_inv Hrun.
    destruct (componentsStep_other this lyraeGroup lyraeCache i j d upd
                c c0 v ltac:(congruence) (fun l x => Hupd j l x ltac:(congruence))
                Hq Hp Hs E) as (c1 & Hc1 & Hq1 & Hp1 & Hs1).
    rewrite Hc1. cbn [bind]. exact (IH Hi _ _ _ Hq1 Hp1 Hs1 Hrun).
Qed.

Lemma foldM_app {S : Type} (body : nat -> S -> Result S) (l1 l2 : list nat)
    (s : S) :
  foldM body (l1 ++ l2) s = (let* s1 := foldM body l1 s in foldM body l2 s1).
Proof.
  revert s. induction l1 as [|i l1 IH]; intros s; cbn [app foldM bind];
    [reflexivity|].
  destruct (body i s) as [s1|e]; cbn [bind]; [apply IH | reflexivity].
Qed.

(** What one turn of the loop adds to the quote bucket is what its spot
    half and its perp half add to an empty bucket. *)
Lemma componentsStep_adds (this : LyraeAccount) (lyraeGroup : LyraeGroup Z)
    (lyraeCache : LyraeCache Z) (j : nat) (c c' : Components) :
  componentsStep getQuotePosition this lyraeGroup lyraeCache j c = Ok c' ->
  exists sp a p b,
    spotComponent this lyraeCache j 0 = Ok (sp, a) /\
    perpComponent getQuotePosition this lyraeGroup lyraeCache j 0 = Ok (p, b) /\
    c' = {| spot := <[j := sp]> (spot c);
            perps := <[j := p]> (perps c);
            quote := Health.quote c + (a + b) |}.
Proof.
  unfold componentsStep. intros H.
  bind_inv H. destruct v as [sp q1]. bind_inv H. destruct v as [p q2].
  inversion H; subst c'; clear H.
  replace (Health.quote c) with (0 + Health.quote c) in E by lia.
  rewrite spotComponent_shift in E. apply shifted_Ok in E.
  replace q1 with (0 + q1) in E0 at 1 by lia.
  rewrite perpComponent_shift in E0. apply shifted_Ok in E0.
  exists sp, (q1 - Health.quote c), p, (q2 - q1).
  split; [exact E|]. split; [exact E0|]. f_equal. lia.
Qed.

Lemma foldM_components_adds (this : LyraeAccount) (lyraeGroup : LyraeGroup Z)
    (lyraeCache : LyraeCache Z) (m : nat) :
  forall (s : nat) (c c' : Components),
    (s + m <= length (spot c))%nat -> (s + m <= length (perps c))%nat ->
    foldM (componentsStep getQuotePosition this lyraeGroup lyraeCache)
      (seq s m) c = Ok c' ->
    exists adds : list Z,
      length adds = m /\
      Health.quote c' = Health.quote c + foldr Z.add 0 adds /\
      length (spot c') = length (spot c) /\
      length (perps c') = length (perps c) /\
      (forall j, (j < s)%nat ->
         spot c' !! j = spot c !! j /\ perps c' !! j = perps c !! j) /\
      (forall k, (k < m)%nat ->
         exists sp a p b,
           spotComponent this lyraeCache (s + k) 0 = Ok (sp, a) /\
           perpComponent getQuotePosition this lyraeGroup lyraeCache (s + k) 0
           = Ok (p, b) /\
           adds !! k = Some (a + b) /\
           spot c' !! (s + k)%nat = Some sp /\
           perps c' !! (s + k)%nat = Some p).
Proof.
  induction m as [|m IH]; intros s c c' Hls Hlp Hrun; cbn [seq foldM] in Hrun.
  - inversion Hrun; subst c'. exists []. cbn.
    split; [reflexivity|]. split; [lia|]. split; [reflexivity|].
    split; [reflexivity|]. split; [tauto|]. intros k Hk. lia.
  - bind_inv Hrun. rename v into c1.
    destruct (componentsStep_adds this lyraeGroup lyraeCache s c c1 E)
      as (sp & a & p & b & Hsp & Hpp & ->).
    apply IH in Hrun;
      [|cbn [spot]; rewrite length_insert; lia
       |cbn [perps]; rewrite length_insert; lia].
    destruct Hrun as (adds & Hlen & Hq & Hl1 & Hl2 & Hkeep & Hall).
    cbn [spot perps Health.quote] in *. rewrite length_insert in Hl1, Hl2.
    exists ((a + b) :: adds). cbn [length foldr].
    split; [lia|]. split; [lia|]. split; [exact Hl1|]. split; [exact Hl2|].
    split.
    + intros j Hj. destruct (Hkeep j ltac:(lia)) as [H1 H2].
      rewrite H1, H2. split; apply list_lookup_insert_ne; lia.
    + intros [|k] Hk.
      * rewrite Nat.add_0_r. exists sp, a, p, b.
        split; [exact Hsp|]. split; [exact Hpp|]. split; [reflexivity|].
        destruct (Hkeep s ltac:(lia)) as [H1 H2]. rewrite H1, H2.
        split; apply list_lookup_insert_eq; lia.
      * destruct (Hall k ltac:(lia)) as (sp' & a' & p' & b' & H1 & H2 & H3 & H4 & H5).
        replace (s + S k)%nat with (S s + k)%nat by lia.
        exists sp', a', p', b'. tauto.
Qed.

Lemma seq_split_at (n i : nat) :
  (i < n)%nat -> seq 0 n = seq 0 i ++ i :: seq (S i) (n - S i).
Proof.
  intros Hi. replace n with (i + S (n - S i))%nat at 1 by lia.
  rewrite seq_app. reflexivity.
Qed.

(** C2: for a market whose open-orders account is loaded and in the margin
    basket, the loop body of [getHealthComponents] forms the position if all
    resting bids execute ([bids]) and if all resting asks execute ([asks]),
    selects the one of larger absolute value (the asks one on a tie) and adds
    to the quote bucket the adjustment of the hypothesis it selected.  Both
    are applied to what [getHealthComponents] returns: against the
    components of the same account with that market out of its margin
    basket, which has the confirmed net as the position of the market, the
    components of the account have the selected position in the place of
    the net, the quote bucket larger by exactly the adjustment of the
    selected hypothesis, and nothing else changed.  And the quote bucket
    returned is, for every account, the net quote balance plus, for each
    market, what the spot half and the perp half of the loop body add to an
    empty bucket, while the two arrays hold the positions those halves
    return. *)
Theorem spot_orders_hypotheses (this : LyraeAccount) (lyraeGroup : LyraeGroup Z)
    (lyraeCache : LyraeCache Z) (i : nat) (quote : Z) (oo : OpenOrders)
    (pc : PriceCache Z) (baseNet : Z) (s : SplitOpenOrders) :
  inMarginBasket this !! i = Some true ->
  spotOpenOrdersAccounts this !! i = Some (Some oo) ->
  priceCache lyraeCache !! i = Some pc ->
  getNet this (rootBankCache lyraeCache !! i) i = Ok baseNet ->
  splitOpenOrders oo = Ok s ->
  price pc <> 0 ->
  let lockedBase := Z.quot (quoteLocked s * 2 ^ 48) (price pc) in
  let bids := baseNet + lockedBase + baseFree s + baseLocked s in
  let asks := baseNet + baseFree s in
  let lockedValue := Z.quot (baseLocked s * price pc) (2 ^ 48) in
  InRange lockedBase -> InRange (baseNet + lockedBase) -> InRange asks ->
  InRange (Z.abs bids) -> InRange (Z.abs asks) ->
  (Z.abs bids <= Z.abs asks -> InRange lockedValue) ->
  spotComponent this lyraeCache i quote
  = Ok (if Z.abs bids >? Z.abs asks
        then (bids, quote + quoteFree s)
        else (asks, quote + lockedValue + quoteFree s + quoteLocked s)) /\
  Z.abs (if Z.abs bids >? Z.abs asks then bids else asks)
  = Z.max (Z.abs bids) (Z.abs asks) /\
  (forall c : Components,
     getHealthComponents getQuotePosition this lyraeGroup lyraeCache = Ok c ->
     (i < numOracles lyraeGroup)%nat ->
     spot c !! i = Some (if Z.abs bids >? Z.abs asks then bids else asks)) /\
  (forall c : Components,
     getHealthComponents getQuotePosition this lyraeGroup lyraeCache = Ok c ->
     (i < numOracles lyraeGroup)%nat ->
     exists c0 : Components,
       getHealthComponents getQuotePosition (Account.withoutOrders this i)
         lyraeGroup lyraeCache = Ok c0 /\
       spot c0 !! i = Some baseNet /\
       spot c
       = <[i := if Z.abs bids >? Z.abs asks then bids else asks]> (spot c0) /\
       perps c = perps c0 /\
       Health.quote c
       = Health.quote c0
         + (if Z.abs bids >? Z.abs asks then quoteFree s
            else lockedValue + quoteFree s + quoteLocked s)) /\
  (forall c : Components,
     getHealthComponents getQuotePosition this lyraeGroup lyraeCache = Ok c ->
     exists (quoteNet : Z) (adds : list Z),
       getNet this (rootBankCache lyraeCache !! QUOTE_INDEX) QUOTE_INDEX
       = Ok quoteNet /\
       length adds = numOracles lyraeGroup /\
       Health.quote c = quoteNet + foldr Z.add 0 adds /\
       (forall j, (j < numOracles lyraeGroup)%nat ->
          exists sp a p b,
            spotComponent this lyraeCache j 0 = Ok (sp, a) /\
            perpComponent getQuotePosition this lyraeGroup lyraeCache j 0
            = Ok (p, b) /\
            adds !! j = Some (a + b) /\
            spot c !! j = Some sp /\ perps c !! j = Some p)).
Proof.
  intros Hb Ho Hp Hn Hs Hpr lockedBase bids asks lockedValue
    Hr1 Hr2 Hr3 Hr4 Hr5 Hr6.
  pose proof (fun q => spotComponent_with_orders this lyraeCache i q oo pc
                         baseNet s Hb Ho Hp Hn Hs Hpr Hr1 Hr2 Hr3 Hr4 Hr5 Hr6)
    as Hbody.
  cbv zeta in Hbody. fold lockedBase bids asks lockedValue in Hbody.
  split; [exact (proj1 (Hbody quote))|]. split; [exact (proj2 (Hbody quote))|].
  split.
  { intros c Hc Hi.
    destruct (getHealthComponents_spot this lyraeGroup lyraeCache c i Hc Hi)
      as (q & sp & q' & Hrun & Hsp).
    rewrite (proj1 (Hbody q)) in Hrun. rewrite Hsp. f_equal.
    destruct (Z.abs bids >? Z.abs asks); inversion Hrun; reflexivity. }
  split; cycle 1.
  { intros c Hc. unfold getHealthComponents, forLoop in Hc. cbv zeta in Hc.
    bind_inv Hc. rename v into q0.
    apply foldM_components_adds in Hc;
      [|cbn [spot]; rewrite length_replicate; lia
       |cbn [perps]; rewrite length_replicate; lia].
    destruct Hc as (adds & Hlen & Hq & _ & _ & _ & Hall).
    exists q0, adds. split; [exact E|]. split; [exact Hlen|].
    split; [exact Hq|]. intros j Hj. exact (Hall j Hj). }
  intros c Hc Hi.
  set (chosen := if Z.abs bids >? Z.abs asks then bids else asks).
  set (adj := if Z.abs bids >? Z.abs asks then quoteFree s
              else lockedValue + quoteFree s + quoteLocked s).
  assert (Hspot : forall q,
             spotComponent this lyraeCache i q = Ok (chosen, q + adj)).
  { intros q. rewrite (proj1 (Hbody q)). subst chosen adj.
    destruct (Z.abs bids >? Z.abs asks); do 2 f_equal; lia. }
  assert (Hbare : forall q,
             spotComponent (Account.withoutOrders this i) lyraeCache i q
             = Ok (baseNet, q)).
  { intros q. unfold spotComponent.
    apply at_index_Ok in Hp. rewrite Hp. cbn [bind].
    change (getNet (Account.withoutOrders this i)) with (getNet this).
    rewrite Hn. cbn [bind]. unfold Account.withoutOrders.
    cbn [inMarginBasket spotOpenOrdersAccounts].
    rewrite list_lookup_insert_eq
      by (apply lookup_lt_is_Some; eexists; exact Hb).
    reflexivity. }
  unfold getHealthComponents, forLoop in *. cbv zeta in *.
  change (getNet (Account.withoutOrders this i)) with (getNet this).
  bind_inv Hc. rename v into q0. rewrite E. cbn [bind].
  set (n := numOracles lyraeGroup) in *.
  rewrite (seq_split_at n i Hi), foldM_app in Hc |- *.
  bind_inv Hc. rename v into c1, E0 into Hc1.
  destruct (foldM_components_other this lyraeGroup lyraeCache i 0
              (fun l => l) (seq 0 i)
              ltac:(rewrite elem_of_seq; lia) ltac:(reflexivity)
              {| spot := replicate n ZERO_I80F48;
                 perps := replicate n ZERO_I80F48; quote := q0 |}
              {| spot := replicate n ZERO_I80F48;
                 perps := replicate n ZERO_I80F48; quote := q0 |} c1
              ltac:(cbn; lia) eq_refl eq_refl Hc1)
    as (d1 & Hd1 & Hq1 & Hp1 & Hs1).
  rewrite Hd1. cbn [bind foldM] in Hc |- *.
  bind_inv Hc. rename v into c2, E0 into Hc2.
  unfold componentsStep in Hc2 |- *.
  rewrite Hspot in Hc2. cbn [bind] in Hc2. rewrite Hbare. cbn [bind].
  bind_inv Hc2. destruct v as [p q2]. inversion Hc2; subst c2; clear Hc2.
  rewrite Hq1 in E0.
  replace (Health.quote d1 + 0 + adj) with (Health.quote d1 + adj) in E0
    by lia.
  rewrite perpComponent_shift in E0. apply shifted_Ok in E0.
  change (perpComponent getQuotePosition (Account.withoutOrders this i))
    with (perpComponent getQuotePosition this).
  rewrite E0. cbn [bind].
  destruct (foldM_components_other this lyraeGroup lyraeCache i adj
              (fun l => <[i := chosen]> l) (seq (S i) (n - S i))
              ltac:(rewrite elem_of_seq; lia)
              ltac:(intros j l x Hj; cbv beta; apply list_insert_insert_ne; congruence)
              {| spot := <[i := chosen]> (spot c1);
                 perps := <[i := p]> (perps c1);
                 quote := q2 |}
              {| spot := <[i := baseNet]> (spot d1);
                   perps := <[i := p]> (perps d1);
                   quote := q2 - adj |} c
              ltac:(cbn; lia)
              ltac:(cbn; rewrite Hp1; reflexivity)
              ltac:(cbn; rewrite Hs1, list_insert_insert_eq; reflexivity)
              Hc)
    as (c0 & Hc0 & Hq & Hpp & Hss).
  exists c0. split; [exact Hc0|].
  destruct (foldM_components_spot (Account.withoutOrders this i) lyraeGroup
              lyraeCache (seq (S i) (n - S i)) (NoDup_seq _ _) _ _ Hc0)
    as (_ & Hout & _).
  destruct (foldM_components_spot (Account.withoutOrders this i) lyraeGroup
              lyraeCache (seq 0 i) (NoDup_seq _ _) _ _ Hd1)
    as (Hlen1 & _ & _).
  cbn [spot] in Hlen1, Hout. rewrite length_replicate in Hlen1.
  split.
  { rewrite (Hout i) by (rewrite elem_of_seq; lia).
    apply list_lookup_insert_eq. lia. }
  split; [exact Hss|]. split; [exact Hpp | exact Hq].
Qed.

End SpotOrders.

Lemma spot_orders_hypotheses_witness :
  Health.spotComponent Examples.trader Examples.cache 0 (Examples.whole 1000)
  = Ok (Examples.whole 7, Examples.whole 1005) /\
  exists c0 : Health.Components,
    Health.getHealthComponents Examples.storedQuotePosition
      (Account.withoutOrders Examples.trader 0) Examples.group Examples.cache
    = Ok c0 /\
    Health.quote c0 = Examples.whole 1000 /\
    Examples.whole 1005 = Health.quote c0 + Examples.whole 5.
Proof.
  pose proof (spot_orders_hypotheses Examples.storedQuotePosition
            Examples.trader Examples.group Examples.cache 0
            (Examples.whole 1000) Examples.orders
            {| Entities.price := Examples.whole 10; Entities.price_lastUpdate := 0 |}
            (Examples.whole 2)
            {| Health.quoteFree := Examples.whole 5;
               Health.quoteLocked := Examples.whole 20;
               Health.baseFree := Examples.whole 1;
               Health.baseLocked := Examples.whole 2 |}
            eq_refl eq_refl eq_refl eq_refl eq_refl) as H.
  cbv zeta in H.
  destruct H as (Hbody & _ & _ & Hwhole & _);
    try discriminate;
    try (apply InRange_bounds; vm_compute; split; discriminate).
  { intros _. apply InRange_bounds. vm_compute. split; discriminate. }
  split; [exact Hbody|].
  destruct (Hwhole {| Health.spot := [Examples.whole 7];
                      Health.perps := [0];
                      Health.quote := Examples.whole 1005 |})
    as (c0 & Hc0 & _ & _ & _ & Hq).
  - vm_compute. reflexivity.
  - cbn. lia.
  - exists c0. split; [exact Hc0|].
    assert (Hval : Health.quote c0 = Examples.whole 1000).
    { vm_compute in Hc0. inversion Hc0. reflexivity. }
    split; [exact Hval|]. rewrite Hval. reflexivity.
Defined.

(* --------------------------------------------------------------------- *)
(** ** Legacy instruction encodings *)

Section Legacy.
Import Layout.

Lemma slice_app (b p : Buffer) (offset span : nat) :
  (offset + span <= length b)%nat ->
  slice (b ++ p) offset span = slice b offset span.
Proof.
  intros H. unfold slice. rewrite drop_app_le by lia.
  apply take_app_le. rewrite length_drop. lia.
Qed.

Lemma readUIntLE_Ok (b : Buffer) (offset span : nat) (v : Z) :
  readUIntLE b offset span = Ok v ->
  (offset + span <= length b)%nat /\ v = BN.of_le_bytes (slice b offset span).
Proof.
  unfold readUIntLE.
  destruct (Nat.leb_spec (offset + span) (length b)) as [Hle|Hgt];
    intros Hv; inversion Hv. split; [assumption | reflexivity].
Qed.

Lemma readUIntLE_app (b p : Buffer) (offset span : nat) (v : Z) :
  readUIntLE b offset span = Ok v -> readUIntLE (b ++ p) offset span = Ok v.
Proof.
  intros H. apply readUIntLE_Ok in H. destruct H as [Hlen ->].
  unfold readUIntLE. rewrite length_app.
  destruct (Nat.leb_spec (offset + span) (length b + length p)); [|lia].
  rewrite slice_app by assumption. reflexivity.
Qed.

(** The decoder of the instruction union is the plain union decoder on the
    buffer extended by the legacy padding of its discriminant and length:
    one zero byte for (11, 144) and (12, 30), two for (37, 141), none for
    any other buffer. *)
Lemma decode_pads_legacy (registry : Registry) (b : Buffer) (offset : nat)
    (discr : Z) :
  readUIntLE b offset discriminatorSpan = Ok discr ->
  LyraeInstructionsUnion_decode registry b offset
  = Union_decode registry (b ++ legacyPadding discr (length b)) offset.
Proof.
  intros H. unfold LyraeInstructionsUnion_decode, legacyPadding.
  rewrite H. cbn [bind].
  destruct ((discr =? 11) && (length b =? 144)%nat
            || (discr =? 12) && (length b =? 30)%nat); [reflexivity|].
  destruct ((discr =? 37) && (length b =? 141)%nat); [reflexivity|].
  rewrite app_nil_r. reflexivity.
Qed.

(** A buffer of none of the three pairs is decoded as it is. *)
Lemma decode_unpadded (registry : Registry) (b : Buffer) (offset : nat)
    (discr : Z) :
  readUIntLE b offset discriminatorSpan = Ok discr ->
  ~ (discr = 11 /\ length b = 144%nat) ->
  ~ (discr = 12 /\ length b = 30%nat) ->
  ~ (discr = 37 /\ length b = 141%nat) ->
  LyraeInstructionsUnion_decode registry b offset
  = Union_decode registry b offset.
Proof.
  intros H N1 N2 N3. rewrite (decode_pads_legacy registry b offset discr H).
  unfold legacyPadding.
  destruct (Z.eqb_spec discr 11), (Nat.eqb_spec (length b) 144);
    try tauto; cbn [andb orb];
    destruct (Z.eqb_spec discr 12), (Nat.eqb_spec (length b) 30);
    try tauto; cbn [andb orb];
    destruct (Z.eqb_spec discr 37), (Nat.eqb_spec (length b) 141);
    try tauto; cbn [andb orb]; rewrite app_nil_r; reflexivity.
Qed.

(** For (12, 30) and (37, 141) the padded buffer has exactly the span of the
    current variant, and decoding the short buffer is decoding the padded
    one, by the union decoder or by this decoder again. *)
Lemma legacy_padded_to_span (b : Buffer) (discr : Z) :
  readUIntLE b 0 discriminatorSpan = Ok discr ->
  (discr = 12 /\ length b = 30%nat) \/ (discr = 37 /\ length b = 141%nat) ->
  let padded := b ++ legacyPadding discr (length b) in
  variantSpan LyraeInstructionLayout discr = Some (length padded) /\
  LyraeInstructionsUnion_decode LyraeInstructionLayout b 0
  = Union_decode LyraeInstructionLayout padded 0 /\
  LyraeInstructionsUnion_decode LyraeInstructionLayout b 0
  = LyraeInstructionsUnion_decode LyraeInstructionLayout padded 0.
Proof.
  intros Hd Hcase padded.
  assert (Hpad : LyraeInstructionsUnion_decode LyraeInstructionLayout b 0
                 = Union_decode LyraeInstructionLayout padded 0)
    by (apply decode_pads_legacy, Hd).
  assert (Hd' : readUIntLE padded 0 discriminatorSpan = Ok discr)
    by (apply readUIntLE_app, Hd).
  split; [|split; [exact Hpad|]].
  - subst padded. rewrite length_app.
    destruct Hcase as [[-> ->] | [-> ->]]; reflexivity.
  - rewrite Hpad. rewrite (decode_pads_legacy _ padded 0 discr Hd').
    replace (legacyPadding discr (length padded)) with (@nil Z).
    + rewrite app_nil_r. reflexivity.
    + subst padded. rewrite length_app.
      destruct Hcase as [[-> ->] | [-> ->]]; reflexivity.
Qed.

Lemma decodeStruct_last (fields : Struct) (property : string) (f : Field)
    (b : Buffer) (offset : nat) (dest : list (string * Value)) :
  decodeStruct (fields ++ [(property, f)]) b offset = Ok dest ->
  exists v, decodeField f b (offset + structSpan fields) = Ok v.
Proof.
  revert offset dest. induction fields as [|[p fd] fields IH];
    intros offset dest H; simpl in H.
  - bind_inv H. exists v. cbn. rewrite Nat.add_0_r. exact E.
  - bind_inv H. bind_inv H. destruct (IH _ _ E0) as [x Hx].
    exists x. cbn. rewrite Nat.add_assoc. exact Hx.
Qed.

(** No buffer of the legacy pair (11, 144) decodes: one zero byte extends it
    to 145 bytes, and the last field of the variant, [exp], is read at
    offset 148. *)
Lemma legacy_AddPerpMarket_never_decodes (b : Buffer) :
  length b = 144%nat ->
  readUIntLE b 0 discriminatorSpan = Ok 11 ->
  exists e, LyraeInstructionsUnion_decode LyraeInstructionLayout b 0 = Err e.
Proof.
  intros Hlen Hd. rewrite (decode_pads_legacy _ b 0 11 Hd).
  rewrite Hlen. change (legacyPadding 11 144) with [0].
  destruct (Union_decode LyraeInstructionLayout (b ++ [0]) 0)
    as [r|e] eqn:Hr; [exfalso | eauto].
  unfold Union_decode in Hr.
  rewrite (readUIntLE_app b [0] 0 _ 11 Hd) in Hr. cbn [bind] in Hr.
  change (lookupVariant LyraeInstructionLayout 11) with
    (Some ("AddPerpMarket"%string,
           [("maintLeverage", I80F48Layout); ("initLeverage", I80F48Layout);
            ("liquidationFee", I80F48Layout); ("makerFee", I80F48Layout);
            ("takerFee", I80F48Layout); ("baseLotSize", i64);
            ("quoteLotSize", i64); ("rate", I80F48Layout);
            ("maxDepthBps", I80F48Layout); ("targetPeriodLength", u64);
            ("lyrPerPeriod", u64)]%string ++ [("exp"%string, u8)])) in Hr.
  cbv iota beta in Hr. bind_inv Hr.
  apply decodeStruct_last in E. destruct E as [x Hx].
  cbn [decodeField u8] in Hx. bind_inv Hx.
  apply readUIntLE_Ok in E. destruct E as [Hbound _].
  rewrite length_app, Hlen in Hbound. cbn in Hbound. lia.
Qed.

End Legacy.

(** C3 on the code: for the legacy pair (11, 144) the decoder appends one zero
    byte, which makes 145 bytes where the current [AddPerpMarket] variant
    spans 149; the read of its last field runs past the end of the buffer and
    the decode fails, while the same buffer zero-padded to the variant's span
    decodes.  An encoding one byte short of the current variant, 148 bytes,
    is not of the pair, is left as it is, and fails the same way.  The pair
    (12, 30) is padded to its variant's span, 31 bytes, and decodes as the
    padded buffer does. *)
Theorem legacy_AddPerpMarket_decode_fails :
  length Examples.legacyAddPerpMarket = 144%nat /\
  Layout.variantSpan Layout.LyraeInstructionLayout 11 = Some 149%nat /\
  Layout.LyraeInstructionsUnion_decode Layout.LyraeInstructionLayout
    Examples.legacyAddPerpMarket 0 = Err OutOfBounds /\
  Layout.LyraeInstructionsUnion_decode Layout.LyraeInstructionLayout
    (Examples.legacyAddPerpMarket ++ replicate 5 0) 0
  = Ok ("AddPerpMarket"%string,
        [("maintLeverage", Layout.VFixed 0); ("initLeverage", Layout.VFixed 0);
         ("liquidationFee", Layout.VFixed 0); ("makerFee", Layout.VFixed 0);
         ("takerFee", Layout.VFixed 0); ("baseLotSize", Layout.VNum 0);
         ("quoteLotSize", Layout.VNum 0); ("rate", Layout.VFixed 0);
         ("maxDepthBps", Layout.VFixed 0); ("targetPeriodLength", Layout.VNum 0);
         ("lyrPerPeriod", Layout.VNum 0); ("exp", Layout.VNum 0)]%string) /\
  Layout.LyraeInstructionsUnion_decode Layout.LyraeInstructionLayout
    (Examples.legacyAddPerpMarket ++ replicate 4 0) 0 = Err OutOfBounds /\
  Layout.variantSpan Layout.LyraeInstructionLayout 12 = Some 31%nat /\
  Layout.LyraeInstructionsUnion_decode Layout.LyraeInstructionLayout
    Examples.legacyPlacePerpOrder 0
  = Layout.LyraeInstructionsUnion_decode Layout.LyraeInstructionLayout
      (Examples.legacyPlacePerpOrder ++ [0]) 0 /\
  Layout.LyraeInstructionsUnion_decode Layout.LyraeInstructionLayout
    Examples.legacyPlacePerpOrder 0
  = Ok ("PlacePerpOrder"%string,
        [("price", Layout.VNum 5); ("quantity", Layout.VNum 2);
         ("clientOrderId", Layout.VNum 9); ("side", Layout.VName "sell");
         ("orderType", Layout.VName "ioc");
         ("reduceOnly", Layout.VBool false)]%string).
Proof.
  split; [reflexivity|]. split; [reflexivity|].
  split; [vm_compute; reflexivity|]. split; [vm_compute; reflexivity|].
  split; [vm_compute; reflexivity|]. split; [reflexivity|].
  split; vm_compute; reflexivity.
Qed.

(* --------------------------------------------------------------------- *)
(** ** PnL settlement *)

Section Settlement.
Import I80F48 Entities Settle.

(** C5, as the claim states it, fails: a subject with a remaining PnL of 5
    raw units matched against one counterparty at -100 is left at -95, a
    magnitude of 95 where it was 5, after offsetting 100.  And the loop also
    ends where the claim has no case for it: over a pool that holds only the
    subject's own account it ends with the sign unchanged and no instruction
    in the transaction. *)
Lemma settle_overshoots :
  settleLoop 1 1 [ {| publicKey := 2; pnl := -100 |} ] 5 []
  = Ok (-95, [SettlePnl 2]) /\
  Z.abs 5 < Z.abs (-95) /\
  Z.abs 5 < Z.abs (sumPnl [ {| publicKey := 2; pnl := -100 |} ]) /\
  settleLoop 1 1 [ {| publicKey := 1; pnl := -100 |} ] 5 [] = Ok (5, []).
Proof.
  split; [reflexivity|]. split; [reflexivity|]. split; reflexivity.
Qed.

Lemma sumPnl_nil : sumPnl [] = 0.
Proof. reflexivity. Qed.

Lemma sumPnl_cons (a : AccountWithPnl) (l : list AccountWithPnl) :
  sumPnl (a :: l) = Settle.pnl a + sumPnl l.
Proof. reflexivity. Qed.

Lemma settleLoop_zero (self : PublicKey) (sign : Z)
    (accounts : list AccountWithPnl) (instrs : list Instruction) :
  settleLoop self sign accounts 0 instrs = Ok (0, instrs).
Proof.
  induction accounts as [|a rest IH]; [reflexivity|].
  cbn [settleLoop]. destruct (PublicKey_equals (publicKey a) self); [exact IH|].
  change (isPos 0) with false. change (isNeg 0) with false.
  cbn [andb orb]. exact IH.
Qed.

Lemma add_opposite (a b : Z) :
  InRange a -> InRange b -> a * b <= 0 -> add a b = Ok (a + b).
Proof.
  intros Ha Hb Hab. apply new_InRange.
  assert (Hs : (a <= 0 /\ 0 <= b) \/ (0 <= a /\ b <= 0)) by nia.
  range_bounds. lia.
Qed.

Lemma match_condition (sign pnl a : Z) :
  (sign = 1 /\ 0 < pnl) \/ (sign = -1 /\ pnl < 0) ->
  (isPos pnl && isNeg a) || (isNeg pnl && isPos a) = (sign * a <? 0).
Proof.
  unfold isPos, isNeg, gt, ZERO_I80F48.
  intros [[-> Hp] | [-> Hp]];
    destruct (Z.gtb_spec pnl 0); destruct (Z.ltb_spec pnl 0); try lia;
    destruct (Z.gtb_spec a 0); destruct (Z.ltb_spec a 0); try lia;
    cbn [andb orb]; symmetry;
    first [apply Z.ltb_lt; lia | apply Z.ltb_ge; lia].
Qed.

Lemma opposite_true (self : PublicKey) (sign : Z) (a : AccountWithPnl) :
  opposite self sign a = true <->
  publicKey a <> self /\ sign * Settle.pnl a < 0.
Proof.
  unfold opposite, PublicKey_equals.
  destruct (Z.eqb_spec (publicKey a) self);
    destruct (Z.ltb_spec (sign * Settle.pnl a) 0); cbn; split;
    try tauto; try discriminate; intros [? ?]; try contradiction; lia.
Qed.

(** One turn of the loop on a remaining PnL of the sign passed: the
    candidate is skipped (it is the subject, its PnL is not of the opposite
    sign, or the transaction holds 10 instructions), or it is matched and
    the loop is left (the remaining PnL is no longer of the sign), or it is
    matched and the loop goes on. *)
Lemma settleLoop_cons (self : PublicKey) (sign : Z) (a : AccountWithPnl)
    (rest : list AccountWithPnl) (pnl : Z) (instrs : list Instruction) :
  (sign = 1 /\ 0 < pnl) \/ (sign = -1 /\ pnl < 0) ->
  InRange pnl -> InRange (Settle.pnl a) ->
  (opposite self sign a = false /\
   settleLoop self sign (a :: rest) pnl instrs
   = settleLoop self sign rest pnl instrs) \/
  (opposite self sign a = true /\ (10 <= length instrs)%nat /\
   settleLoop self sign (a :: rest) pnl instrs
   = settleLoop self sign rest pnl instrs) \/
  (opposite self sign a = true /\ (length instrs < 10)%nat /\
   InRange (pnl + Settle.pnl a) /\ sign * (pnl + Settle.pnl a) <= 0 /\
   settleLoop self sign (a :: rest) pnl instrs
   = Ok (pnl + Settle.pnl a, instrs ++ [SettlePnl (publicKey a)])) \/
  (opposite self sign a = true /\ (length instrs < 10)%nat /\
   InRange (pnl + Settle.pnl a) /\
   ((sign = 1 /\ 0 < pnl + Settle.pnl a) \/
    (sign = -1 /\ pnl + Settle.pnl a < 0)) /\
   settleLoop self sign (a :: rest) pnl instrs
   = settleLoop self sign rest (pnl + Settle.pnl a)
       (instrs ++ [SettlePnl (publicKey a)])).
Proof.
  intros Hsign Hr Ha. cbn [settleLoop].
  destruct (opposite self sign a) eqn:Hopp.
  - apply opposite_true in Hopp. destruct Hopp as [Hne Hlt].
    unfold PublicKey_equals. destruct (Z.eqb_spec (publicKey a) self) as [|_];
      [contradiction|].
    rewrite (match_condition sign pnl (Settle.pnl a) Hsign).
    destruct (Z.ltb_spec (sign * Settle.pnl a) 0) as [_|]; [|lia].
    cbn [andb]. right.
    destruct (Nat.ltb_spec (length instrs) 10) as [Hcap|Hcap];
      [|left; split; [reflexivity|]; split; [exact Hcap | reflexivity]].
    right.
    assert (Hprod : pnl * Settle.pnl a <= 0)
      by (destruct Hsign as [[-> Hp] | [-> Hp]]; nia).
    rewrite add_opposite by assumption. cbn [bind].
    assert (Hr1 : InRange (pnl + Settle.pnl a)).
    { assert (Hs : (pnl <= 0 /\ 0 <= Settle.pnl a)
                   \/ (0 <= pnl /\ Settle.pnl a <= 0)) by nia.
      range_bounds. lia. }
    unfold gt, ZERO_I80F48.
    destruct Hsign as [[-> Hp] | [-> Hp]];
      destruct (Z.gtb_spec (pnl + Settle.pnl a) 0) as [Hpos|Hnpos];
      cbn [Z.eqb negb].
    + right. split; [reflexivity|]. split; [exact Hcap|]. split; [exact Hr1|].
      split; [left; split; [reflexivity | exact Hpos] | reflexivity].
    + left. split; [reflexivity|]. split; [exact Hcap|]. split; [exact Hr1|].
      split; [lia | reflexivity].
    + left. split; [reflexivity|]. split; [exact Hcap|]. split; [exact Hr1|].
      split; [lia | reflexivity].
    + destruct (Z.eq_dec (pnl + Settle.pnl a) 0) as [Hz|Hnz].
      * left. split; [reflexivity|]. split; [exact Hcap|]. split; [exact Hr1|].
        split; [lia|]. rewrite Hz. apply settleLoop_zero.
      * right. split; [reflexivity|]. split; [exact Hcap|]. split; [exact Hr1|].
        split; [right; split; [reflexivity | lia] | reflexivity].
  - left. split; [reflexivity|].
    unfold opposite, PublicKey_equals in Hopp.
    unfold PublicKey_equals.
    destruct (Z.eqb_spec (publicKey a) self) as [|_]; [reflexivity|].
    cbn [negb andb] in Hopp.
    rewrite (match_condition sign pnl (Settle.pnl a) Hsign), Hopp.
    reflexivity.
Qed.

(** C5, amended: started on a remaining PnL of the given sign, with every
    PnL representable, the loop runs to its end and returns.  It matched a
    sublist of the candidates, in order: never the subject itself, only
    counterparties whose PnL has the opposite sign, and never past 10
    instructions in the transaction.  As long as the remaining PnL keeps
    its sign its magnitude does not exceed the magnitude before the loop;
    it leaves that sign only on the last match, and then by less than the
    PnL of that last counterparty.  And it passes over no counterparty it
    could match: the matched ones are the first of the candidates of
    opposite sign other than the subject, all of them unless the remaining
    PnL left its sign or the transaction reached 10 instructions. *)
Theorem settle_loop_bounded (self : PublicKey) (sign : Z)
    (accounts : list AccountWithPnl) :
  forall (pnl : Z) (instrs : list Instruction),
    (sign = 1 /\ 0 < pnl) \/ (sign = -1 /\ pnl < 0) ->
    InRange pnl ->
    Forall (fun a => InRange (Settle.pnl a)) accounts ->
    exists (matched : list AccountWithPnl) (pnl' : Z),
      settleLoop self sign accounts pnl instrs
      = Ok (pnl', instrs ++ settleInstructions matched) /\
      sublist matched accounts /\
      Forall (fun a => publicKey a <> self /\ sign * Settle.pnl a < 0) matched /\
      pnl' = pnl + sumPnl matched /\
      (length instrs + length matched <= Nat.max (length instrs) 10)%nat /\
      (0 < sign * pnl' -> Z.abs pnl' <= Z.abs pnl) /\
      (sign * pnl' <= 0 ->
       exists ms last,
         matched = ms ++ [last] /\
         0 < sign * (pnl + sumPnl ms) /\
         Z.abs pnl' < Z.abs (Settle.pnl last)) /\
      (exists passed,
         List.filter (opposite self sign) accounts = matched ++ passed /\
         (passed = [] \/
          (10 <= length instrs + length matched)%nat \/
          sign * pnl' <= 0)).
Proof.
  induction accounts as [|a rest IH]; intros pnl instrs Hsign Hr Hall.
  - exists [], pnl. cbn. rewrite app_nil_r.
    split; [reflexivity|]. split; [constructor|]. split; [constructor|].
    split; [lia|]. split; [lia|]. split; [lia|].
    split; [intros Hle; lia|]. exists []. split; [reflexivity | left; reflexivity].
  - apply Forall_cons in Hall. destruct Hall as [Ha Hall].
    assert (Hone : [a] = [] ++ [a]) by reflexivity.
    destruct (settleLoop_cons self sign a rest pnl instrs Hsign Hr Ha)
      as [(Hopp & ->) | [(Hopp & Hcap & ->) | [(Hopp & Hcap & Hr1 & Hleft & ->)
         | (Hopp & Hcap & Hr1 & Hs1 & ->)]]].
    + (* not a counterparty that can be matched *)
      destruct (IH pnl instrs Hsign Hr Hall)
        as (matched & pnl' & Hrun & Hsub & Hm & Hsum & Hlen & Hkeep & Hflip
            & passed & Hpre & Hstop).
      exists matched, pnl'.
      split; [exact Hrun|]. split; [apply sublist_cons, Hsub|].
      split; [exact Hm|]. split; [exact Hsum|]. split; [exact Hlen|].
      split; [exact Hkeep|]. split; [exact Hflip|].
      exists passed. cbn [List.filter]. rewrite Hopp. tauto.
    + (* the transaction is full *)
      destruct (IH pnl instrs Hsign Hr Hall)
        as (matched & pnl' & Hrun & Hsub & Hm & Hsum & Hlen & Hkeep & Hflip
            & passed & Hpre & Hstop).
      assert (Hnil : matched = []) by (destruct matched; [reflexivity | cbn in Hlen; lia]).
      subst matched. exists [], pnl'.
      split; [exact Hrun|]. split; [apply sublist_cons, Hsub|].
      split; [exact Hm|]. split; [exact Hsum|]. split; [exact Hlen|].
      split; [exact Hkeep|]. split; [exact Hflip|].
      exists (List.filter (opposite self sign) (a :: rest)).
      split; [reflexivity|]. right. left. cbn. lia.
    + (* matched, and the remaining PnL left its sign *)
      apply opposite_true in Hopp. destruct Hopp as [Hne Hlt].
      exists [a], (pnl + Settle.pnl a).
      split; [reflexivity|]. split; [apply sublist_skip, sublist_nil_l|].
      split; [constructor; [split; [exact Hne | exact Hlt] | constructor]|].
      split; [rewrite ?sumPnl_cons, ?sumPnl_nil; lia|].
      split; [cbn; lia|]. split; [lia|].
      split.
      * intros _. exists [], a. split; [exact Hone|].
        split; [rewrite sumPnl_nil; destruct Hsign as [[-> Hp] | [-> Hp]]; lia|].
        destruct Hsign as [[-> Hp] | [-> Hp]]; lia.
      * exists (List.filter (opposite self sign) rest). cbn [List.filter].
        rewrite (proj2 (opposite_true self sign a) (conj Hne Hlt)).
        split; [reflexivity|]. right. right. exact Hleft.
    + (* matched, and the loop goes on *)
      apply opposite_true in Hopp. destruct Hopp as [Hne Hlt].
      destruct (IH (pnl + Settle.pnl a) (instrs ++ [SettlePnl (publicKey a)])
                  Hs1 Hr1 Hall)
        as (matched & pnl' & Hrun & Hsub & Hm & Hsum & Hlen & Hkeep & Hflip
            & passed & Hpre & Hstop).
      exists (a :: matched), pnl'. rewrite Hrun.
      split; [cbn; rewrite <- app_assoc; reflexivity|].
      split; [apply sublist_skip, Hsub|].
      split; [constructor; [split; [exact Hne | exact Hlt] | exact Hm]|].
      split; [rewrite ?sumPnl_cons, ?sumPnl_nil; lia|].
      split; [rewrite length_app in Hlen; cbn in *; lia|].
      split; [intros Hk; specialize (Hkeep Hk);
              destruct Hsign as [[-> Hp] | [-> Hp]],
                       Hs1 as [[? Hp1] | [? Hp1]]; lia|].
      split.
      * intros Hf. destruct (Hflip Hf) as (ms & last & -> & Hbefore & Hlast).
        exists (a :: ms), last. split; [reflexivity|].
        split; [rewrite ?sumPnl_cons, ?sumPnl_nil; lia | exact Hlast].
      * exists passed. cbn [List.filter].
        rewrite (proj2 (opposite_true self sign a) (conj Hne Hlt)).
        cbn [app]. rewrite Hpre. split; [reflexivity|].
        rewrite length_app in Hstop. cbn in *.
        destruct Hstop as [Hp | [Hc | Hf]]; [left; exact Hp | right; left; lia
                                            | right; right; exact Hf].
Qed.

End Settlement.

Lemma settle_loop_bounded_witness :
  exists (matched : list Settle.AccountWithPnl) (pnl' : Z),
    Settle.settleLoop 1 1
      [ {| Settle.publicKey := 1; Settle.pnl := -50 |};
        {| Settle.publicKey := 2; Settle.pnl := 30 |};
        {| Settle.publicKey := 3; Settle.pnl := -4 |};
        {| Settle.publicKey := 4; Settle.pnl := -100 |};
        {| Settle.publicKey := 5; Settle.pnl := -7 |} ] 5 []
    = Ok (pnl', [] ++ Settle.settleInstructions matched) /\
    length matched = 2%nat /\ pnl' = -99.
Proof.
  destruct (settle_loop_bounded 1 1
      [ {| Settle.publicKey := 1; Settle.pnl := -50 |};
        {| Settle.publicKey := 2; Settle.pnl := 30 |};
        {| Settle.publicKey := 3; Settle.pnl := -4 |};
        {| Settle.publicKey := 4; Settle.pnl := -100 |};
        {| Settle.publicKey := 5; Settle.pnl := -7 |} ] 5 [])
    as (matched & pnl' & Hrun & _).
  - left. lia.
  - apply InRange_bounds. lia.
  - repeat constructor; apply InRange_bounds; cbn; lia.
  - exists matched, pnl'. split; [exact Hrun|].
    vm_compute in Hrun. inversion Hrun as [[Hp Hm]].
    destruct matched as [|m1 [|m2 [|m3 ms]]]; try discriminate.
    split; reflexivity.
Defined.

(* --------------------------------------------------------------------- *)
(** ** Shared accumulators in [getHealthsFromComponents] *)

Section SharedQuote.
Import Entities Heap.
#[local] Open Scope store_scope.

Lemma bindM_run {A B} (m : M A) (k : A -> M B) (h h' : Store) (a : A) :
  m h = Ok (a, h') -> bindM m k h = k a h'.
Proof. intros H. unfold bindM. rewrite H. reflexivity. Qed.

Lemma getData_run (h : Store) (x : Ref) (d : Z) :
  h !! x = Some d -> getData x h = Ok (d, h).
Proof. intros H. unfold getData. rewrite H. reflexivity. Qed.

Lemma lift_run {A} (r : Result A) (a : A) (h : Store) :
  r = Ok a -> lift r h = Ok (a, h).
Proof. intros ->. reflexivity. Qed.

Lemma iadd_run (h : Store) (this x : Ref) (a b : Z) :
  h !! this = Some a -> h !! x = Some b ->
  iadd this x h = Ok (this, <[this := a + b]> h).
Proof.
  intros Ha Hb. unfold iadd.
  rewrite (bindM_run _ _ _ _ _ (getData_run _ _ _ Ha)).
  rewrite (bindM_run _ _ _ _ _ (getData_run _ _ _ Hb)).
  reflexivity.
Qed.

(** A weighted component is a fresh object: the store grows by one cell. *)
Lemma weighted_run (h : Store) (x price wa wl : Ref) (v : Z) :
  weightedValue h x price wa wl = Some v ->
  weighted x price wa wl h = Ok (length h, h ++ [v]).
Proof.
  unfold weightedValue. intros H.
  destruct (h !! x) as [a|] eqn:Hx; [|discriminate].
  destruct (h !! price) as [p|] eqn:Hp; [|discriminate].
  destruct (h !! wa) as [va|] eqn:Hwa; [|discriminate].
  destruct (h !! wl) as [vl|] eqn:Hwl; [|discriminate].
  destruct (h !! ZERO_I80F48) as [z|] eqn:Hz; [|discriminate].
  cbn in H.
  set (t := BN.ushrn (a * p) I80F48.FRACTIONS) in *.
  destruct ((t <? I80F48.MIN_BN) || (t >? I80F48.MAX_BN)) eqn:Hrange;
    [discriminate|].
  inversion H as [Hv]. clear H.
  assert (Hmul : mul x price h = Ok (length h, h ++ [t])).
  { unfold mul.
    rewrite (bindM_run _ _ _ _ _ (getData_run _ _ _ Hx)).
    rewrite (bindM_run _ _ _ _ _ (getData_run _ _ _ Hp)).
    unfold new. fold t. rewrite Hrange. reflexivity. }
  assert (Hpos : isPos x (h ++ [t]) = Ok (a >? z, h ++ [t])).
  { unfold isPos, gt.
    rewrite (bindM_run _ _ _ _ _
               (getData_run _ _ _ (lookup_app_l_Some _ _ _ _ Hx))).
    rewrite (bindM_run _ _ _ _ _
               (getData_run _ _ _ (lookup_app_l_Some _ _ _ _ Hz))).
    reflexivity. }
  unfold weighted.
  rewrite (bindM_run _ _ _ _ _ Hmul), (bindM_run _ _ _ _ _ Hpos).
  assert (Ht : (h ++ [t]) !! length h = Some t)
    by (apply list_lookup_middle; reflexivity).
  assert (Hw : (h ++ [t]) !! (if a >? z then wa else wl)
               = Some (if a >? z then va else vl)).
  { destruct (a >? z); apply lookup_app_l_Some; assumption. }
  unfold imul.
  rewrite (bindM_run _ _ _ _ _ (getData_run _ _ _ Ht)).
  rewrite (bindM_run _ _ _ _ _ (getData_run _ _ _ Hw)).
  unfold bindM, setData, ret. f_equal. f_equal.
  rewrite insert_app_r_alt by lia. rewrite Nat.sub_diag. cbn.
  subst v. destruct (a >? z); reflexivity.
Qed.

(** The weighted value depends on the cells it reads only. *)
Lemma weightedValue_frame (h0 h : Store) (x price wa wl : Ref) (v : Z) :
  (forall r d, h0 !! r = Some d ->
               r = x \/ r = price \/ r = wa \/ r = wl \/ r = ZERO_I80F48 ->
               h !! r = Some d) ->
  weightedValue h0 x price wa wl = Some v ->
  weightedValue h x price wa wl = Some v.
Proof.
  intros Hsame. unfold weightedValue. intros H.
  destruct (h0 !! x) as [a|] eqn:Hx; [|discriminate].
  destruct (h0 !! price) as [p|] eqn:Hp; [|discriminate].
  destruct (h0 !! wa) as [va|] eqn:Hwa; [|discriminate].
  destruct (h0 !! wl) as [vl|] eqn:Hwl; [|discriminate].
  destruct (h0 !! ZERO_I80F48) as [z|] eqn:Hz; [|discriminate].
  rewrite (Hsame _ _ Hx), (Hsame _ _ Hp), (Hsame _ _ Hwa), (Hsame _ _ Hwl),
    (Hsame _ _ Hz) by tauto.
  exact H.
Qed.

Variables (lyraeGroup : LyraeGroup Ref) (lyraeCache : LyraeCache Ref).
Variables (spot perps : list Ref) (quote : Ref) (healthType : HealthType).

Lemma marketRefs_Ok (i : nat) (m : MarketRefs) :
  marketRefs lyraeGroup lyraeCache spot perps healthType i = Ok m ->
  exists w pc,
    getWeights ONE_I80F48 lyraeGroup i (Some healthType) = Ok w /\
    at_index (priceCache lyraeCache) i = Ok pc /\
    at_index spot i = Ok (m_spot m) /\
    at_index perps i = Ok (m_perp m) /\
    m_price m = price pc /\
    m_spotAsset m = spotAssetWeight w /\ m_spotLiab m = spotLiabWeight w /\
    m_perpAsset m = perpAssetWeight w /\ m_perpLiab m = perpLiabWeight w.
Proof.
  unfold marketRefs. intros H.
  bind_inv H. bind_inv H. bind_inv H. bind_inv H. inversion H; subst; cbn.
  exists v, v0. repeat split; assumption.
Qed.

(** One iteration: both contributions are added to the cell of [quote]. *)
Lemma healthsStep_run (h0 h : Store) (i : nat) (m : MarketRefs)
    (acc s p : Z) :
  Extends quote h0 h ->
  (quote < length h0)%nat ->
  h !! quote = Some acc ->
  marketRefs lyraeGroup lyraeCache spot perps healthType i = Ok m ->
  quote ∉ refsOf m ->
  contributions h0 m = Some (s, p) ->
  exists h',
    healthsStep lyraeGroup lyraeCache spot perps healthType quote quote i h
    = Ok (tt, h') /\
    Extends quote h0 h' /\ h' !! quote = Some (acc + s + p).
Proof.
  intros [Hlen Hsame] Hq Hacc Hm Hfresh Hc.
  destruct (marketRefs_Ok i m Hm)
    as (w & pc & Hw & Hpc & Hs & Hp & Epr & Esa & Esl & Epa & Epl).
  unfold contributions in Hc.
  destruct (weightedValue h0 (m_spot m) (m_price m) (m_spotAsset m)
              (m_spotLiab m)) as [vs|] eqn:Hvs; [|discriminate].
  destruct (weightedValue h0 (m_perp m) (m_price m) (m_perpAsset m)
              (m_perpLiab m)) as [vp|] eqn:Hvp; [|discriminate].
  cbn in Hc. inversion Hc; subst s p. clear Hc.
  unfold refsOf in Hfresh. rewrite !not_elem_of_cons in Hfresh.
  destruct Hfresh as (N1 & N2 & N3 & N4 & N5 & N6 & N7 & N8 & _).
  assert (Hvs' : weightedValue h (m_spot m) (m_price m) (m_spotAsset m)
                   (m_spotLiab m) = Some vs).
  { apply (weightedValue_frame h0); [|exact Hvs].
    intros r d Hr Hin. apply Hsame; [exact Hr|].
    destruct Hin as [->|[->|[->|[->| ->]]]]; congruence. }
  assert (Hvp' : weightedValue (h ++ [vs]) (m_perp m) (m_price m)
                   (m_perpAsset m) (m_perpLiab m) = Some vp).
  { apply (weightedValue_frame h0); [|exact Hvp].
    intros r d Hr Hin. apply lookup_app_l_Some. apply Hsame; [exact Hr|].
    destruct Hin as [->|[->|[->|[->| ->]]]]; congruence. }
  apply weighted_run in Hvs', Hvp'.
  rewrite Epr, Esa, Esl in Hvs'. rewrite Epr, Epa, Epl in Hvp'.
  set (h2 := (h ++ [vs]) ++ [vp]).
  assert (Hq2 : h2 !! quote = Some acc)
    by (subst h2; do 2 apply lookup_app_l_Some; exact Hacc).
  assert (Ht1 : h2 !! length h = Some vs).
  { subst h2. apply lookup_app_l_Some. apply list_lookup_middle. reflexivity. }
  assert (Hlen2 : length h2 = (length h + 2)%nat).
  { subst h2. rewrite !length_app. cbn. lia. }
  set (h3 := <[quote := acc + vs]> h2).
  assert (Hq3 : h3 !! quote = Some (acc + vs)).
  { subst h3. apply list_lookup_insert_eq. lia. }
  assert (Ht2 : h3 !! length (h ++ [vs]) = Some vp).
  { subst h3. rewrite list_lookup_insert_ne
      by (rewrite length_app; cbn; lia).
    subst h2. apply list_lookup_middle. reflexivity. }
  exists (<[quote := acc + vs + vp]> h3). split; [|split; [split|]].
  - unfold healthsStep.
    rewrite (bindM_run _ _ _ _ _ (lift_run _ _ h Hw)).
    rewrite (bindM_run _ _ _ _ _ (lift_run _ _ h Hpc)).
    rewrite (bindM_run _ _ _ _ _ (lift_run _ _ h Hs)).
    rewrite (bindM_run _ _ _ _ _ Hvs').
    rewrite (bindM_run _ _ _ _ _ (lift_run _ _ (h ++ [vs]) Hp)).
    rewrite (bindM_run _ _ _ _ _ Hvp').
    fold h2.
    rewrite (bindM_run _ _ _ _ _ (iadd_run h2 quote (length h) _ _ Hq2 Ht1)).
    fold h3.
    rewrite (bindM_run _ _ _ _ _
               (iadd_run h3 quote (length (h ++ [vs])) _ _ Hq3 Ht2)).
    reflexivity.
  - subst h3. rewrite !length_insert. lia.
  - intros r d Hr Hne.
    rewrite list_lookup_insert_ne by congruence. subst h3.
    rewrite list_lookup_insert_ne by congruence. subst h2.
    do 2 apply lookup_app_l_Some. apply Hsame; assumption.
  - apply list_lookup_insert_eq. subst h3. rewrite length_insert. lia.
Qed.

Lemma foldM_run (h0 : Store) (l : list nat) :
  (quote < length h0)%nat ->
  NotRead quote lyraeGroup lyraeCache spot perps healthType ->
  forall (h : Store) (acc v : Z),
    Extends quote h0 h ->
    h !! quote = Some acc ->
    accumulated h0 lyraeGroup lyraeCache spot perps healthType l acc = Some v ->
    exists h',
      foldM_ (healthsStep lyraeGroup lyraeCache spot perps healthType
                quote quote) l h = Ok (tt, h') /\
      Extends quote h0 h' /\ h' !! quote = Some v.
Proof.
  intros Hq Hfresh. induction l as [|i l IH]; intros h acc v Hext Hacc Hv.
  - cbn in Hv. inversion Hv; subst. exists h. split; [reflexivity|].
    split; assumption.
  - cbn [accumulated] in Hv.
    destruct (marketRefs lyraeGroup lyraeCache spot perps healthType i)
      as [m|e] eqn:Hm; [|discriminate].
    destruct (contributions h0 m) as [[s p]|] eqn:Hc; [|discriminate].
    cbn in Hv.
    destruct (healthsStep_run h0 h i m acc s p Hext Hq Hacc Hm
                (Hfresh i m Hm) Hc) as (h1 & Hstep & Hext1 & Hacc1).
    destruct (IH h1 _ v Hext1 Hacc1 Hv) as (h' & Hrun & Hext' & Hv').
    exists h'. split; [|split; assumption].
    cbn [foldM_]. rewrite (bindM_run _ _ _ _ _ Hstep). exact Hrun.
Qed.

(** C9: the two fields of the record that [getHealthsFromComponents]
    returns are one object, the caller's [quote]: they are equal after any
    run.  When [quote] is none of the objects the loop reads, the run
    returns and that object holds the quote plus, for every market, both
    the weighted spot and the weighted perp contribution; every other
    object the caller had is unchanged. *)
Theorem healths_share_quote :
  (forall (h h' : Store) (r : Healths),
     getHealthsFromComponents lyraeGroup lyraeCache spot perps quote
       healthType h = Ok (r, h') ->
     Heap.spot r = quote /\ Heap.perp r = quote /\
     h' !! Heap.spot r = h' !! Heap.perp r) /\
  (forall (h : Store) (q v : Z),
     h !! quote = Some q ->
     NotRead quote lyraeGroup lyraeCache spot perps healthType ->
     accumulated h lyraeGroup lyraeCache spot perps healthType
       (seq 0 (numOracles lyraeGroup)) q = Some v ->
     exists h',
       getHealthsFromComponents lyraeGroup lyraeCache spot perps quote
         healthType h = Ok ({| Heap.spot := quote; Heap.perp := quote |}, h') /\
       h' !! quote = Some v /\
       (forall r d, h !! r = Some d -> r <> quote -> h' !! r = Some d)).
Proof.
  split.
  - intros h h' r H. unfold getHealthsFromComponents, bindM in H.
    destruct (foldM_ _ _ h) as [[u h1]|e]; [|discriminate].
    cbn in H. inversion H; subst. cbn. repeat split; reflexivity.
  - intros h q v Hq Hfresh Hv.
    assert (Hlt : (quote < length h)%nat) by (eapply lookup_lt_Some; exact Hq).
    assert (Hext : Extends quote h h) by (split; [lia | auto]).
    destruct (foldM_run h _ Hlt Hfresh h q v Hext Hq Hv)
      as (h' & Hrun & [_ Hsame] & Hv').
    exists h'. split; [|split; assumption].
    unfold getHealthsFromComponents.
    rewrite (bindM_run _ _ _ _ _ Hrun). reflexivity.
Qed.

End SharedQuote.

Lemma healths_share_quote_witness :
  exists h',
    Heap.getHealthsFromComponents Examples.groupRefs Examples.cacheRefs
      [6%nat] [7%nat] 8%nat Entities.Init Examples.store
    = Ok ({| Heap.spot := 8%nat; Heap.perp := 8%nat |}, h') /\
    h' !! 8%nat = Some (Examples.whole 1055).
Proof.
  destruct (proj2 (healths_share_quote Examples.groupRefs Examples.cacheRefs
                     [6%nat] [7%nat] 8%nat Entities.Init)
              Examples.store (Examples.whole 1005) (Examples.whole 1055))
    as (h' & Hrun & Hv & _).
  - reflexivity.
  - intros i m Hm. destruct i as [|i].
    + vm_compute in Hm. inversion Hm; subst m. unfold Heap.refsOf. cbn.
      rewrite !not_elem_of_cons. repeat split; try discriminate.
      apply not_elem_of_nil.
    + cbn in Hm. discriminate.
  - vm_compute. reflexivity.
  - exists h'. split; assumption.
Defined.

(* ===================================================================== *)
(** * Further properties *)

(* --------------------------------------------------------------------- *)
(** ** Fixed-point values *)

Lemma of_le_bytes_bounds (l : list Z) :
  Codec.wellFormed l -> 0 <= BN.of_le_bytes l < 256 ^ Z.of_nat (length l).
Proof.
  unfold Codec.wellFormed. induction 1 as [|x l Hx Hl IH].
  - cbn. lia.
  - cbn [BN.of_le_bytes length]. rewrite Nat2Z.inj_succ, Z.pow_succ_r by lia.
    lia.
Qed.

Lemma le_bytes_of_le_bytes (l : list Z) :
  Codec.wellFormed l -> BN.le_bytes (length l) (BN.of_le_bytes l) = l.
Proof.
  unfold Codec.wellFormed. induction 1 as [|x l Hx Hl IH]; [reflexivity|].
  cbn [BN.of_le_bytes length BN.le_bytes].
  assert (Hm : (x + 256 * BN.of_le_bytes l) mod 256 = x).
  { replace (x + 256 * BN.of_le_bytes l) with (x + BN.of_le_bytes l * 256)
      by ring.
    rewrite Z.mod_add by lia. apply Z.mod_small, Hx. }
  assert (Hd : (x + 256 * BN.of_le_bytes l) / 256 = BN.of_le_bytes l).
  { replace (x + 256 * BN.of_le_bytes l) with (x + BN.of_le_bytes l * 256)
      by ring.
    rewrite Z.div_add by lia. rewrite (Z.div_small x 256) by lia. lia. }
  rewrite Hm, Hd, IH. reflexivity.
Qed.

Lemma toTwos_fromTwos (t : Z) :
  0 <= t < 2 ^ 128 ->
  - 2 ^ 127 <= BN.fromTwos 128 t <= 2 ^ 127 - 1 /\
  BN.toTwos 128 (BN.fromTwos 128 t) = t.
Proof.
  intros Ht. rewrite fromTwos_128 by assumption.
  destruct (Z.leb_spec (2 ^ 127) t).
  - split; [lia|]. rewrite toTwos_128 by lia.
    destruct (Z.ltb_spec (t - 2 ^ 128) 0); lia.
  - split; [lia|]. rewrite toTwos_128 by lia.
    destruct (Z.ltb_spec t 0); lia.
Qed.

(** X1: every array of 16 bytes decodes, to a representable value whose
    encoding is the array again; an array of any other length is refused. *)
Theorem fromArray_then_toArray (src : list Z) :
  (length src = 16%nat -> Codec.wellFormed src ->
   exists x, I80F48.fromArray src = Ok x /\ I80F48.InRange x /\
             I80F48.toArray x = Ok src) /\
  (length src <> 16%nat -> I80F48.fromArray src = Err BadLength).
Proof.
  split.
  - intros Hlen Hwf.
    pose proof (of_le_bytes_bounds src Hwf) as Hb. rewrite Hlen in Hb.
    change (256 ^ Z.of_nat 16) with (2 ^ 128) in Hb.
    destruct (toTwos_fromTwos _ Hb) as [Hr Ht].
    exists (BN.fromTwos 128 (BN.of_le_bytes src)).
    assert (Hin : I80F48.InRange (BN.fromTwos 128 (BN.of_le_bytes src)))
      by (apply InRange_bounds; exact Hr).
    split; [|split; [exact Hin|]].
    + unfold I80F48.fromArray, I80F48.MAX_SIZE. rewrite Hlen. cbn [Nat.eqb negb].
      apply new_InRange, Hin.
    + rewrite toArray_Ok by exact Hin. rewrite Ht.
      rewrite <- Hlen. rewrite le_bytes_of_le_bytes by exact Hwf. reflexivity.
  - intros Hlen. unfold I80F48.fromArray.
    destruct (Nat.eqb_spec (length src) 16); [contradiction | reflexivity].
Qed.

Lemma fromArray_then_toArray_witness :
  exists x, I80F48.fromArray (replicate 16 255) = Ok x /\ I80F48.InRange x /\
            I80F48.toArray x = Ok (replicate 16 255).
Proof.
  apply (proj1 (fromArray_then_toArray (replicate 16 255))).
  - reflexivity.
  - unfold Codec.wellFormed. repeat constructor; lia.
Defined.

(** X2: [neg] and [abs] return the opposite and the absolute value of every
    representable value but the least one, [-2^127], on which both throw the
    range error: its opposite is one past the greatest value. *)
Theorem neg_abs_least (x : Z) :
  I80F48.InRange x ->
  (x = - 2 ^ 127 ->
   I80F48.neg x = Err OutOfRange /\ I80F48.abs x = Err OutOfRange) /\
  (x <> - 2 ^ 127 ->
   I80F48.neg x = Ok (- x) /\ I80F48.abs x = Ok (Z.abs x) /\
   (let* y := I80F48.neg x in I80F48.neg y) = Ok x).
Proof.
  intros Hx. apply (proj1 (InRange_bounds _)) in Hx. split.
  - intros ->. split.
    + rewrite neg_opp. reflexivity.
    + unfold I80F48.abs. cbn [I80F48.isNeg]. rewrite neg_opp. reflexivity.
  - intros Hne.
    assert (Hn : I80F48.neg x = Ok (- x)).
    { rewrite neg_opp. apply new_InRange, InRange_bounds. lia. }
    split; [exact Hn|]. split.
    + apply abs_InRange, InRange_bounds. lia.
    + rewrite Hn. cbn [bind]. rewrite neg_opp, Z.opp_involutive.
      apply new_InRange, InRange_bounds. lia.
Qed.

Lemma neg_abs_least_witness :
  I80F48.neg (- 2 ^ 127) = Err OutOfRange /\
  I80F48.abs (- 2 ^ 127) = Err OutOfRange /\
  I80F48.neg (2 ^ 127 - 1) = Ok (- (2 ^ 127 - 1)).
Proof.
  assert (H1 : I80F48.InRange (- 2 ^ 127)) by (apply InRange_bounds; lia).
  assert (H2 : I80F48.InRange (2 ^ 127 - 1)) by (apply InRange_bounds; lia).
  split; [|split].
  - apply (proj1 (neg_abs_least _ H1)). reflexivity.
  - apply (proj1 (neg_abs_least _ H1)). reflexivity.
  - apply (proj2 (neg_abs_least _ H2)). lia.
Defined.

(** X3: the constant one is neutral: multiplying a representable value by it,
    on either side, and dividing by it give the value back, with no loss. *)
Theorem one_is_neutral (x : Z) :
  I80F48.InRange x ->
  I80F48.mul x I80F48.ONE_I80F48 = Ok x /\
  I80F48.mul I80F48.ONE_I80F48 x = Ok x /\
  I80F48.div x I80F48.ONE_I80F48 = Ok x.
Proof.
  intros Hx. unfold I80F48.ONE_I80F48.
  assert (Hq : Z.quot (x * 2 ^ 48) (2 ^ 48) = x) by (apply Z.quot_mul; lia).
  split; [|split].
  - rewrite mul_quot, Hq. apply new_InRange, Hx.
  - rewrite mul_quot, Z.mul_comm, Hq. apply new_InRange, Hx.
  - rewrite div_quot by lia. rewrite Hq. apply new_InRange, Hx.
Qed.

Lemma one_is_neutral_witness :
  I80F48.mul (- 2 ^ 127) I80F48.ONE_I80F48 = Ok (- 2 ^ 127).
Proof.
  apply (one_is_neutral (- 2 ^ 127)). apply InRange_bounds. lia.
Defined.

(** X4: a division by zero throws, whatever the dividend; any other division
    that returns truncates the exact quotient of the raw values toward zero:
    the result times the divisor is within one divisor of the dividend
    scaled by [2^48], and not larger in magnitude. *)
Theorem div_truncates (x y : Z) :
  I80F48.div x 0 = Err DivisionByZero /\
  (forall q, y <> 0 -> I80F48.div x y = Ok q ->
     q = Z.quot (x * 2 ^ 48) y /\
     Z.abs (x * 2 ^ 48 - q * y) < Z.abs y /\
     Z.abs (q * y) <= Z.abs (x * 2 ^ 48)).
Proof.
  split; [reflexivity|].
  intros q Hy Hq. rewrite div_quot in Hq by assumption.
  apply new_Ok in Hq. destruct Hq as [-> _].
  set (a := x * 2 ^ 48). split; [reflexivity|].
  pose proof (Z.quot_rem a y Hy) as Hqr.
  pose proof (Z.rem_bound_abs a y Hy) as Hrb.
  split.
  - replace (a - Z.quot a y * y) with (Z.rem a y) by lia. exact Hrb.
  - rewrite Z.quot_div by assumption.
    rewrite !Z.abs_mul.
    assert (Hs : forall z, z <> 0 -> Z.abs (Z.sgn z) = 1)
      by (intros z Hz; destruct z;
          [exfalso; apply Hz; reflexivity | reflexivity | reflexivity]).
    destruct (Z.eq_dec a 0) as [Ha|Ha].
    + rewrite Ha. cbn. lia.
    + rewrite (Hs a Ha), (Hs y Hy).
      rewrite (Z.abs_eq (Z.abs a / Z.abs y))
        by (apply Z.div_pos; lia).
      pose proof (Z.mul_div_le (Z.abs a) (Z.abs y) ltac:(lia)). lia.
Qed.

Lemma div_truncates_witness :
  -2 = Z.quot (-7 * 2 ^ 48) (3 * 2 ^ 48) /\
  Z.abs (-7 * 2 ^ 48 - -2 * (3 * 2 ^ 48)) < Z.abs (3 * 2 ^ 48) /\
  Z.abs (-2 * (3 * 2 ^ 48)) <= Z.abs (-7 * 2 ^ 48).
Proof.
  apply (proj2 (div_truncates (-7) (3 * 2 ^ 48)) (-2)).
  - lia.
  - reflexivity.
Defined.

(* --------------------------------------------------------------------- *)
(** ** Open orders *)

Section OpenOrdersFacts.
Import I80F48 Health.

Lemma fromU64_small (x : Z) :
  - 2 ^ 65 <= x <= 2 ^ 65 -> fromU64 x = Ok (x * 2 ^ 48).
Proof.
  intros Hx. unfold fromU64. rewrite ushln_mul by lia.
  apply new_InRange, (proj2 (InRange_bounds _)). lia.
Qed.

(** X5: on an open-orders account whose five amounts are 64-bit unsigned,
    [splitOpenOrders] never throws, and it splits without loss: free and
    locked quote add up to the quote total plus the referrer rebates, free
    and locked base to the base total, each scaled by [2^48]; a locked amount
    is negative exactly when the free amount exceeds the total. *)
Theorem splitOpenOrders_conserves (oo : OpenOrders) :
  0 <= baseTokenFree oo < 2 ^ 64 -> 0 <= baseTokenTotal oo < 2 ^ 64 ->
  0 <= quoteTokenFree oo < 2 ^ 64 -> 0 <= quoteTokenTotal oo < 2 ^ 64 ->
  0 <= referrerRebatesAccrued oo < 2 ^ 64 ->
  exists s,
    splitOpenOrders oo = Ok s /\
    quoteFree s + quoteLocked s
    = (quoteTokenTotal oo + referrerRebatesAccrued oo) * 2 ^ 48 /\
    baseFree s + baseLocked s = baseTokenTotal oo * 2 ^ 48 /\
    (quoteLocked s < 0 <-> quoteTokenTotal oo < quoteTokenFree oo) /\
    (baseLocked s < 0 <-> baseTokenTotal oo < baseTokenFree oo).
Proof.
  intros Hbf Hbt Hqf Hqt Hr.
  exists {| quoteFree := (quoteTokenFree oo + referrerRebatesAccrued oo) * 2 ^ 48;
            quoteLocked := (quoteTokenTotal oo - quoteTokenFree oo) * 2 ^ 48;
            baseFree := baseTokenFree oo * 2 ^ 48;
            baseLocked := (baseTokenTotal oo - baseTokenFree oo) * 2 ^ 48 |}.
  split.
  - unfold splitOpenOrders. rewrite !fromU64_small by lia. reflexivity.
  - cbn. repeat split; lia.
Qed.

End OpenOrdersFacts.

Lemma splitOpenOrders_conserves_witness :
  exists s,
    Health.splitOpenOrders Examples.orders = Ok s /\
    Health.quoteFree s + Health.quoteLocked s = Examples.whole 25.
Proof.
  destruct (splitOpenOrders_conserves Examples.orders)
    as (s & Hs & Hq & _); try (cbn; lia).
  exists s. split; [exact Hs|]. rewrite Hq. reflexivity.
Defined.

(* --------------------------------------------------------------------- *)
(** ** Scalar layouts: encoding and decoding *)

Section CodecFacts.
Import Layout Codec.

Lemma pow256 (n : nat) : 256 ^ Z.of_nat n = 2 ^ (8 * Z.of_nat n).
Proof. change 256 with (2 ^ 8). rewrite <- Z.pow_mul_r by lia. reflexivity. Qed.

Lemma written_frame (b src : list Z) (offset : nat) :
  (offset + length src <= length b)%nat ->
  let b' := take offset b ++ src ++ drop (offset + length src) b in
  length b' = length b /\ take offset b' = take offset b /\
  drop (offset + length src) b' = drop (offset + length src) b.
Proof.
  intros Hlen b'. subst b'. split; [|split].
  - rewrite !length_app, length_take, length_drop. lia.
  - rewrite take_app_length'; [reflexivity | rewrite length_take; lia].
  - rewrite app_assoc. rewrite drop_app_length'; [reflexivity|].
    rewrite length_app, length_take. lia.
Qed.

Lemma written_wellFormed (b src : list Z) (offset span : nat) :
  wellFormed b -> wellFormed src ->
  wellFormed (take offset b ++ src ++ drop (offset + span) b).
Proof.
  unfold wellFormed. intros Hb Hs.
  apply Forall_app; split; [apply Forall_take, Hb|].
  apply Forall_app; split; [exact Hs | apply Forall_drop, Hb].
Qed.

Lemma UInt_encode_Ok (span : nat) (src : Z) (b : Buffer) (offset : nat) :
  0 <= src < 256 ^ Z.of_nat span -> (offset + span <= length b)%nat ->
  UInt_encode span src b offset
  = Ok (take offset b ++ BN.le_bytes span src ++ drop (offset + span) b).
Proof.
  intros Hs Hb. unfold UInt_encode.
  destruct (Z.ltb_spec src 0); [lia|].
  destruct (Z.leb_spec (256 ^ Z.of_nat span) src); [lia|]. cbn [orb].
  destruct (Nat.ltb_spec (length b) (offset + span)); [lia | reflexivity].
Qed.

Lemma UInt_encode_inv (span : nat) (src : Z) (b b' : Buffer) (offset : nat) :
  UInt_encode span src b offset = Ok b' ->
  0 <= src < 256 ^ Z.of_nat span /\ (offset + span <= length b)%nat /\
  b' = take offset b ++ BN.le_bytes span src ++ drop (offset + span) b.
Proof.
  unfold UInt_encode.
  destruct (Z.ltb_spec src 0); [discriminate|].
  destruct (Z.leb_spec (256 ^ Z.of_nat span) src); [discriminate|]. cbn [orb].
  destruct (Nat.ltb_spec (length b) (offset + span)); [discriminate|].
  intros Hok. inversion Hok. repeat split; lia.
Qed.

Lemma readUIntLE_written (span : nat) (src : Z) (b : Buffer) (offset : nat) :
  0 <= src < 256 ^ Z.of_nat span -> (offset + span <= length b)%nat ->
  readUIntLE (take offset b ++ BN.le_bytes span src ++ drop (offset + span) b)
    offset span = Ok src.
Proof.
  intros Hs Hb. unfold readUIntLE.
  pose proof (written_frame b (BN.le_bytes span src) offset) as Hf.
  rewrite length_le_bytes in Hf. destruct (Hf Hb) as (Hl & _ & _).
  rewrite Hl. destruct (Nat.leb_spec (offset + span) (length b)); [|lia].
  pose proof (slice_written b (BN.le_bytes span src) offset) as Hw.
  rewrite length_le_bytes in Hw. rewrite Hw by lia.
  rewrite of_le_bytes_le_bytes by assumption. reflexivity.
Qed.

(** The library's [UInt] layout, on which the [bool] and enum layouts are
    built: [UInt.encode] succeeds exactly for a value that fits in [span]
    bytes and a write inside the buffer; [UInt.decode] then reads the value
    back at the same offset, and the write changes no byte outside
    [offset, offset + span) and not the length of the buffer. *)
Theorem UInt_encode_decode (span : nat) (src : Z) (b : Buffer) (offset : nat) :
  (0 <= src < 256 ^ Z.of_nat span /\ (offset + span <= length b)%nat ->
   exists b', UInt_encode span src b offset = Ok b') /\
  (forall b', UInt_encode span src b offset = Ok b' ->
     0 <= src < 256 ^ Z.of_nat span /\ (offset + span <= length b)%nat /\
     readUIntLE b' offset span = Ok src /\
     length b' = length b /\
     take offset b' = take offset b /\
     drop (offset + span) b' = drop (offset + span) b).
Proof.
  split.
  - intros [Hs Hb]. eexists. apply UInt_encode_Ok; assumption.
  - intros b' H. apply UInt_encode_inv in H. destruct H as (Hs & Hb & ->).
    split; [exact Hs|]. split; [exact Hb|].
    split; [apply readUIntLE_written; assumption|].
    pose proof (written_frame b (BN.le_bytes span src) offset) as Hf.
    rewrite length_le_bytes in Hf. apply Hf, Hb.
Qed.

(** X6: a boolean written by the [bool] layout inside the buffer is read
    back as the same boolean. *)
Theorem bool_encode_decode (v : bool) (b : Buffer) (offset : nat) :
  (offset < length b)%nat ->
  exists b', bool_encode v b offset = Ok b' /\ bool_decode b' offset = Ok v /\
             length b' = length b.
Proof.
  intros Hb. unfold bool_encode, bool_decode.
  assert (Hv : 0 <= encodeBool v < 256 ^ Z.of_nat 1) by (destruct v; cbn; lia).
  rewrite UInt_encode_Ok by (assumption || lia). eexists. split; [reflexivity|].
  rewrite readUIntLE_written by (assumption || lia). split.
  - destruct v; reflexivity.
  - pose proof (written_frame b (BN.le_bytes 1 (encodeBool v)) offset) as Hf.
    apply Hf. cbn. lia.
Qed.





Lemma word_width_ge (w : Z) : 0 <= w -> w <= BN.word_width w.
Proof.
  intros Hw. unfold BN.word_width.
  pose proof (Z.div_mod (w + 25) 26 ltac:(lia)).
  pose proof (Z.mod_pos_bound (w + 25) 26 ltac:(lia)). lia.
Qed.

Lemma notn_low (w a : Z) :
  0 <= w -> 0 <= a < 2 ^ w -> BN.notn w a = 2 ^ w - 1 - a.
Proof.
  intros Hw Ha. unfold BN.notn. pose proof (word_width_ge w Hw) as Hww.
  assert (Hp : 2 ^ w <= 2 ^ BN.word_width w) by (apply Z.pow_le_mono_r; lia).
  rewrite Z.land_ones by lia. rewrite Z.mod_small by lia.
  rewrite Z.shiftr_div_pow2 by lia.
  rewrite (Z.div_small a (2 ^ BN.word_width w)) by lia.
  rewrite Z.shiftl_0_l. rewrite lxor_ones_sub by lia.
  rewrite Z.ones_equiv. lia.
Qed.

Lemma pow2_pred (w : Z) : 0 < w -> 2 ^ w = 2 * 2 ^ (w - 1).
Proof.
  intros Hw. rewrite <- Z.pow_succ_r by lia. f_equal. lia.
Qed.

Lemma testbit_top (w t : Z) :
  0 < w -> 0 <= t < 2 ^ w -> Z.testbit t (w - 1) = (2 ^ (w - 1) <=? t).
Proof.
  intros Hw Ht. rewrite (pow2_pred w Hw) in Ht.
  assert (0 < 2 ^ (w - 1)) by (apply Z.pow_pos_nonneg; lia).
  rewrite Z.testbit_odd, Z.shiftr_div_pow2 by lia.
  destruct (Z.leb_spec (2 ^ (w - 1)) t).
  - replace (t / 2 ^ (w - 1)) with 1; [reflexivity|].
    apply Z.div_unique with (r := t - 2 ^ (w - 1)); lia.
  - rewrite Z.div_small by lia. reflexivity.
Qed.

Lemma toTwos_w (w x : Z) :
  0 < w -> - 2 ^ w < x ->
  BN.toTwos w x = (if x <? 0 then 2 ^ w + x else x).
Proof.
  intros Hw Hx. unfold BN.toTwos. destruct (Z.ltb_spec x 0); [|reflexivity].
  rewrite notn_low by lia. lia.
Qed.

Lemma fromTwos_w (w t : Z) :
  0 < w -> 0 <= t < 2 ^ w ->
  BN.fromTwos w t = (if 2 ^ (w - 1) <=? t then t - 2 ^ w else t).
Proof.
  intros Hw Ht. unfold BN.fromTwos. rewrite testbit_top by assumption.
  destruct (Z.leb_spec (2 ^ (w - 1)) t); [|reflexivity].
  rewrite notn_low by lia. lia.
Qed.

Lemma byteLength_le (n : nat) (t : Z) :
  Z.abs t < 256 ^ Z.of_nat n -> BN.byteLength t <= Z.of_nat n.
Proof.
  intros Ht. rewrite pow256 in Ht. unfold BN.byteLength, BN.bitLength.
  pose proof (Z.abs_nonneg t). destruct (Z.eqb_spec (Z.abs t) 0).
  - change ((0 + 7) / 8) with 0. lia.
  - assert (Hl : Z.log2 (Z.abs t) < 8 * Z.of_nat n)
      by (apply Z.log2_lt_pow2; lia).
    apply Z.lt_succ_r, Z.div_lt_upper_bound; lia.
Qed.

Lemma byteLength_gt (n : nat) (t : Z) :
  256 ^ Z.of_nat n <= Z.abs t -> Z.of_nat n < BN.byteLength t.
Proof.
  intros Ht. rewrite pow256 in Ht. unfold BN.byteLength, BN.bitLength.
  assert (0 < 2 ^ (8 * Z.of_nat n)) by (apply Z.pow_pos_nonneg; lia).
  destruct (Z.eqb_spec (Z.abs t) 0); [lia|].
  assert (Hl : 8 * Z.of_nat n <= Z.log2 (Z.abs t))
    by (apply Z.log2_le_pow2; lia).
  apply Z.lt_le_trans with ((8 * Z.of_nat n + 8) / 8).
  - replace (8 * Z.of_nat n + 8) with ((Z.of_nat n + 1) * 8) by ring.
    rewrite Z.div_mul by lia. lia.
  - apply Z.div_le_mono; lia.
Qed.

Lemma toArray_le_Ok (n : nat) (t : Z) :
  Z.abs t < 256 ^ Z.of_nat n ->
  BN.toArray_le n t = Ok (BN.le_bytes n (Z.abs t)).
Proof.
  intros Ht. unfold BN.toArray_le. pose proof (byteLength_le n t Ht).
  destruct (Z.leb_spec (BN.byteLength t) (Z.of_nat n)); [reflexivity | lia].
Qed.

Lemma toArray_le_Err (n : nat) (t : Z) :
  256 ^ Z.of_nat n <= Z.abs t -> BN.toArray_le n t = Err BadLength.
Proof.
  intros Ht. unfold BN.toArray_le. pose proof (byteLength_gt n t Ht).
  destruct (Z.leb_spec (BN.byteLength t) (Z.of_nat n)); [lia | reflexivity].
Qed.

Lemma Blob_encode_Ok (span : nat) (src : list Z) (b : Buffer) (offset : nat) :
  length src = span -> (offset + span <= length b)%nat ->
  Blob_encode span src b offset
  = Ok (take offset b ++ src ++ drop (offset + span) b).
Proof.
  intros Hs Hb. unfold Blob_encode.
  destruct (Nat.eqb_spec (length src) span); [|contradiction]. cbn [negb].
  destruct (Nat.ltb_spec (length b) (offset + span)); [lia | reflexivity].
Qed.

Lemma BNLayout_encode_magnitude (span : nat) (t : Z) (b : Buffer) (offset : nat) :
  Z.abs t < 256 ^ Z.of_nat span -> (offset + span <= length b)%nat ->
  BNLayout_encode span false t b offset
  = Ok (take offset b ++ BN.le_bytes span (Z.abs t) ++ drop (offset + span) b).
Proof.
  intros Ht Hb. unfold BNLayout_encode. rewrite toArray_le_Ok by assumption.
  cbn [bind]. apply Blob_encode_Ok; [apply length_le_bytes | assumption].
Qed.

Lemma BNLayout_encode_signed (span : nat) (x : Z) (b : Buffer) (offset : nat) :
  BNLayout_encode span true x b offset
  = BNLayout_encode span false (BN.toTwos (8 * Z.of_nat span) x) b offset.
Proof. reflexivity. Qed.

Lemma BNLayout_decode_written (span : nat) (t : Z) (b : Buffer) (offset : nat) :
  0 <= t < 256 ^ Z.of_nat span -> (offset + span <= length b)%nat ->
  BN.of_le_bytes
    (slice (take offset b ++ BN.le_bytes span t ++ drop (offset + span) b)
       offset span) = t.
Proof.
  intros Ht Hb.
  pose proof (slice_written b (BN.le_bytes span t) offset) as Hw.
  rewrite length_le_bytes in Hw. rewrite Hw by lia.
  apply of_le_bytes_le_bytes, Ht.
Qed.

(** X8: a 64- or 128-bit integer layout (any [span] of at least one byte)
    writes a value of its range, [0 .. 2^(8 span) - 1] when unsigned and
    [-2^(8 span - 1) .. 2^(8 span - 1) - 1] when signed, inside the buffer,
    and [BNLayout.decode] reads the same value back; the write keeps the
    length of the buffer and every byte outside [offset, offset + span). *)
Theorem BNLayout_encode_decode (span : nat) (signed : bool) (src : Z)
    (b : Buffer) (offset : nat) :
  (0 < span)%nat -> (offset + span <= length b)%nat ->
  (if signed
   then - 2 ^ (8 * Z.of_nat span - 1) <= src < 2 ^ (8 * Z.of_nat span - 1)
   else 0 <= src < 2 ^ (8 * Z.of_nat span)) ->
  exists b',
    BNLayout_encode span signed src b offset = Ok b' /\
    BNLayout_decode span signed b' offset = src /\
    length b' = length b /\
    take offset b' = take offset b /\
    drop (offset + span) b' = drop (offset + span) b.
Proof.
  intros Hspan Hb Hsrc.
  set (w := 8 * Z.of_nat span) in *.
  assert (Hw : 0 < w) by lia.
  pose proof (pow2_pred w Hw) as Hp.
  assert (0 < 2 ^ (w - 1)) by (apply Z.pow_pos_nonneg; lia).
  set (t := if signed then BN.toTwos w src else src).
  assert (Ht : 0 <= t < 256 ^ Z.of_nat span).
  { rewrite pow256. fold w. subst t. destruct signed; [|lia].
    rewrite toTwos_w by lia. destruct (Z.ltb_spec src 0); lia. }
  exists (take offset b ++ BN.le_bytes span t ++ drop (offset + span) b).
  split; [|split].
  - replace (BNLayout_encode span signed src b offset)
      with (BNLayout_encode span false t b offset)
      by (subst t; destruct signed; reflexivity).
    rewrite BNLayout_encode_magnitude by (rewrite ?Z.abs_eq; lia).
    rewrite Z.abs_eq by lia. reflexivity.
  - unfold BNLayout_decode. cbv zeta.
    rewrite BNLayout_decode_written by assumption. fold w.
    subst t. destruct signed; [|reflexivity].
    rewrite pow256 in Ht. fold w in Ht. rewrite fromTwos_w by lia.
    rewrite toTwos_w by lia.
    destruct (Z.ltb_spec src 0);
      [destruct (Z.leb_spec (2 ^ (w - 1)) (2 ^ w + src))
      | destruct (Z.leb_spec (2 ^ (w - 1)) src)]; lia.
  - pose proof (written_frame b (BN.le_bytes span t) offset) as Hf.
    rewrite length_le_bytes in Hf. apply Hf, Hb.
Qed.

(** X9: [BNLayout.encode] checks the size of a value but not its sign or
    its signed range.  A magnitude of [2^(8 span)] or more is refused
    ("byte array longer than desired length"); an unsigned layout writes a
    negative value as its magnitude; a signed layout writes a value between
    [2^(8 span - 1)] and [2^(8 span) - 1] as the negative value that is
    [2^(8 span)] below it. *)
Theorem BNLayout_encode_unchecked (span : nat) (src : Z) (b : Buffer)
    (offset : nat) :
  (0 < span)%nat ->
  (2 ^ (8 * Z.of_nat span) <= Z.abs src ->
   BNLayout_encode span false src b offset = Err BadLength) /\
  BNLayout_encode span false (- src) b offset
  = BNLayout_encode span false src b offset /\
  (2 ^ (8 * Z.of_nat span - 1) <= src < 2 ^ (8 * Z.of_nat span) ->
   BNLayout_encode span true src b offset
   = BNLayout_encode span true (src - 2 ^ (8 * Z.of_nat span)) b offset).
Proof.
  intros Hspan. split; [|split].
  - intros Hs. unfold BNLayout_encode. rewrite toArray_le_Err; [reflexivity|].
    rewrite pow256. exact Hs.
  - unfold BNLayout_encode, BN.toArray_le, BN.byteLength, BN.bitLength.
    rewrite Z.abs_opp. reflexivity.
  - intros Hs. set (w := 8 * Z.of_nat span) in *.
    assert (Hw : 0 < w) by lia. pose proof (pow2_pred w Hw) as Hp.
    assert (0 < 2 ^ (w - 1)) by (apply Z.pow_pos_nonneg; lia).
    rewrite !BNLayout_encode_signed. fold w. rewrite !toTwos_w by lia.
    destruct (Z.ltb_spec src 0); [lia|].
    destruct (Z.ltb_spec (src - 2 ^ w) 0); [|lia].
    f_equal. lia.
Qed.

Lemma of_le_bytes_zeros (l : list Z) (n : nat) :
  BN.of_le_bytes (l ++ replicate n 0) = BN.of_le_bytes l.
Proof.
  induction l as [|x l IH]; cbn [app BN.of_le_bytes].
  - induction n as [|n IHn]; cbn [replicate BN.of_le_bytes]; lia.
  - rewrite IH. reflexivity.
Qed.

Lemma slice_zeros (b : Buffer) (n offset span : nat) :
  BN.of_le_bytes (slice (b ++ replicate n 0) offset span)
  = BN.of_le_bytes (slice b offset span).
Proof.
  unfold slice. rewrite drop_app, drop_replicate, take_app, take_replicate.
  apply of_le_bytes_zeros.
Qed.

Lemma decodeSeq_app (b p : Buffer) (offset span count : nat) (l : list Z) :
  decodeSeq b offset span count = Ok l ->
  decodeSeq (b ++ p) offset span count = Ok l.
Proof.
  revert offset l. induction count as [|count IH]; intros offset l H.
  - exact H.
  - cbn [decodeSeq] in *. bind_inv H. bind_inv H.
    rewrite (readUIntLE_app _ _ _ _ _ E). cbn [bind].
    rewrite (IH _ _ E0). exact H.
Qed.

Lemma decodeField_zeros (f : Field) (b : Buffer) (n offset : nat) (v : Value) :
  decodeField f b offset = Ok v ->
  decodeField f (b ++ replicate n 0) offset = Ok v.
Proof.
  destruct f as [sp|sp sg| | |values sp|sp c]; cbn [decodeField]; intros H.
  - bind_inv H. rewrite (readUIntLE_app _ _ _ _ _ E). exact H.
  - cbv zeta in *. rewrite slice_zeros. exact H.
  - cbv zeta in *. rewrite slice_zeros. exact H.
  - bind_inv H. rewrite (readUIntLE_app _ _ _ _ _ E). exact H.
  - bind_inv H. rewrite (readUIntLE_app _ _ _ _ _ E). exact H.
  - bind_inv H. rewrite (decodeSeq_app _ _ _ _ _ _ E). exact H.
Qed.

Lemma decodeStruct_zeros (fields : Struct) (b : Buffer) (n offset : nat)
    (dest : list (string * Value)) :
  decodeStruct fields b offset = Ok dest ->
  decodeStruct fields (b ++ replicate n 0) offset = Ok dest.
Proof.
  revert offset dest. induction fields as [|[p fd] fields IH];
    intros offset dest H; cbn [decodeStruct] in *.
  - exact H.
  - bind_inv H. bind_inv H. rewrite (decodeField_zeros _ _ _ _ _ E).
    cbn [bind]. rewrite (IH _ _ E0). exact H.
Qed.

Lemma Union_decode_zeros (registry : Registry) (b : Buffer) (n offset : nat)
    (r : string * list (string * Value)) :
  Union_decode registry b offset = Ok r ->
  Union_decode registry (b ++ replicate n 0) offset = Ok r.
Proof.
  unfold Union_decode. intros H. bind_inv H.
  rewrite (readUIntLE_app _ _ _ _ _ E). cbn [bind].
  destruct (lookupVariant registry v) as [[property layout]|]; [|discriminate].
  bind_inv H. rewrite (decodeStruct_zeros _ _ _ _ _ E0). exact H.
Qed.

Lemma legacyPadding_zeros (discr : Z) (len : nat) :
  exists n, legacyPadding discr len = replicate n 0.
Proof.
  unfold legacyPadding.
  destruct ((discr =? 11) && (len =? 144)%nat || (discr =? 12) && (len =? 30)%nat);
    [exists 1%nat; reflexivity|].
  destruct ((discr =? 37) && (len =? 141)%nat);
    [exists 2%nat | exists 0%nat]; reflexivity.
Qed.

(** X10: zero bytes appended to a buffer never change a decode that
    succeeds: a struct, and a union variant, that decode from a buffer
    decode to the same fields from the buffer extended by zeros.  So the
    decoder of the instruction union, which extends the buffers of three
    legacy (discriminant, length) pairs, returns the result of the plain
    union decoder whenever that one succeeds, for every registry. *)
Theorem padding_keeps_decoded (registry : Registry) (fields : Struct)
    (b : Buffer) (n offset : nat) :
  (forall dest, decodeStruct fields b offset = Ok dest ->
                decodeStruct fields (b ++ replicate n 0) offset = Ok dest) /\
  (forall r, Union_decode registry b offset = Ok r ->
             Union_decode registry (b ++ replicate n 0) offset = Ok r /\
             LyraeInstructionsUnion_decode registry b offset = Ok r).
Proof.
  split.
  - intros dest. apply decodeStruct_zeros.
  - intros r H. split; [apply Union_decode_zeros, H|].
    pose proof H as H'. unfold Union_decode in H'. bind_inv H'.
    rewrite (decode_pads_legacy registry b offset v E).
    destruct (legacyPadding_zeros v (length b)) as [k ->].
    apply Union_decode_zeros, H.
Qed.

Lemma slice_wellFormed (b : Buffer) (offset span : nat) :
  wellFormed b -> wellFormed (slice b offset span).
Proof. intros H. apply Forall_take, Forall_drop, H. Qed.

Lemma length_slice (b : Buffer) (offset span : nat) :
  (length (slice b offset span) <= span)%nat.
Proof. unfold slice. rewrite length_take. lia. Qed.

Lemma slice_value_bounds (b : Buffer) (offset span : nat) :
  wellFormed b -> 0 <= BN.of_le_bytes (slice b offset span) < 256 ^ Z.of_nat span.
Proof.
  intros H. pose proof (of_le_bytes_bounds _ (slice_wellFormed b offset span H)).
  pose proof (length_slice b offset span).
  assert (256 ^ Z.of_nat (length (slice b offset span)) <= 256 ^ Z.of_nat span)
    by (apply Z.pow_le_mono_r; lia).
  lia.
Qed.

(** X11: the 64- and 128-bit integer fields and the fixed-point fields are
    read with [slice], which has no bounds check: a struct of such fields
    decodes every buffer of bytes at every offset, however short the buffer,
    and gives what it gives on the buffer extended by any number of zero
    bytes. *)
Theorem blob_fields_never_overrun (fields : Struct) (b : Buffer)
    (n offset : nat) :
  forallb (fun pf => blobBacked (snd pf)) fields = true ->
  wellFormed b ->
  (exists dest, decodeStruct fields b offset = Ok dest) /\
  decodeStruct fields (b ++ replicate n 0) offset
  = decodeStruct fields b offset.
Proof.
  intros Hf Hb. revert offset.
  induction fields as [|[p fd] fields IH]; intros offset.
  - split; [eexists|]; reflexivity.
  - cbn [forallb snd] in Hf. apply andb_true_iff in Hf. destruct Hf as [Hfd Hf].
    destruct (IH Hf (offset + span_of fd)%nat) as [[dest Hd] Hz].
    assert (Hv : (exists v, decodeField fd b offset = Ok v) /\
                 decodeField fd (b ++ replicate n 0) offset
                 = decodeField fd b offset).
    { destruct fd as [sp|sp sg| | |values sp|sp c]; try discriminate;
        cbn [decodeField]; cbv zeta; rewrite slice_zeros;
        (split; [|reflexivity]).
      - eexists. reflexivity.
      - pose proof (slice_value_bounds b offset 16 Hb) as Hr.
        change (256 ^ Z.of_nat 16) with (2 ^ 128) in Hr.
        destruct (toTwos_fromTwos _ Hr) as [Hrange _].
        change (8 * 16) with 128.
        rewrite (new_InRange _ (proj2 (InRange_bounds _) Hrange)).
        eexists. reflexivity. }
    destruct Hv as [[v Hv] Hvz]. cbn [decodeStruct]. rewrite Hvz, Hz, Hv, Hd.
    split; [eexists|]; reflexivity.
Qed.

End CodecFacts.

Lemma UInt_encode_decode_witness :
  Layout.readUIntLE [9; 1; 2; 9] 1 2 = Ok 513.
Proof.
  destruct (proj2 (UInt_encode_decode 2 513 [9; 9; 9; 9] 1) [9; 1; 2; 9] eq_refl)
    as (_ & _ & Hread & _).
  exact Hread.
Defined.

Lemma bool_encode_decode_witness :
  exists b', Codec.bool_encode true [7; 0] 1 = Ok b' /\
             Codec.bool_decode b' 1 = Ok true /\ length b' = 2%nat.
Proof. apply (bool_encode_decode true [7; 0] 1). cbn. lia. Defined.


Lemma BNLayout_encode_decode_witness :
  exists b',
    Codec.BNLayout_encode 8 true (-5) (replicate 10 0) 1 = Ok b' /\
    Codec.BNLayout_decode 8 true b' 1 = -5 /\
    length b' = 10%nat /\
    take 1 b' = [0] /\
    drop 9 b' = [0].
Proof.
  apply (BNLayout_encode_decode 8 true (-5) (replicate 10 0) 1).
  - lia.
  - cbn. lia.
  - cbn. lia.
Defined.

Lemma BNLayout_encode_unchecked_witness :
  Codec.BNLayout_encode 8 false (2 ^ 64) (replicate 8 0) 0 = Err BadLength /\
  Codec.BNLayout_encode 8 true (2 ^ 63) (replicate 8 0) 0
  = Codec.BNLayout_encode 8 true (2 ^ 63 - 2 ^ (8 * Z.of_nat 8)) (replicate 8 0) 0.
Proof.
  split.
  - apply (proj1 (BNLayout_encode_unchecked 8 (2 ^ 64) (replicate 8 0) 0
                    ltac:(lia))).
    cbn. lia.
  - apply (proj2 (proj2 (BNLayout_encode_unchecked 8 (2 ^ 63) (replicate 8 0) 0
                           ltac:(lia)))).
    cbn. lia.
Defined.

Lemma padding_keeps_decoded_witness :
  Layout.LyraeInstructionsUnion_decode Layout.LyraeInstructionLayout
    [2; 0; 0; 0; 5; 0; 0; 0; 0; 0; 0; 0] 0
  = Ok ("Deposit"%string, [("quantity"%string, Layout.VNum 5)]).
Proof.
  apply (proj2 (padding_keeps_decoded Layout.LyraeInstructionLayout []
                  [2; 0; 0; 0; 5; 0; 0; 0; 0; 0; 0; 0] 0 0) _).
  reflexivity.
Defined.

Lemma blob_fields_never_overrun_witness :
  exists dest,
    Layout.decodeStruct
      [("quantity", Layout.u64); ("price", Layout.I80F48Layout)]%string
      [1; 2] 1 = Ok dest.
Proof.
  apply (blob_fields_never_overrun
           [("quantity", Layout.u64); ("price", Layout.I80F48Layout)]%string
           [1; 2] 0 1).
  - reflexivity.
  - repeat constructor; lia.
Defined.

(* --------------------------------------------------------------------- *)
(** ** Index lookups of the group *)

Section GroupFacts.
Import Entities Group.

Lemma scan_seq {A : Type} (key : A -> PublicKey) (arr : list A)
    (pk : PublicKey) (s n : nat) :
  (s + n <= length arr)%nat ->
  match scan key arr pk (seq s n) with
  | Ok i =>
      (s <= i < s + n)%nat /\
      (exists a, arr !! i = Some a /\ key a = pk) /\
      (forall j a, (s <= j < i)%nat -> arr !! j = Some a -> key a <> pk)
  | Err e =>
      e = Invalid /\
      (forall j a, (s <= j < s + n)%nat -> arr !! j = Some a -> key a <> pk)
  end.
Proof.
  revert s. induction n as [|n IH]; intros s Hlen; cbn [seq scan].
  - split; [reflexivity|]. intros j a Hj. lia.
  - destruct (lookup_lt_is_Some_2 arr s ltac:(lia)) as [a Ha].
    unfold at_index. rewrite Ha. cbn [bind]. unfold PublicKey_equals.
    destruct (Z.eqb_spec (key a) pk) as [Heq|Hne].
    + split; [lia|]. split; [eauto|]. intros j a' Hj. lia.
    + specialize (IH (S s) ltac:(lia)).
      destruct (scan key arr pk (seq (S s) n)) as [i|e].
      * destruct IH as (Hi & Hfound & Hfirst). split; [lia|].
        split; [exact Hfound|]. intros j a' Hj Ha'.
        destruct (Nat.eq_dec j s) as [->|Hjs].
        -- rewrite Ha in Ha'. inversion Ha'. subst a'. exact Hne.
        -- apply (Hfirst j a'); [lia | exact Ha'].
      * destruct IH as (-> & Hnone). split; [reflexivity|].
        intros j a' Hj Ha'. destruct (Nat.eq_dec j s) as [->|Hjs].
        -- rewrite Ha in Ha'. inversion Ha'. subst a'. exact Hne.
        -- apply (Hnone j a'); [lia | exact Ha'].
Qed.

Lemma scan_first {A : Type} (key : A -> PublicKey) (arr : list A)
    (pk : PublicKey) (n : nat) :
  (n <= length arr)%nat ->
  FirstMatch key arr n pk (scan key arr pk (seq 0 n)).
Proof.
  intros Hlen. pose proof (scan_seq key arr pk 0 n ltac:(lia)) as H.
  unfold FirstMatch. destruct (scan key arr pk (seq 0 n)) as [i|e].
  - destruct H as (Hi & Hfound & Hfirst). split; [lia|].
    split; [exact Hfound|]. intros j a Hj. apply Hfirst. lia.
  - destruct H as (He & Hnone). split; [exact He|].
    intros j a Hj. apply Hnone. lia.
Qed.

(** X12: [getTokenIndex] and [getRootBankIndex] scan the whole token table,
    so they never read past it: each returns the least index whose mint (or
    root bank) is the key asked for, and throws its own error exactly when
    no token has that key. *)
Theorem token_lookups_first (this : Tables) (pk : PublicKey) :
  FirstMatch mint (tokens this) (length (tokens this)) pk
    (getTokenIndex this pk) /\
  FirstMatch rootBank (tokens this) (length (tokens this)) pk
    (getRootBankIndex this pk).
Proof. split; apply scan_first; lia. Qed.

(** X13: in a group that has a record for each of its [numOracles] markets,
    [getSpotMarketIndex], [getPerpMarketIndex] and [getOracleIndex] return
    the least index below [numOracles] whose key is the one asked for, and
    throw their own error exactly when none of the first [numOracles]
    entries has it; an entry at [numOracles] or beyond is never found. *)
Theorem market_lookups_first {num : Type} (this : LyraeGroup num)
    (oracles : list PublicKey) (pk : PublicKey) :
  (numOracles this <= length (spotMarkets this))%nat ->
  (numOracles this <= length (perpMarkets this))%nat ->
  (numOracles this <= length oracles)%nat ->
  FirstMatch spotMarket (spotMarkets this) (numOracles this) pk
    (getSpotMarketIndex this pk) /\
  FirstMatch perpMarket (perpMarkets this) (numOracles this) pk
    (getPerpMarketIndex this pk) /\
  FirstMatch (fun o => o) oracles (numOracles this) pk
    (getOracleIndex (numOracles this) oracles pk).
Proof.
  intros Hs Hp Ho. split; [|split]; apply scan_first; assumption.
Qed.

Lemma loadOracles_nonzero (decoded : list PublicKey) (i : nat) (o : PublicKey) :
  loadOracles decoded !! i = Some o -> PublicKey_equals o zeroKey = false.
Proof.
  intros H. apply list_elem_of_lookup_2 in H. unfold loadOracles in H.
  apply list_elem_of_In, filter_In in H. destruct H as [_ H].
  apply negb_true_iff in H. exact H.
Qed.

(** X14: the constructor of the group drops the zero keys from the oracle
    table, so the test of [getTokenDecimals] for a zero oracle never
    succeeds and its error "No oracle for this tokenIndex" is never thrown.
    For a token of the table the function returns the recorded decimals
    when they are not zero; when they are zero it returns 6 if the filtered
    oracle table has an entry at that index, and fails on the missing entry
    otherwise. *)
Theorem getTokenDecimals_oracle_error_dead (this : Tables)
    (decoded : list PublicKey) (tokenIndex : nat) (t : TokenInfo) :
  oracles this = loadOracles decoded ->
  tokens this !! tokenIndex = Some t ->
  getTokenDecimals this tokenIndex <> Err Invalid /\
  getTokenDecimals this tokenIndex
  = (if decimals t =? 0
     then if (tokenIndex <? length (loadOracles decoded))%nat
          then Ok 6 else Err Undefined
     else Ok (decimals t)).
Proof.
  intros Ho Ht.
  assert (Heq : getTokenDecimals this tokenIndex
                = (if decimals t =? 0
                   then if (tokenIndex <? length (loadOracles decoded))%nat
                        then Ok 6 else Err Undefined
                   else Ok (decimals t))).
  { unfold getTokenDecimals, at_index. rewrite Ht, Ho. cbn [bind].
    destruct (decimals t =? 0); [|reflexivity].
    destruct (Nat.ltb_spec tokenIndex (length (loadOracles decoded))) as [Hlt|Hge].
    - destruct (lookup_lt_is_Some_2 _ _ Hlt) as [o Hlook]. rewrite Hlook.
      cbn [bind]. rewrite (loadOracles_nonzero decoded tokenIndex o Hlook).
      reflexivity.
    - rewrite lookup_ge_None_2 by lia. reflexivity. }
  split; [|exact Heq]. rewrite Heq.
  destruct (decimals t =? 0); [|discriminate].
  destruct (tokenIndex <? length (loadOracles decoded))%nat; discriminate.
Qed.

End GroupFacts.

Lemma market_lookups_first_witness :
  Group.FirstMatch Entities.spotMarket
    (Entities.spotMarkets Examples.group) (Entities.numOracles Examples.group)
    7 (Group.getSpotMarketIndex Examples.group 7).
Proof.
  apply (market_lookups_first Examples.group [31] 7); cbn; lia.
Defined.

Lemma getTokenDecimals_oracle_error_dead_witness :
  Group.getTokenDecimals Samples.tables 1 <> Err Invalid /\
  Group.getTokenDecimals Samples.tables 1 = Err Undefined.
Proof.
  apply (getTokenDecimals_oracle_error_dead Samples.tables [31; 0] 1
           {| Group.mint := 12; Group.rootBank := 22; Group.decimals := 0 |});
    reflexivity.
Defined.

(* --------------------------------------------------------------------- *)
(** ** Health: the two evaluations, the two health types, empty accounts *)

Lemma foldM_lockstep {S T : Type} (R : S -> T -> Prop)
    (body1 : nat -> S -> Result S) (body2 : nat -> T -> Result T)
    (l : list nat) :
  (forall i s t s', R s t -> body1 i s = Ok s' ->
                    exists t', body2 i t = Ok t' /\ R s' t') ->
  forall s t s', R s t -> Entities.foldM body1 l s = Ok s' ->
                 exists t', Entities.foldM body2 l t = Ok t' /\ R s' t'.
Proof.
  intros Hstep. induction l as [|i l IH]; intros s t s' HR Hrun;
    cbn [Entities.foldM] in *.
  - inversion Hrun; subst. eauto.
  - bind_inv Hrun. destruct (Hstep _ _ _ _ HR E) as (t1 & Ht1 & HR1).
    rewrite Ht1. cbn [bind]. eapply IH; eassumption.
Qed.

Lemma foldM_fixed {S : Type} (body : nat -> S -> Result S) (l : list nat)
    (s : S) :
  (forall i, i ∈ l -> body i s = Ok s) -> Entities.foldM body l s = Ok s.
Proof.
  induction l as [|i l IH]; intros H; cbn [Entities.foldM]; [reflexivity|].
  rewrite H by (apply elem_of_cons; auto). cbn [bind].
  apply IH. intros j Hj. apply H, elem_of_cons. auto.
Qed.

Lemma new_zero : I80F48.new 0 = Ok 0.
Proof. apply new_InRange. range_bounds. lia. Qed.

Lemma mul_zero_l (y : Z) : I80F48.mul 0 y = Ok 0.
Proof. rewrite mul_quot, Z.mul_0_l, Z.quot_0_l by lia. apply new_zero. Qed.

Lemma imul_zero_l (y : Z) : I80F48.imul 0 y = 0.
Proof. rewrite imul_quot, Z.mul_0_l, Z.quot_0_l by lia. reflexivity. Qed.

Lemma mul_sign (s p t : Z) :
  I80F48.mul s p = Ok t -> 0 <= p ->
  (0 <= s -> 0 <= t) /\ (s <= 0 -> t <= 0).
Proof.
  rewrite mul_quot. intros H Hp. apply new_Ok in H. destruct H as [-> _]. split.
  - intros Hs. apply Z.quot_pos; [apply Z.mul_nonneg_nonneg; assumption | lia].
  - intros Hs. assert (Hq : 0 <= Z.quot (- (s * p)) (2 ^ 48)).
    { apply Z.quot_pos; [|lia]. nia. }
    rewrite Z.quot_opp_l in Hq by lia. lia.
Qed.

Lemma imul_mono_pos (t w1 w2 : Z) :
  0 <= t -> w1 <= w2 -> I80F48.imul t w1 <= I80F48.imul t w2.
Proof.
  intros Ht Hw. rewrite !imul_quot. apply Z.quot_le_mono; [lia | nia].
Qed.

Lemma imul_mono_neg (t w1 w2 : Z) :
  t <= 0 -> w1 <= w2 -> I80F48.imul t w2 <= I80F48.imul t w1.
Proof.
  intros Ht Hw. rewrite !imul_quot. apply Z.quot_le_mono; [lia | nia].
Qed.

Lemma asset_steps (x p w acc t u v : Z) :
  I80F48.mul x p = Ok t -> I80F48.mul t w = Ok u -> I80F48.add u acc = Ok v ->
  v = acc + I80F48.imul t w.
Proof.
  intros _ Hu Hv. rewrite mul_quot in Hu. apply new_Ok in Hu.
  destruct Hu as [-> _]. apply add_Ok in Hv. rewrite imul_quot. lia.
Qed.

Lemma liab_steps (x p w acc n t u v : Z) :
  x <= 0 -> 0 <= p ->
  I80F48.neg x = Ok n -> I80F48.mul n p = Ok t -> I80F48.mul t w = Ok u ->
  I80F48.add u acc = Ok v ->
  exists t', I80F48.mul x p = Ok t' /\ v = acc - I80F48.imul t' w.
Proof.
  intros Hx Hp Hn Ht Hu Hv. apply neg_Ok in Hn. subst n.
  pose proof (mul_sign _ _ _ Ht Hp) as [Hpos _].
  rewrite mul_quot in Ht. apply new_Ok in Ht. destruct Ht as [-> Hr].
  rewrite Z.mul_opp_l, Z.quot_opp_l in Hr, Hu, Hpos by lia.
  specialize (Hpos ltac:(lia)).
  exists (Z.quot (x * p) (2 ^ 48)). split.
  - rewrite mul_quot. apply new_InRange. range_bounds. lia.
  - rewrite mul_quot in Hu. apply new_Ok in Hu. destruct Hu as [-> _].
    apply add_Ok in Hv. rewrite imul_quot.
    rewrite Z.mul_opp_l, Z.quot_opp_l in Hv by lia. lia.
Qed.

Lemma isPos_false (x : Z) : I80F48.isPos x = false -> x <= 0.
Proof.
  unfold I80F48.isPos, I80F48.gt, I80F48.ZERO_I80F48.
  destruct (Z.gtb_spec x 0); [discriminate | lia].
Qed.

Lemma isPos_true (x : Z) : I80F48.isPos x = true -> 0 < x.
Proof.
  unfold I80F48.isPos, I80F48.gt, I80F48.ZERO_I80F48.
  destruct (Z.gtb_spec x 0); [lia | discriminate].
Qed.

Section MoreHealth.
Import I80F48 Entities Health Account.

Variable getQuotePosition : PerpAccount -> option (PerpMarketCache Z) -> Result Z.
Variables (lyraeGroup : LyraeGroup Z) (lyraeCache : LyraeCache Z).

Lemma price_nonneg (i : nat) (pc : PriceCache Z) :
  Forall (fun pc => 0 <= price pc) (priceCache lyraeCache) ->
  at_index (priceCache lyraeCache) i = Ok pc -> 0 <= price pc.
Proof.
  intros Hp H. apply at_index_Ok in H. exact (Forall_lookup_1 _ _ _ _ Hp H).
Qed.

Lemma weighted_health_step (spot perps : list Z) (ht : HealthType) (i : nat)
    (al al' : Z * Z) :
  Forall (fun pc => 0 <= price pc) (priceCache lyraeCache) ->
  weightedStep lyraeGroup lyraeCache spot perps (Some ht) i al = Ok al' ->
  healthStep lyraeGroup lyraeCache spot perps ht i (fst al - snd al)
  = Ok (fst al' - snd al').
Proof.
  intros Hprice H. destruct al as [a l]. unfold weightedStep in H.
  unfold healthStep. cbn [fst snd].
  bind_inv H. rename v into w, E into Ew.
  bind_inv H. rename v into pc, E into Epc.
  bind_inv H. rename v into s, E into Es.
  bind_inv H. destruct v as [a1 l1]. rename E into Espot.
  bind_inv H. rename v into p, E into Ep.
  rewrite Ew, Epc, Es. cbn [bind]. rewrite Ep.
  pose proof (price_nonneg _ _ Hprice Epc) as Hp.
  assert (Hs : exists t, mul s (price pc) = Ok t /\
                 a1 - l1 = a - l
                   + imul t (if isPos s then spotAssetWeight w
                             else spotLiabWeight w)).
  { destruct (isPos s) eqn:Hpos.
    - bind_inv Espot. bind_inv Espot. bind_inv Espot.
      inversion Espot; subst. exists v. split; [assumption|].
      rewrite (asset_steps _ _ _ _ _ _ _ E E0 E1). lia.
    - bind_inv Espot. bind_inv Espot. bind_inv Espot. bind_inv Espot.
      inversion Espot; subst.
      destruct (liab_steps _ _ _ _ _ _ _ _ (isPos_false _ Hpos) Hp E E0 E1 E2)
        as (t' & Ht' & ->).
      exists t'. split; [assumption | lia]. }
  destruct Hs as (t & Ht & Hspot). rewrite Ht. cbn [bind].
  assert (Hq : exists u, mul p (price pc) = Ok u /\
                 fst al' - snd al' = a1 - l1
                   + imul u (if isPos p then perpAssetWeight w
                             else perpLiabWeight w)).
  { destruct (isPos p) eqn:Hpos.
    - bind_inv H. bind_inv H. bind_inv H.
      inversion H; subst. cbn [fst snd]. exists v. split; [assumption|].
      rewrite (asset_steps _ _ _ _ _ _ _ E E0 E1). lia.
    - bind_inv H. bind_inv H. bind_inv H. bind_inv H.
      inversion H; subst. cbn [fst snd].
      destruct (liab_steps _ _ _ _ _ _ _ _ (isPos_false _ Hpos) Hp E E0 E1 E2)
        as (t' & Ht' & ->).
      exists t'. split; [assumption | lia]. }
  destruct Hq as (u & Hu & Hperp). rewrite Hu. cbn [bind].
  f_equal. unfold iadd. lia.
Qed.

(** X15: the two evaluations of the components agree.  With cached prices
    that are not negative, whenever [getWeightedAssetsLiabsVals] returns
    the weighted assets and liabilities of the components for a health
    type, [getHealthFromComponents] returns for the same components and
    type exactly their difference: the truncation toward zero of each
    product makes a liability term the opposite of the health term. *)
Theorem health_is_assets_minus_liabs (spot perps : list Z) (quote : Z)
    (healthType : HealthType) (assets liabs : Z) :
  Forall (fun pc => 0 <= price pc) (priceCache lyraeCache) ->
  getWeightedAssetsLiabsVals lyraeGroup lyraeCache spot perps quote
    (Some healthType) = Ok (assets, liabs) ->
  getHealthFromComponents lyraeGroup lyraeCache spot perps quote healthType
  = Ok (assets - liabs).
Proof.
  intros Hprice H. unfold getWeightedAssetsLiabsVals in H. bind_inv H.
  unfold getHealthFromComponents, forLoop in *.
  assert (Hq : quote = fst v - snd v).
  { destruct (isPos quote).
    - bind_inv E. inversion E; subst. apply add_Ok in E0. cbn.
      unfold ZERO_I80F48 in *. lia.
    - bind_inv E. bind_inv E. inversion E; subst. apply neg_Ok in E0.
      apply add_Ok in E1. cbn. unfold ZERO_I80F48 in *. lia. }
  destruct (foldM_lockstep (fun (al : Z * Z) (h : Z) => h = fst al - snd al)
              (weightedStep lyraeGroup lyraeCache spot perps (Some healthType))
              (healthStep lyraeGroup lyraeCache spot perps healthType)
              (seq 0 (numOracles lyraeGroup))) with (s := v) (t := quote)
              (s' := (assets, liabs)) as (h & Hh & ->).
  - intros i s t s' -> Hs. eexists. split; [|reflexivity].
    apply weighted_health_step; assumption.
  - exact Hq.
  - exact H.
  - exact Hh.
Qed.

Lemma getWeights_both (i : nat) (wm : Weights Z) :
  InitStricter lyraeGroup lyraeCache ->
  getWeights ONE_I80F48 lyraeGroup i (Some Maint) = Ok wm ->
  exists wi,
    getWeights ONE_I80F48 lyraeGroup i (Some Init) = Ok wi /\
    spotAssetWeight wi <= spotAssetWeight wm /\
    spotLiabWeight wm <= spotLiabWeight wi /\
    perpAssetWeight wi <= perpAssetWeight wm /\
    perpLiabWeight wm <= perpLiabWeight wi.
Proof.
  intros (_ & Hs & Hp) H. unfold getWeights in *.
  bind_inv H. bind_inv H. inversion H; subst. rewrite E, E0. cbn [bind].
  eexists. split; [reflexivity|]. cbn.
  apply at_index_Ok in E, E0.
  pose proof (Forall_lookup_1 _ _ _ _ Hs E) as Hs'.
  pose proof (Forall_lookup_1 _ _ _ _ Hp E0) as Hp'. cbn in *. lia.
Qed.

Lemma health_step_stricter (spot perps : list Z) (i : nat) (hm hi hm' : Z) :
  InitStricter lyraeGroup lyraeCache ->
  hi <= hm ->
  healthStep lyraeGroup lyraeCache spot perps Maint i hm = Ok hm' ->
  exists hi',
    healthStep lyraeGroup lyraeCache spot perps Init i hi = Ok hi' /\
    hi' <= hm'.
Proof.
  intros Hstrict Hle H. unfold healthStep in *.
  bind_inv H. rename v into wm, E into Ew.
  destruct (getWeights_both i wm Hstrict Ew) as (wi & Ewi & Hsa & Hsl & Hpa & Hpl).
  rewrite Ewi. cbn [bind].
  bind_inv H. rename v into pc, E into Epc. rewrite Epc. cbn [bind].
  pose proof (price_nonneg _ _ (proj1 Hstrict) Epc) as Hp.
  bind_inv H. rename v into s, E into Es. rewrite Es. cbn [bind].
  bind_inv H. rename v into t, E into Et. rewrite Et. cbn [bind].
  bind_inv H. rename v into p, E into Ep. rewrite Ep. cbn [bind].
  bind_inv H. rename v into u, E into Eu. rewrite Eu. cbn [bind].
  inversion H; subst. eexists. split; [reflexivity|].
  pose proof (mul_sign _ _ _ Et Hp) as [Htp Htn].
  pose proof (mul_sign _ _ _ Eu Hp) as [Hup Hun].
  assert (Hspot : imul t (if isPos s then spotAssetWeight wi
                          else spotLiabWeight wi)
                  <= imul t (if isPos s then spotAssetWeight wm
                             else spotLiabWeight wm)).
  { destruct (isPos s) eqn:Hpos.
    - apply isPos_true in Hpos. apply imul_mono_pos; [apply Htp; lia | lia].
    - apply isPos_false in Hpos. apply imul_mono_neg; [apply Htn; lia | lia]. }
  assert (Hperp : imul u (if isPos p then perpAssetWeight wi
                          else perpLiabWeight wi)
                  <= imul u (if isPos p then perpAssetWeight wm
                             else perpLiabWeight wm)).
  { destruct (isPos p) eqn:Hpos.
    - apply isPos_true in Hpos. apply imul_mono_pos; [apply Hup; lia | lia].
    - apply isPos_false in Hpos. apply imul_mono_neg; [apply Hun; lia | lia]. }
  unfold iadd. lia.
Qed.

Lemma getHealth_stricter (this : LyraeAccount) (hm : Z) :
  InitStricter lyraeGroup lyraeCache ->
  getHealth getQuotePosition this lyraeGroup lyraeCache Maint = Ok hm ->
  exists hi,
    getHealth getQuotePosition this lyraeGroup lyraeCache Init = Ok hi /\
    hi <= hm.
Proof.
  intros Hstrict H. unfold getHealth in *. bind_inv H. rewrite E. cbn [bind].
  unfold getHealthFromComponents, forLoop in *.
  apply (foldM_lockstep (fun hm hi : Z => hi <= hm)
           (healthStep lyraeGroup lyraeCache (spot v) (perps v) Maint)
           (healthStep lyraeGroup lyraeCache (spot v) (perps v) Init)
           (seq 0 (numOracles lyraeGroup))) with (s := quote v).
  - intros i s t s' Hle Hs. eapply health_step_stricter; eassumption.
  - lia.
  - exact H.
Qed.

(** X16: when the Init weights are at least as strict as the Maint weights
    (asset weights not larger, liability weights not smaller) and prices
    are not negative, an account whose Maint health is computed has an Init
    health, and it is not above the Maint health. *)
Theorem init_health_at_most_maint (this : LyraeAccount) (maint : Z) :
  InitStricter lyraeGroup lyraeCache ->
  getHealth getQuotePosition this lyraeGroup lyraeCache Maint = Ok maint ->
  exists init,
    getHealth getQuotePosition this lyraeGroup lyraeCache Init = Ok init /\
    init <= maint.
Proof. apply getHealth_stricter. Qed.

(** X17: under the same condition on the weights, [isLiquidatable] is a
    test of one health: of the Init health for an account that is being
    liquidated, of the Maint health for any other account; it fails only
    where the Maint health does. *)
Theorem isLiquidatable_one_health (this : LyraeAccount) (maint : Z) :
  InitStricter lyraeGroup lyraeCache ->
  getHealth getQuotePosition this lyraeGroup lyraeCache Maint = Ok maint ->
  exists init,
    getHealth getQuotePosition this lyraeGroup lyraeCache Init = Ok init /\
    isLiquidatable getQuotePosition this lyraeGroup lyraeCache
    = Ok (if beingLiquidated this then init <? 0 else maint <? 0).
Proof.
  intros Hstrict Hm.
  destruct (getHealth_stricter this maint Hstrict Hm) as (init & Hi & Hle).
  exists init. split; [exact Hi|]. unfold isLiquidatable, isNeg.
  destruct (beingLiquidated this).
  - rewrite Hi. cbn [bind]. destruct (Z.ltb_spec init 0); [reflexivity|].
    rewrite Hm. cbn [bind]. destruct (Z.ltb_spec maint 0); [lia | reflexivity].
  - cbn [bind]. rewrite Hm. reflexivity.
Qed.

Lemma getNet_empty (this : LyraeAccount) (o : option (RootBankCache Z))
    (i : nat) :
  Empty this -> (i < MAX_TOKENS)%nat -> is_Some o ->
  getNet this o i = Ok 0.
Proof.
  intros (Hd & Hb & _) Hi [bc ->]. unfold getNet, at_index. rewrite Hd, Hb.
  rewrite !lookup_replicate_2 by exact Hi. cbn [bind prop].
  rewrite !mul_zero_l. cbn [bind]. unfold sub. apply new_zero.
Qed.

Lemma components_empty_step (this : LyraeAccount) (i : nat) (c : Components) :
  Empty this -> SpotOnly lyraeGroup lyraeCache ->
  (i < numOracles lyraeGroup)%nat ->
  spot c = replicate (numOracles lyraeGroup) 0 ->
  perps c = replicate (numOracles lyraeGroup) 0 ->
  componentsStep getQuotePosition this lyraeGroup lyraeCache i c = Ok c.
Proof.
  intros He (Hpc & Hsm & Hpm & Hmax & Hrb & Hzero) Hi Hs Hp.
  destruct c as [sp pp q]. cbn [spot perps quote] in *. subst sp pp.
  unfold componentsStep, spotComponent, perpComponent. cbn [quote spot perps].
  destruct (lookup_lt_is_Some_2 (priceCache lyraeCache) i ltac:(lia)) as [pc Epc].
  destruct (lookup_lt_is_Some_2 (perpMarkets lyraeGroup) i ltac:(lia)) as [pm Epm].
  unfold at_index. rewrite Epc, Epm. cbn [bind].
  rewrite (getNet_empty this _ i He).
  2: { unfold MAX_PAIRS in Hmax. lia. }
  2: { apply lookup_lt_is_Some_2. rewrite Hrb. unfold MAX_PAIRS in Hmax. lia. }
  cbn [bind].
  assert (Hb : inMarginBasket this !! i = Some true -> False).
  { intros Hl. destruct He as (_ & _ & Hf).
    pose proof (Forall_lookup_1 _ _ _ _ Hf Hl). discriminate. }
  destruct (inMarginBasket this !! i) as [[|]|];
    [exfalso; apply Hb; reflexivity | |];
    cbn [bind];
    rewrite (Forall_lookup_1 _ _ _ _ Hzero Epm);
    change (negb (PublicKey_equals zeroKey zeroKey)) with false;
    cbv iota; cbn [bind];
    rewrite !insert_replicate; reflexivity.
Qed.

Lemma getHealthComponents_empty (this : LyraeAccount) :
  Empty this -> SpotOnly lyraeGroup lyraeCache ->
  getHealthComponents getQuotePosition this lyraeGroup lyraeCache
  = Ok {| spot := replicate (numOracles lyraeGroup) 0;
          perps := replicate (numOracles lyraeGroup) 0;
          quote := 0 |}.
Proof.
  intros He Hso. unfold getHealthComponents. cbv zeta.
  rewrite (getNet_empty this _ QUOTE_INDEX He).
  2: { unfold QUOTE_INDEX, MAX_TOKENS. lia. }
  2: { apply lookup_lt_is_Some_2. destruct Hso as (_ & _ & _ & _ & -> & _).
       unfold QUOTE_INDEX, MAX_TOKENS. lia. }
  cbn [bind]. unfold forLoop, ZERO_I80F48. apply foldM_fixed.
  intros i Hi. apply elem_of_seq in Hi.
  apply components_empty_step; [assumption | assumption | lia | reflexivity
                               | reflexivity].
Qed.

Lemma getWeights_defined (i : nat) (ht : HealthType) :
  SpotOnly lyraeGroup lyraeCache -> (i < numOracles lyraeGroup)%nat ->
  exists w, getWeights ONE_I80F48 lyraeGroup i (Some ht) = Ok w.
Proof.
  intros (_ & Hsm & Hpm & _) Hi. unfold getWeights, at_index.
  destruct (lookup_lt_is_Some_2 (spotMarkets lyraeGroup) i ltac:(lia)) as [sm ->].
  destruct (lookup_lt_is_Some_2 (perpMarkets lyraeGroup) i ltac:(lia)) as [pm ->].
  destruct ht; cbn [bind]; eexists; reflexivity.
Qed.

Lemma health_empty (ht : HealthType) :
  SpotOnly lyraeGroup lyraeCache ->
  getHealthFromComponents lyraeGroup lyraeCache
    (replicate (numOracles lyraeGroup) 0) (replicate (numOracles lyraeGroup) 0)
    0 ht = Ok 0.
Proof.
  intros Hso. unfold getHealthFromComponents, forLoop. apply foldM_fixed.
  intros i Hi. apply elem_of_seq in Hi. unfold healthStep.
  destruct (getWeights_defined i ht Hso ltac:(lia)) as [w ->]. cbn [bind].
  destruct Hso as (Hpc & _).
  destruct (lookup_lt_is_Some_2 (priceCache lyraeCache) i ltac:(lia)) as [pc Epc].
  unfold at_index. rewrite Epc. cbn [bind].
  rewrite !lookup_replicate_2 by lia. cbn [bind].
  rewrite !mul_zero_l. cbn [bind]. rewrite !imul_zero_l. reflexivity.
Qed.

Lemma neg_zero : neg 0 = Ok 0.
Proof. rewrite neg_opp. apply new_zero. Qed.

Lemma weighted_empty (ht : HealthType) :
  SpotOnly lyraeGroup lyraeCache ->
  getWeightedAssetsLiabsVals lyraeGroup lyraeCache
    (replicate (numOracles lyraeGroup) 0) (replicate (numOracles lyraeGroup) 0)
    0 (Some ht) = Ok (0, 0).
Proof.
  intros Hso. unfold getWeightedAssetsLiabsVals.
  change (isPos 0) with false. cbv iota. rewrite neg_zero. cbn [bind].
  unfold add at 1. unfold ZERO_I80F48. change (0 + 0) with 0.
  rewrite new_zero. cbn [bind].
  unfold forLoop. apply foldM_fixed.
  intros i Hi. apply elem_of_seq in Hi. unfold weightedStep.
  destruct (getWeights_defined i ht Hso ltac:(lia)) as [w ->]. cbn [bind].
  destruct Hso as (Hpc & _).
  destruct (lookup_lt_is_Some_2 (priceCache lyraeCache) i ltac:(lia)) as [pc Epc].
  unfold at_index. rewrite Epc. cbn [bind].
  rewrite !lookup_replicate_2 by lia. cbn [bind].
  change (isPos 0) with false. cbv iota. unfold add. change (0 + 0) with 0.
  repeat first [ rewrite neg_zero | rewrite mul_zero_l | rewrite new_zero
               | progress cbn [bind] ].
  reflexivity.
Qed.

(** X18: an account that holds nothing (no deposit, no borrow, no market in
    its margin basket), on a group with no perp market registered, has
    health 0 for both health types and health ratio 100, is never
    liquidatable, whether or not it is flagged as being liquidated, and has
    no margin available on any market. *)
Theorem empty_account (this : LyraeAccount) (healthType : HealthType)
    (marketIndex : nat) (marketType : MarketType) :
  Empty this -> SpotOnly lyraeGroup lyraeCache ->
  getHealth getQuotePosition this lyraeGroup lyraeCache healthType = Ok 0 /\
  getHealthRatio getQuotePosition this lyraeGroup lyraeCache healthType
  = Ok (100 * 2 ^ 48) /\
  isLiquidatable getQuotePosition this lyraeGroup lyraeCache = Ok false /\
  getMarketMarginAvailable getQuotePosition this lyraeGroup lyraeCache
    marketIndex marketType = Ok 0.
Proof.
  intros He Hso.
  assert (Hh : forall ht,
             getHealth getQuotePosition this lyraeGroup lyraeCache ht = Ok 0).
  { intros ht. unfold getHealth.
    rewrite (getHealthComponents_empty this He Hso). cbn [bind spot perps quote].
    apply health_empty, Hso. }
  split; [apply Hh|]. split; [|split].
  - unfold getHealthRatio.
    rewrite (getHealthComponents_empty this He Hso). cbn [bind spot perps quote].
    rewrite (weighted_empty healthType Hso). reflexivity.
  - unfold isLiquidatable. rewrite !Hh.
    destruct (beingLiquidated this); reflexivity.
  - unfold getMarketMarginAvailable. rewrite Hh. reflexivity.
Qed.

(** X19: the balance that [getAvailableBalance] returns is never negative
    and never more than the larger of zero and the net balance of the
    token; for the quote token it is also never more than the larger of
    zero and the Init health. *)
Theorem available_balance_bounds (this : LyraeAccount) (tokenIndex : nat)
    (health net available : Z) :
  getHealth getQuotePosition this lyraeGroup lyraeCache Init = Ok health ->
  getNet this (rootBankCache lyraeCache !! tokenIndex) tokenIndex = Ok net ->
  getAvailableBalance getQuotePosition this lyraeGroup lyraeCache tokenIndex
  = Ok available ->
  0 <= available /\ available <= Z.max 0 net /\
  (tokenIndex = QUOTE_INDEX -> available = Z.max 0 (Z.min health net)).
Proof.
  intros Hh Hn H. unfold getAvailableBalance in H. rewrite Hh, Hn in H.
  cbn [bind] in H. unfold max, min, gte, lte, ZERO_I80F48 in H.
  destruct (Nat.eqb_spec tokenIndex QUOTE_INDEX) as [Hq|Hq].
  - inversion H; subst available.
    destruct (Z.leb_spec health net);
      [destruct (Z.geb_spec health 0) | destruct (Z.geb_spec net 0)]; lia.
  - bind_inv H. bind_inv H. bind_inv H. bind_inv H. inversion H; subst available.
    destruct (Z.leb_spec net v2);
      [destruct (Z.geb_spec net 0) | destruct (Z.geb_spec v2 0)];
      repeat split; try lia; intros; contradiction.
Qed.

(** X20: with an Init asset weight that is not negative, the margin
    available on a market is never negative and never below the Init
    health: dividing by [1 - weight] only scales a positive health up. *)
Theorem margin_available_at_least_health (this : LyraeAccount)
    (marketIndex : nat) (marketType : MarketType) (health margin : Z)
    (w : Weights Z) :
  getHealth getQuotePosition this lyraeGroup lyraeCache Init = Ok health ->
  getWeights ONE_I80F48 lyraeGroup marketIndex (Some Init) = Ok w ->
  0 <= match marketType with
       | Spot => spotAssetWeight w
       | Perp => perpAssetWeight w
       end ->
  getMarketMarginAvailable getQuotePosition this lyraeGroup lyraeCache
    marketIndex marketType = Ok margin ->
  0 <= margin /\ health <= margin.
Proof.
  intros Hh Hw Hweight H. unfold getMarketMarginAvailable in H.
  rewrite Hh in H. cbn [bind] in H. unfold lte, gte, ZERO_I80F48 in H.
  destruct (Z.leb_spec health 0); [inversion H; lia|].
  rewrite Hw in H. cbn [bind] in H. cbv zeta in H.
  set (weight := match marketType with
                 | Spot => spotAssetWeight w
                 | Perp => perpAssetWeight w
                 end) in *.
  unfold ONE_I80F48 in H.
  destruct (Z.geb_spec weight (2 ^ 48)); [inversion H; lia|].
  bind_inv H. unfold sub in E. apply new_Ok in E. destruct E as [-> _].
  rewrite div_quot in H by lia. apply new_Ok in H. destruct H as [-> _].
  assert (Hq : health <= Z.quot (health * 2 ^ 48) (2 ^ 48 - weight)).
  { apply Z.quot_le_lower_bound; [lia|]. nia. }
  lia.
Qed.

End MoreHealth.

Lemma health_is_assets_minus_liabs_witness :
  Health.getHealthFromComponents Examples.group Examples.cache
    [Examples.whole (-20)] [0] (Examples.whole 100) Entities.Maint
  = Ok (Examples.whole 100 - Examples.whole 250).
Proof.
  apply (health_is_assets_minus_liabs Examples.group Examples.cache
           [Examples.whole (-20)] [0] (Examples.whole 100) Entities.Maint
           (Examples.whole 100) (Examples.whole 250)).
  - repeat constructor. apply Z.leb_le. reflexivity.
  - vm_compute. reflexivity.
Defined.

Lemma Examples_InitStricter :
  Account.InitStricter Examples.group Examples.cache.
Proof.
  split; [|split]; repeat constructor; apply Z.leb_le; reflexivity.
Defined.

Lemma Examples_SpotOnly : Account.SpotOnly Examples.group Examples.cache.
Proof.
  unfold Account.SpotOnly. cbn.
  repeat split; try lia. repeat constructor.
Defined.

Lemma Samples_nobody_Empty : Account.Empty Samples.nobody.
Proof.
  split; [reflexivity|]. split; [reflexivity|]. repeat constructor.
Defined.

Lemma init_health_at_most_maint_witness :
  exists init,
    Health.getHealth Examples.storedQuotePosition Examples.borrower
      Examples.group Examples.cache Entities.Init = Ok init /\
    init <= Examples.whole (-150).
Proof.
  apply (init_health_at_most_maint Examples.storedQuotePosition
           Examples.group Examples.cache Examples.borrower).
  - exact Examples_InitStricter.
  - vm_compute. reflexivity.
Defined.

Lemma isLiquidatable_one_health_witness :
  exists init,
    Health.getHealth Examples.storedQuotePosition Examples.borrower
      Examples.group Examples.cache Entities.Init = Ok init /\
    Account.isLiquidatable Examples.storedQuotePosition Examples.borrower
      Examples.group Examples.cache
    = Ok (if Health.beingLiquidated Examples.borrower
          then init <? 0 else Examples.whole (-150) <? 0).
Proof.
  apply (isLiquidatable_one_health Examples.storedQuotePosition
           Examples.group Examples.cache Examples.borrower).
  - exact Examples_InitStricter.
  - vm_compute. reflexivity.
Defined.

Lemma empty_account_witness :
  Health.getHealth Examples.storedQuotePosition Samples.nobody
    Examples.group Examples.cache Entities.Init = Ok 0 /\
  Health.getHealthRatio Examples.storedQuotePosition Samples.nobody
    Examples.group Examples.cache Entities.Init = Ok (100 * 2 ^ 48) /\
  Account.isLiquidatable Examples.storedQuotePosition Samples.nobody
    Examples.group Examples.cache = Ok false /\
  Health.getMarketMarginAvailable Examples.storedQuotePosition Samples.nobody
    Examples.group Examples.cache 0 Health.Spot = Ok 0.
Proof.
  apply (empty_account Examples.storedQuotePosition Examples.group
           Examples.cache Samples.nobody Entities.Init 0 Health.Spot).
  - exact Samples_nobody_Empty.
  - exact Examples_SpotOnly.
Defined.

Lemma available_balance_bounds_witness :
  0 <= Examples.whole 1000 /\
  Examples.whole 1000 <= Z.max 0 (Examples.whole 1000) /\
  (Entities.QUOTE_INDEX = Entities.QUOTE_INDEX ->
   Examples.whole 1000
   = Z.max 0 (Z.min 292733975779082240 (Examples.whole 1000))).
Proof.
  apply (available_balance_bounds Examples.storedQuotePosition
           Examples.group Examples.cache Examples.trader
           Entities.QUOTE_INDEX 292733975779082240 (Examples.whole 1000)
           (Examples.whole 1000)).
  - vm_compute. reflexivity.
  - vm_compute. reflexivity.
  - vm_compute. reflexivity.
Defined.

Lemma margin_available_at_least_health_witness :
  0 <= 585467951558164480 /\ 292733975779082240 <= 585467951558164480.
Proof.
  apply (margin_available_at_least_health Examples.storedQuotePosition
           Examples.group Examples.cache Examples.trader 0 Health.Spot
           292733975779082240 585467951558164480
           {| Entities.spotAssetWeight := 2 ^ 47;
              Entities.spotLiabWeight := 3 * 2 ^ 47;
              Entities.perpAssetWeight := 2 ^ 47;
              Entities.perpLiabWeight := 3 * 2 ^ 47 |}).
  - vm_compute. reflexivity.
  - reflexivity.
  - cbn. lia.
  - vm_compute. reflexivity.
Defined.

(* --------------------------------------------------------------------- *)
(** ** Interest rates of a root bank *)

Lemma div_Ok (x y v : Z) :
  I80F48.div x y = Ok v -> y <> 0 /\ v = Z.quot (x * 2 ^ 48) y.
Proof.
  intros H. destruct (Z.eq_dec y 0) as [->|Hy].
  - unfold I80F48.div, BN.div in H. cbn in H. discriminate.
  - split; [exact Hy|]. rewrite div_quot in H by exact Hy.
    apply new_Ok in H. tauto.
Qed.

Lemma mul_Ok (x y v : Z) :
  I80F48.mul x y = Ok v -> v = Z.quot (x * y) (2 ^ 48).
Proof. rewrite mul_quot. intros H. apply new_Ok in H. tauto. Qed.

Lemma sub_Ok (x y v : Z) : I80F48.sub x y = Ok v -> v = x - y.
Proof. unfold I80F48.sub. intros H. apply new_Ok in H. tauto. Qed.

(** Names the value and the equation of the first step of a sequence. *)
Ltac bind_as H x Hx := apply bind_Ok in H; destruct H as (x & Hx & H).

Lemma quot_scaled_le (a c k : Z) :
  0 <= a -> 0 < k -> a <= c * k -> Z.quot a k <= c.
Proof.
  intros Ha Hk Hle. rewrite <- (Z.quot_mul c k) by lia.
  apply Z.quot_le_mono; lia.
Qed.

Section BankFacts.
Import I80F48 Bank.

Variables (this : RootBank) (lyraeGroup : Group.Tables).
Variables (totalBorrows totalDeposits : Z).
Hypothesis Hborrows : getUiTotalBorrow this lyraeGroup = Ok totalBorrows.
Hypothesis Hdeposits : getUiTotalDeposit this lyraeGroup = Ok totalDeposits.
Hypothesis Hb : 0 <= totalBorrows.
Hypothesis Hd : 0 <= totalDeposits.
Hypothesis Hutil : 0 <= optimalUtil this.
Hypothesis Hrate : 0 <= optimalRate this <= maxRate this.

Lemma utilization_range (u : Z) :
  totalBorrows < totalDeposits ->
  u = Z.quot (totalBorrows * 2 ^ 48) totalDeposits ->
  0 <= u < 2 ^ 48.
Proof.
  intros Hlt ->. split.
  - apply Z.quot_pos; lia.
  - apply Z.quot_lt_upper_bound; nia.
Qed.

Lemma getBorrowRate_cases (rate : Z) :
  getBorrowRate this lyraeGroup = Ok rate ->
  0 <= rate <= maxRate this /\
  (totalBorrows = 0 -> rate = 0) /\
  (0 < totalBorrows -> totalDeposits <= totalBorrows -> rate = maxRate this) /\
  (totalBorrows < totalDeposits ->
   if Z.quot (totalBorrows * 2 ^ 48) totalDeposits >? optimalUtil this
   then optimalRate this <= rate else rate <= optimalRate this).
Proof.
  unfold getBorrowRate. rewrite Hborrows, Hdeposits. cbn [bind].
  unfold eq, lte, gt, ZERO_I80F48.
  destruct (Z.eqb_spec totalDeposits 0) as [Hd0|Hd0];
    destruct (Z.eqb_spec totalBorrows 0) as [Hb0|Hb0]; cbn [andb].
  - intros H. inversion H; subst. repeat split; try lia.
  - destruct (Z.leb_spec totalDeposits totalBorrows) as [Hdb|Hdb]; [|lia].
    intros H. inversion H; subst. repeat split; try lia.
  - destruct (Z.leb_spec totalDeposits totalBorrows) as [Hdb|Hdb]; [lia|].
    intros H. bind_inv H. apply div_Ok in E. destruct E as [_ Eu].
    pose proof (utilization_range v ltac:(lia) Eu) as Hu.
    assert (Hv0 : v = 0) by (rewrite Eu, Hb0; apply Z.quot_0_l; lia).
    rewrite <- Eu. clear Eu Hu. rewrite Hv0 in *.
    destruct (Z.gtb_spec 0 (optimalUtil this)) as [Hou|Hou]; [lia|].
    bind_inv H. apply mul_Ok in H. rewrite Z.mul_0_r, Z.quot_0_l in H by lia.
    subst rate. repeat split; lia.
  - destruct (Z.leb_spec totalDeposits totalBorrows) as [Hdb|Hdb].
    + intros H. inversion H; subst. repeat split; try lia.
    + intros H. bind_inv H. apply div_Ok in E. destruct E as [_ Eu].
      pose proof (utilization_range v ltac:(lia) Eu) as Hu. rewrite <- Eu.
      destruct (Z.gtb_spec v (optimalUtil this)) as [Hgt|Hle].
      * bind_as H extraUtil Ee. apply sub_Ok in Ee.
        bind_as H dr Edr. apply sub_Ok in Edr.
        bind_as H one Eone.
        change (fromNumber 1) with (Ok (2 ^ 48) : Result Z) in Eone.
        inversion Eone; subst one; clear Eone.
        bind_as H du Edu. apply sub_Ok in Edu.
        bind_as H slope Es. apply div_Ok in Es. destruct Es as [_ Es].
        bind_as H m Em. apply mul_Ok in Em. apply add_Ok in H.
        subst extraUtil dr du.
        assert (Hs : 0 <= slope).
        { subst slope. apply Z.quot_pos; nia. }
        assert (Hsd : slope * (2 ^ 48 - optimalUtil this)
                      <= (maxRate this - optimalRate this) * 2 ^ 48).
        { subst slope. rewrite Z.mul_comm. apply Z.mul_quot_le; nia. }
        assert (Hm : 0 <= m <= maxRate this - optimalRate this).
        { subst m. split.
          - apply Z.quot_pos; nia.
          - apply quot_scaled_le; nia. }
        repeat split; lia.
      * bind_inv H. apply div_Ok in E. destruct E as [Hou Es].
        apply mul_Ok in H.
        assert (Hs : 0 <= v0).
        { subst v0. apply Z.quot_pos; nia. }
        assert (Hsd : v0 * optimalUtil this <= optimalRate this * 2 ^ 48).
        { subst v0. rewrite Z.mul_comm. apply Z.mul_quot_le; nia. }
        assert (Hm : 0 <= rate <= optimalRate this).
        { subst rate. split.
          - apply Z.quot_pos; nia.
          - apply quot_scaled_le; nia. }
        repeat split; lia.
Qed.

(** X21: for a bank whose totals are not negative, whose optimal
    utilization is not negative and whose optimal rate lies between 0 and
    the maximal rate, the borrow rate that [getBorrowRate] returns lies
    between 0 and the maximal rate.  It is 0 when nothing is borrowed and
    the maximal rate when the borrows reach the deposits; between, with
    the utilization truncated to 48 fractional bits, it is at least the
    optimal rate above the optimal utilization and at most the optimal rate
    up to it. *)
Theorem borrow_rate_bounds (rate : Z) :
  getBorrowRate this lyraeGroup = Ok rate ->
  0 <= rate <= maxRate this /\
  (totalBorrows = 0 -> rate = 0) /\
  (0 < totalBorrows -> totalDeposits <= totalBorrows -> rate = maxRate this) /\
  (totalBorrows < totalDeposits ->
   if Z.quot (totalBorrows * 2 ^ 48) totalDeposits >? optimalUtil this
   then optimalRate this <= rate else rate <= optimalRate this).
Proof. apply getBorrowRate_cases. Qed.

(** X22: under the same conditions the deposit rate that [getDepositRate]
    returns is not negative; it is at most the borrow rate while the
    borrows do not exceed the deposits, and at least the borrow rate (the
    maximal rate) once they reach them. *)
Theorem deposit_rate_against_borrow_rate (borrowRate depositRate : Z) :
  getBorrowRate this lyraeGroup = Ok borrowRate ->
  getDepositRate this lyraeGroup = Ok depositRate ->
  0 <= depositRate /\
  (totalBorrows <= totalDeposits -> depositRate <= borrowRate) /\
  (totalDeposits <= totalBorrows -> borrowRate <= depositRate).
Proof.
  intros Hbr H. pose proof (getBorrowRate_cases borrowRate Hbr)
    as (Hrange & Hzero & Hmax & _).
  unfold getDepositRate in H. rewrite Hbr, Hborrows, Hdeposits in H.
  cbn [bind] in H. unfold eq, ZERO_I80F48 in H.
  destruct (Z.eqb_spec totalDeposits 0) as [Hd0|Hd0];
    destruct (Z.eqb_spec totalBorrows 0) as [Hb0|Hb0]; cbn [andb] in H.
  - inversion H; subst depositRate. specialize (Hzero Hb0). lia.
  - inversion H; subst depositRate.
    specialize (Hmax ltac:(lia) ltac:(lia)). lia.
  - bind_inv H. apply div_Ok in E. destruct E as [_ Eu]. apply mul_Ok in H.
    rewrite Hb0, Z.mul_0_l, Z.quot_0_l in Eu by lia. subst v.
    rewrite Z.mul_0_l, Z.quot_0_l in H by lia. specialize (Hzero Hb0). lia.
  - bind_inv H. apply div_Ok in E. destruct E as [_ Eu]. apply mul_Ok in H.
    assert (Hu : 0 <= v) by (subst v; apply Z.quot_pos; nia).
    split; [subst depositRate; apply Z.quot_pos; nia|]. split.
    + intros Hle.
      assert (v <= 2 ^ 48) by (subst v; apply quot_scaled_le; nia).
      subst depositRate. apply quot_scaled_le; nia.
    + intros Hle. specialize (Hmax ltac:(lia) Hle).
      assert (2 ^ 48 <= v).
      { subst v. apply Z.quot_le_lower_bound; nia. }
      subst depositRate. apply Z.quot_le_lower_bound; nia.
Qed.

End BankFacts.

Lemma borrow_rate_bounds_witness :
  0 <= 2 ^ 44 <= Bank.maxRate Samples.bank.
Proof.
  apply (borrow_rate_bounds Samples.bank Samples.tables 70368744 281474976).
  - vm_compute. reflexivity.
  - vm_compute. reflexivity.
  - lia.
  - lia.
  - apply Z.leb_le. reflexivity.
  - split; apply Z.leb_le; reflexivity.
  - vm_compute. reflexivity.
Defined.

Lemma deposit_rate_against_borrow_rate_witness :
  0 <= 2 ^ 42 /\
  (70368744 <= 281474976 -> 2 ^ 42 <= 2 ^ 44) /\
  (281474976 <= 70368744 -> 2 ^ 44 <= 2 ^ 42).
Proof.
  apply (deposit_rate_against_borrow_rate Samples.bank Samples.tables
           70368744 281474976).
  - vm_compute. reflexivity.
  - vm_compute. reflexivity.
  - lia.
  - lia.
  - apply Z.leb_le. reflexivity.
  - split; apply Z.leb_le; reflexivity.
  - vm_compute. reflexivity.
  - vm_compute. reflexivity.
Defined.

(* --------------------------------------------------------------------- *)
(** ** The transaction built by [settlePnl] *)

Section SettleTransaction.
Import I80F48 Entities Settle.

Lemma settleLoop_runs (self : PublicKey) (sign : Z)
    (accounts : list AccountWithPnl) :
  forall (pnl : Z) (instrs : list Instruction),
    (sign = 1 /\ 0 < pnl) \/ (sign = -1 /\ pnl < 0) ->
    InRange pnl ->
    Forall (fun a => InRange (Settle.pnl a)) accounts ->
    exists (matched passed : list AccountWithPnl),
      settleLoop self sign accounts pnl instrs
      = Ok (pnl + sumPnl matched, instrs ++ settleInstructions matched) /\
      List.filter (opposite self sign) accounts = matched ++ passed /\
      (length instrs + length matched <= Nat.max (length instrs) 10)%nat /\
      (passed = [] \/
       (10 <= length instrs + length matched)%nat \/
       sign * (pnl + sumPnl matched) <= 0) /\
      (forall ms last, matched = ms ++ [last] ->
                       0 < sign * (pnl + sumPnl ms)).
Proof.
  induction accounts as [|a rest IH]; intros pnl instrs Hsign Hr Hall.
  - exists [], []. cbn. rewrite app_nil_r, Z.add_0_r.
    split; [reflexivity|]. split; [reflexivity|]. split; [lia|].
    split; [left; reflexivity|]. intros ms last Hm.
    destruct ms; discriminate.
  - apply Forall_cons in Hall. destruct Hall as [Ha Hall].
    assert (Hstart : 0 < sign * pnl)
      by (destruct Hsign as [[-> Hp] | [-> Hp]]; lia).
    destruct (settleLoop_cons self sign a rest pnl instrs Hsign Hr Ha)
      as [(Hopp & ->) | [(Hopp & Hcap & ->) | [(Hopp & Hcap & Hr1 & Hleft & ->)
         | (Hopp & Hcap & Hr1 & Hs1 & ->)]]].
    + destruct (IH pnl instrs Hsign Hr Hall)
        as (matched & passed & Hrun & Hpre & Hlen & Hstop & Hkept).
      exists matched, passed. cbn [List.filter]. rewrite Hopp. tauto.
    + destruct (IH pnl instrs Hsign Hr Hall)
        as (matched & passed & Hrun & Hpre & Hlen & Hstop & Hkept).
      assert (Hnil : matched = [])
        by (destruct matched; [reflexivity | cbn in Hlen; lia]).
      subst matched.
      exists [], (List.filter (opposite self sign) (a :: rest)).
      split; [exact Hrun|]. split; [reflexivity|]. split; [exact Hlen|].
      split; [right; left; cbn; lia | exact Hkept].
    + exists [a], (List.filter (opposite self sign) rest).
      cbn [List.filter]. rewrite Hopp.
      rewrite sumPnl_cons, sumPnl_nil, Z.add_0_r.
      split; [reflexivity|]. split; [reflexivity|]. split; [cbn; lia|].
      split; [right; right; exact Hleft|].
      intros ms last Hm. destruct ms as [|m ms].
      * rewrite sumPnl_nil. lia.
      * destruct ms; discriminate.
    + destruct (IH (pnl + Settle.pnl a) (instrs ++ [SettlePnl (publicKey a)])
                  Hs1 Hr1 Hall)
        as (matched & passed & Hrun & Hpre & Hlen & Hstop & Hkept).
      exists (a :: matched), passed. rewrite Hrun.
      cbn [List.filter]. rewrite Hopp, Hpre. rewrite sumPnl_cons.
      split; [cbn; rewrite <- app_assoc, Z.add_assoc; reflexivity|].
      split; [reflexivity|].
      rewrite length_app in Hlen, Hstop. cbn in Hlen, Hstop. cbn [length].
      split; [lia|]. split.
      * rewrite Z.add_assoc.
        destruct Hstop as [Hp | [Hc | Hf]];
          [left; exact Hp | right; left; lia | right; right; exact Hf].
      * intros ms last Hm. destruct ms as [|m ms].
        -- rewrite sumPnl_nil. lia.
        -- cbn in Hm. inversion Hm; subst m.
           rewrite sumPnl_cons, Z.add_assoc. eapply Hkept. eassumption.
Qed.

Variable TransactionSignature : Type.
Variable getPnl :
  Health.PerpAccount -> option (PerpMarketInfo Z) ->
  option (PerpMarketCache Z) -> Z -> Result Z.
Variable fetchTopPnlAccountsFromDB : Z -> Result (list AccountWithPnl).
Variable fetchTopPnlAccountsFromRPC : Z -> Result (list AccountWithPnl).
Variable sendTransaction : list Instruction -> Result TransactionSignature.

Lemma settleAndSend_sends (self : PublicKey) (isMainnet : bool) (sign : Z)
    (pnl : Z) (instrs : list Instruction) (accounts : list AccountWithPnl) :
  (sign = 1 /\ 0 < pnl) \/ (sign = -1 /\ pnl < 0) ->
  InRange pnl ->
  Client.fetchCandidates fetchTopPnlAccountsFromDB fetchTopPnlAccountsFromRPC
    isMainnet sign = Ok accounts ->
  Forall (fun a => InRange (Settle.pnl a)) accounts ->
  exists (matched passed : list AccountWithPnl),
    Client.settleAndSend TransactionSignature fetchTopPnlAccountsFromDB
      fetchTopPnlAccountsFromRPC sendTransaction self isMainnet sign pnl instrs
    = (let* txid := sendTransaction (instrs ++ settleInstructions matched) in
       Ok (Some txid)) /\
    List.filter (opposite self sign) accounts = matched ++ passed /\
    (length instrs + length matched <= Nat.max (length instrs) 10)%nat /\
    (passed = [] \/
     (10 <= length instrs + length matched)%nat \/
     sign * (pnl + sumPnl matched) <= 0) /\
    (forall ms last, matched = ms ++ [last] ->
                     0 < sign * (pnl + sumPnl ms)).
Proof.
  intros Hsign Hr Hfetch Hall.
  destruct (settleLoop_runs self sign accounts pnl instrs Hsign Hr Hall)
    as (matched & passed & Hrun & Hrest).
  exists matched, passed. split; [|exact Hrest].
  unfold Client.settleAndSend. rewrite Hfetch. cbn [bind].
  rewrite Hrun. reflexivity.
Qed.

(** X23: what [settlePnl] does once the perp market is found in the group,
    the subject has a perp account for it and the PnL of that account is
    computed.  A zero PnL returns [null]: nothing is fetched and nothing is
    sent.  A loss on a root bank whose [nodeBankAccounts] is empty fails on
    the read of [nodeBankAccounts[0].vault].  Otherwise, with representable
    amounts and the candidates fetched for the sign, the function returns
    what [sendTransaction] returns on this transaction: for a loss the fee
    settlement first (the remaining PnL is then the loss plus the accrued
    fees, capped at -0.000001, so the sign test after the fee step never
    leaves the function); then a settlement against each of the first
    candidates of opposite sign other than the subject, in their order,
    all of them unless the remaining PnL left its sign, which it does only
    on the last one, or the transaction reached 10 instructions.  The
    candidates are those of the ranking service on mainnet when it answers,
    and those of the RPC fetch otherwise (off mainnet, or when the service
    threw); a failure of the RPC fetch is the failure of the function. *)
Theorem settlePnl_transaction (lyraeGroup : LyraeGroup Z)
    (lyraeCache : LyraeCache Z) (lyraeAccount : Health.LyraeAccount)
    (perpMarketPk : PublicKey) (feesAccrued : Z)
    (quoteRootBank : Bank.RootBank) (price : Z) (isMainnet : bool)
    (marketIndex : nat) (perpAccount : Health.PerpAccount) (pnl : Z) :
  Group.getPerpMarketIndex lyraeGroup perpMarketPk = Ok marketIndex ->
  Health.perpAccounts lyraeAccount !! marketIndex = Some perpAccount ->
  getPnl perpAccount (perpMarkets lyraeGroup !! marketIndex)
    (perpMarketCache lyraeCache !! marketIndex) price = Ok pnl ->
  let run :=
    Client.settlePnl TransactionSignature getPnl fetchTopPnlAccountsFromDB
      fetchTopPnlAccountsFromRPC sendTransaction lyraeGroup lyraeCache
      lyraeAccount perpMarketPk feesAccrued quoteRootBank price isMainnet in
  let self := Health.publicKey lyraeAccount in
  let fallback (sign : Z) :=
    isMainnet = false \/ exists e, fetchTopPnlAccountsFromDB sign = Err e in
  let fetched (sign : Z) (accounts : list AccountWithPnl) :=
    (isMainnet = true /\ fetchTopPnlAccountsFromDB sign = Ok accounts) \/
    (fallback sign /\ fetchTopPnlAccountsFromRPC sign = Ok accounts) in
  (pnl = 0 -> run = Ok None) /\
  (pnl < 0 -> Bank.nodeBankAccounts quoteRootBank = [] ->
   run = Err Undefined) /\
  (forall (sign start : Z) (first : list Instruction),
     InRange pnl ->
     (0 < pnl /\ sign = 1 /\ start = pnl /\ first = []) \/
     (pnl < 0 /\ Bank.nodeBankAccounts quoteRootBank <> [] /\
      InRange (pnl + feesAccrued) /\ sign = -1 /\
      start = Z.min (pnl + feesAccrued) Client.MIN_FEE_PNL /\
      first = [SettleFees]) ->
     (forall accounts,
        fetched sign accounts ->
        Forall (fun a => InRange (Settle.pnl a)) accounts ->
        exists (matched passed : list AccountWithPnl),
          run = (let* txid :=
                   sendTransaction (first ++ settleInstructions matched) in
                 Ok (Some txid)) /\
          List.filter (opposite self sign) accounts = matched ++ passed /\
          (length first + length matched <= 10)%nat /\
          (passed = [] \/
           (length first + length matched = 10)%nat \/
           sign * (start + sumPnl matched) <= 0) /\
          (forall ms last, matched = ms ++ [last] ->
                           0 < sign * (start + sumPnl ms))) /\
     (forall e,
        fallback sign -> fetchTopPnlAccountsFromRPC sign = Err e ->
        run = Err e)).
Proof.
  intros Hidx Hacc Hpnl run self fallback fetched.
  set (fetch := Client.fetchCandidates fetchTopPnlAccountsFromDB
                  fetchTopPnlAccountsFromRPC isMainnet).
  assert (Hfetched : forall sign accounts,
             fetched sign accounts -> fetch sign = Ok accounts).
  { intros sign accounts [[-> Hdb] | [[-> | [e Hdb]] Hrpc]];
      subst fetch; unfold Client.fetchCandidates; rewrite ?Hdb;
      try exact Hrpc; try reflexivity.
    destruct isMainnet; exact Hrpc. }
  assert (Hfailed : forall sign e,
             fallback sign -> fetchTopPnlAccountsFromRPC sign = Err e ->
             fetch sign = Err e).
  { intros sign e [-> | [e' Hdb]] Hrpc;
      subst fetch; unfold Client.fetchCandidates; rewrite ?Hdb;
      try exact Hrpc.
    destruct isMainnet; exact Hrpc. }
  assert (Hrun : run =
    (if eq pnl ZERO_I80F48 then Ok None
     else if gt pnl ZERO_I80F48 then
       Client.settleAndSend TransactionSignature fetchTopPnlAccountsFromDB
         fetchTopPnlAccountsFromRPC sendTransaction self isMainnet 1 pnl []
     else
       let* nodeBank := at_index (Bank.nodeBankAccounts quoteRootBank) 0 in
       let* p := add pnl feesAccrued in
       if negb ((if gt (min p Client.MIN_FEE_PNL) ZERO_I80F48 then 1 else -1)
                =? -1)
       then let* txid := sendTransaction [SettleFees] in Ok (Some txid)
       else Client.settleAndSend TransactionSignature
              fetchTopPnlAccountsFromDB fetchTopPnlAccountsFromRPC
              sendTransaction self isMainnet (-1)
              (min p Client.MIN_FEE_PNL) [SettleFees])).
  { subst run. unfold Client.settlePnl. rewrite Hidx. cbn [bind].
    apply at_index_Ok in Hacc. rewrite Hacc. cbn [bind].
    rewrite Hpnl. reflexivity. }
  rewrite Hrun. clear Hrun. unfold eq, gt, ZERO_I80F48.
  split; [|split].
  - intros ->. reflexivity.
  - intros Hneg Hempty. rewrite Hempty.
    destruct (Z.eqb_spec pnl 0); [lia|].
    destruct (Z.gtb_spec pnl 0); [lia|]. reflexivity.
  - intros sign start first Hr Hcase.
    destruct Hcase as [(Hpos & -> & -> & ->)
                      | (Hneg & Hbank & Hrf & -> & -> & ->)].
    + destruct (Z.eqb_spec pnl 0); [lia|].
      destruct (Z.gtb_spec pnl 0); [|lia]. split.
      * intros accounts Hfetch Hall. apply Hfetched in Hfetch.
        destruct (settleAndSend_sends self isMainnet 1 pnl [] accounts
                    (or_introl (conj eq_refl Hpos)) Hr Hfetch Hall)
          as (matched & passed & Hsend & Hpre & Hlen & Hstop & Hkept).
        exists matched, passed. split; [exact Hsend|]. split; [exact Hpre|].
        cbn [length] in *. split; [lia|]. split; [|exact Hkept].
        destruct Hstop as [Hp | [Hc | Hf]];
          [left; exact Hp | right; left; lia | right; right; exact Hf].
      * intros e Hfb Hfetch. unfold Client.settleAndSend.
        fold fetch. rewrite (Hfailed _ _ Hfb Hfetch). reflexivity.
    + destruct (Z.eqb_spec pnl 0); [lia|].
      destruct (Z.gtb_spec pnl 0); [lia|].
      destruct (Bank.nodeBankAccounts quoteRootBank) as [|nb nbs] eqn:Hnb;
        [contradiction|].
      cbn [at_index lookup list_lookup bind].
      unfold add. rewrite (new_InRange _ Hrf). cbn [bind].
      set (p := Z.min (pnl + feesAccrued) Client.MIN_FEE_PNL).
      assert (Hmin : min (pnl + feesAccrued) Client.MIN_FEE_PNL = p).
      { subst p. unfold min, lte.
        destruct (Z.leb_spec (pnl + feesAccrued) Client.MIN_FEE_PNL); lia. }
      rewrite Hmin.
      assert (Hp : p < 0) by (subst p; unfold Client.MIN_FEE_PNL; lia).
      assert (Hrp : InRange p).
      { subst p. unfold Client.MIN_FEE_PNL in *. range_bounds. lia. }
      destruct (Z.gtb_spec p 0); [lia|]. cbn [Z.eqb negb]. split.
      * intros accounts Hfetch Hall. apply Hfetched in Hfetch.
        destruct (settleAndSend_sends self isMainnet (-1) p [SettleFees]
                    accounts (or_intror (conj eq_refl Hp)) Hrp Hfetch Hall)
          as (matched & passed & Hsend & Hpre & Hlen & Hstop & Hkept).
        exists matched, passed. split; [exact Hsend|]. split; [exact Hpre|].
        cbn [length] in *. split; [lia|]. split; [|exact Hkept].
        destruct Hstop as [Hq | [Hc | Hf]];
          [left; exact Hq | right; left; lia | right; right; exact Hf].
      * intros e Hfb Hfetch. unfold Client.settleAndSend.
        fold fetch. rewrite (Hfailed _ _ Hfb Hfetch). reflexivity.
Qed.

End SettleTransaction.

Lemma settlePnl_transaction_witness :
  exists (matched passed : list Settle.AccountWithPnl),
    Client.settlePnl nat (fun _ _ _ _ => Ok (-50)) (fun _ => Err Invalid)
      (fun _ => Ok Samples.ranked) (fun l => Ok (length l))
      Samples.perpGroup Examples.cache Examples.trader 9 10 Samples.bank
      (Examples.whole 10) true
    = (let* txid :=
         (fun l => Ok (length l))
           ([Settle.SettleFees] ++ Settle.settleInstructions matched) in
       Ok (Some txid)) /\
    List.filter (Settle.opposite 1 (-1)) Samples.ranked = matched ++ passed /\
    (length [Settle.SettleFees] + length matched <= 10)%nat.
Proof.
  destruct (settlePnl_transaction nat (fun _ _ _ _ => Ok (-50))
              (fun _ => Err Invalid) (fun _ => Ok Samples.ranked)
              (fun l => Ok (length l))
              Samples.perpGroup Examples.cache Examples.trader 9 10
              Samples.bank (Examples.whole 10) true 0 Examples.noPerp (-50)
              eq_refl eq_refl eq_refl)
    as (_ & _ & Hsend).
  destruct (Hsend (-1) (Z.min (-50 + 10) Client.MIN_FEE_PNL)
              [Settle.SettleFees]) as [Hrun _].
  - apply InRange_bounds. lia.
  - right. split; [lia|]. split; [discriminate|].
    split; [apply InRange_bounds; lia|]. repeat split.
  - destruct (Hrun Samples.ranked)
      as (matched & passed & Heq & Hpre & Hlen & _).
    + right. split; [right; exists Invalid; reflexivity | reflexivity].
    + repeat constructor; apply InRange_bounds; cbn; lia.
    + exists matched, passed. split; [exact Heq|]. split; [exact Hpre | exact Hlen].
Defined.

(* --------------------------------------------------------------------- *)
(** ** Native amounts *)

Section NativeAmounts.
Import I80F48 Entities Health.

(** X24: a native amount is converted to UI units for a token of at most
    15 decimals: the result is the amount divided by [10^decimals],
    truncated toward zero in its 48th fractional bit.  From 16 decimals on
    the power of ten is not below [2^53], the big-integer constructor
    refuses the number and the conversion throws. *)
Theorem nativeI80F48ToUi_decimals (amount decimals : Z) :
  InRange amount -> 0 <= decimals ->
  Bank.nativeI80F48ToUi amount decimals
  = (if decimals <=? 15 then Ok (Z.quot amount (10 ^ decimals))
     else Err Invalid).
Proof.
  intros Hr Hd. unfold Bank.nativeI80F48ToUi, Bank.fromPow10.
  assert (Hpos : 0 < 10 ^ decimals) by (apply Z.pow_pos_nonneg; lia).
  destruct (Z.leb_spec decimals 15) as [Hle|Hgt].
  - assert (Hp : 10 ^ decimals <= 10 ^ 15) by (apply Z.pow_le_mono_r; lia).
    set (t := 10 ^ decimals) in *.
    destruct (Z.leb_spec (2 ^ 53) t) as [Hbig|_]; [lia|].
    unfold fromNumber. rewrite (Z.abs_eq t) by lia.
    destruct (Z.leb_spec (2 ^ 53) t) as [Hbig|_]; [lia|].
    rewrite ushln_mul, Z.add_0_r by lia.
    rewrite new_InRange by (range_bounds; lia). cbn [bind].
    rewrite div_quot by lia. rewrite Z.quot_mul_cancel_r by lia.
    apply new_InRange.
    assert (Hq : forall a, 0 <= a -> 0 <= Z.quot a t <= a).
    { intros a Ha. split; [apply Z.quot_pos; lia|].
      apply Z.quot_le_upper_bound; [lia | nia]. }
    assert (Hs : (0 <= amount -> 0 <= Z.quot amount t <= amount) /\
                 (amount <= 0 -> amount <= Z.quot amount t <= 0)).
    { split; [apply Hq|]. intros Hneg.
      pose proof (Hq (- amount) ltac:(lia)) as Hq'.
      rewrite Z.quot_opp_l in Hq' by lia. lia. }
    set (q := Z.quot amount t) in *. clearbody q. range_bounds. lia.
  - assert (Hp : 10 ^ 16 <= 10 ^ decimals) by (apply Z.pow_le_mono_r; lia).
    set (t := 10 ^ decimals) in *.
    destruct (Z.leb_spec (2 ^ 53) t) as [_|Hsmall];
      [reflexivity | lia].
Qed.

(** X25: the net balance of a token is its native deposit less its native
    borrow, as [getNativeDeposit] and [getNativeBorrow] compute them
    against the same bank, errors included; with shares and indexes that
    are not negative the two native amounts are not negative. *)
Theorem net_is_deposit_less_borrow (this : LyraeAccount)
    (bank : option (RootBankCache Z)) (tokenIndex : nat) :
  getNet this bank tokenIndex
  = (let* d := Account.getNativeDeposit this bank tokenIndex in
     let* b := Account.getNativeBorrow this bank tokenIndex in
     sub d b) /\
  (forall bc d b,
     bank = Some bc -> 0 <= depositIndex bc -> 0 <= borrowIndex bc ->
     Forall (fun x => 0 <= x) (deposits this) ->
     Forall (fun x => 0 <= x) (borrows this) ->
     Account.getNativeDeposit this bank tokenIndex = Ok d ->
     Account.getNativeBorrow this bank tokenIndex = Ok b ->
     0 <= d /\ 0 <= b /\ getNet this bank tokenIndex = new (d - b)).
Proof.
  assert (Heq : getNet this bank tokenIndex
                = (let* d := Account.getNativeDeposit this bank tokenIndex in
                   let* b := Account.getNativeBorrow this bank tokenIndex in
                   sub d b)).
  { unfold getNet, Account.getNativeDeposit, Account.getNativeBorrow, at_index.
    destruct bank as [bc|]; cbn [prop bind].
    - destruct (deposits this !! tokenIndex) as [d|]; cbn [bind]; [|reflexivity].
      rewrite !mul_quot, (Z.mul_comm d).
      destruct (new (Z.quot (depositIndex bc * d) (2 ^ 48))) as [a|e];
        cbn [bind]; [|reflexivity].
      destruct (borrows this !! tokenIndex) as [b|]; cbn [bind]; [|reflexivity].
      rewrite !mul_quot, (Z.mul_comm b). reflexivity.
    - destruct (deposits this !! tokenIndex) as [d|]; reflexivity. }
  split; [exact Heq|].
  intros bc d b -> Hdi Hbi Hds Hbs Hd Hb. rewrite Heq, Hd, Hb. cbn [bind].
  unfold Account.getNativeDeposit, Account.getNativeBorrow in Hd, Hb.
  cbn [prop bind] in Hd, Hb.
  apply bind_Ok in Hd. destruct Hd as (x & Ex & Hd).
  apply bind_Ok in Hb. destruct Hb as (y & Ey & Hb).
  apply at_index_Ok in Ex, Ey.
  pose proof (Forall_lookup_1 _ _ _ _ Hds Ex) as Hx.
  pose proof (Forall_lookup_1 _ _ _ _ Hbs Ey) as Hy. cbn beta in Hx, Hy.
  split; [exact (mul_nonneg _ _ _ Hd Hdi Hx)|].
  split; [exact (mul_nonneg _ _ _ Hb Hbi Hy) | reflexivity].
Qed.

End NativeAmounts.

Lemma nativeI80F48ToUi_decimals_witness :
  Bank.nativeI80F48ToUi (Examples.whole 1000) 9 = Ok 281474976 /\
  Bank.nativeI80F48ToUi (Examples.whole 1000) 16 = Err Invalid.
Proof.
  split.
  - apply (nativeI80F48ToUi_decimals (Examples.whole 1000) 9).
    + apply InRange_bounds. split; apply Z.leb_le; reflexivity.
    + lia.
  - apply (nativeI80F48ToUi_decimals (Examples.whole 1000) 16).
    + apply InRange_bounds. split; apply Z.leb_le; reflexivity.
    + lia.
Defined.

Lemma net_is_deposit_less_borrow_witness :
  0 <= Examples.whole 100 /\ 0 <= 0 /\
  Health.getNet Examples.borrower (Some Examples.bank) 15
  = I80F48.new (Examples.whole 100 - 0).
Proof.
  apply (proj2 (net_is_deposit_less_borrow Examples.borrower
                  (Some Examples.bank) 15) Examples.bank).
  - reflexivity.
  - apply Z.leb_le. reflexivity.
  - apply Z.leb_le. reflexivity.
  - repeat constructor; apply Z.leb_le; reflexivity.
  - repeat constructor; apply Z.leb_le; reflexivity.
  - vm_compute. reflexivity.
  - vm_compute. reflexivity.
Defined.
